(** * Stable marriages: the workshop notebook's deferred-acceptance engine

    A shallow embedding of the three classes of the notebook
    [Workshop Stable Mariages] ([Man], [Woman], [Stable_Marriages]) and of
    the module-level driver that runs them.

    Python objects are mutable and shared by reference: a [Woman] holds a
    reference to her current partner and [Woman.decide] writes through it.
    The embedding therefore keeps an explicit store of [Man] and [Woman]
    objects; a reference is an address (an index) into the store, and a
    Python list of objects is a list of addresses.  Methods are functions in
    a state-and-exception monad over the store.  The [print] calls of the
    notebook only produce a trace and are left out.  *)

From stdpp Require Import gmap strings list.

Local Open Scope Z_scope.

(** ** Exceptions and the state monad *)

(** The built-in exceptions the notebook's code can raise, and the one it
    raises itself with [raise Exception(msg)]. *)
Inductive exn : Type :=
  | IndexError
  | ValueError
  | AttributeError
  | TypeError
  | Exception (msg : string).

(** Result of running a method on a store of type [S].  A raised exception
    keeps the store as it was when it was raised: Python does not roll back
    the assignments made before.  [Stuck] is the dereference of an address
    that is not in the store; no Python reference is ever in that case. *)
Inductive result (S A : Type) : Type :=
  | Ok (a : A) (s : S)
  | Raise (e : exn) (s : S)
  | Stuck.
Arguments Ok {S A} a s.
Arguments Raise {S A} e s.
Arguments Stuck {S A}.

Definition M (S A : Type) : Type := S → result S A.

#[global] Instance M_mret {S} : MRet (M S) := λ A a s, Ok a s.

#[global] Instance M_bind {S} : MBind (M S) :=
  λ A B k c s, match c s with
               | Ok a s' => k a s'
               | Raise e s' => Raise e s'
               | Stuck => Stuck
               end.

Definition raise {S A} (e : exn) : M S A := λ s, Raise e s.

(** [list.index(x)]: the position of the first occurrence of [x]. *)
Fixpoint index (l : list Z) (x : Z) : option nat :=
  match l with
  | [] => None
  | y :: l' => if y =? x then Some 0%nat else S <$> index l' x
  end.

(** ** The [Man] class *)

Module Man.

(** [partner] is a reference to a [Woman] object; [partner_rank] is
    [None] for [math.inf]. *)
Record t : Type := mk {
  mid : Z;
  pref_list : list Z;
  remaining_list : list Z;
  partner : option nat;
  partner_rank : option nat;
  is_free : bool;
  proposals_made : nat;
  max_proposals : nat
}.

Definition __init__ (mid : Z) (pref_list : list Z) : t :=
  {| mid := mid;
     pref_list := pref_list;
     remaining_list := pref_list;
     partner := None;
     partner_rank := None;
     is_free := true;
     proposals_made := 0;
     max_proposals := length pref_list |}.

Definition set_remaining_list (l : list Z) (m : t) : t :=
  mk (mid m) (pref_list m) l (partner m) (partner_rank m) (is_free m)
     (proposals_made m) (max_proposals m).
Definition set_partner (p : option nat) (m : t) : t :=
  mk (mid m) (pref_list m) (remaining_list m) p (partner_rank m) (is_free m)
     (proposals_made m) (max_proposals m).
Definition set_partner_rank (r : option nat) (m : t) : t :=
  mk (mid m) (pref_list m) (remaining_list m) (partner m) r (is_free m)
     (proposals_made m) (max_proposals m).
Definition set_is_free (b : bool) (m : t) : t :=
  mk (mid m) (pref_list m) (remaining_list m) (partner m) (partner_rank m) b
     (proposals_made m) (max_proposals m).
Definition set_proposals_made (n : nat) (m : t) : t :=
  mk (mid m) (pref_list m) (remaining_list m) (partner m) (partner_rank m)
     (is_free m) n (max_proposals m).

End Man.

(** ** The [Woman] class *)

Module Woman.

(** [partner] is a reference to a [Man] object; [partner_rank] is [None]
    for Python's [None]. *)
Record t : Type := mk {
  wid : Z;
  pref_list : list Z;
  partner : option nat;
  partner_rank : option nat;
  is_free : bool;
  proposals_received : nat
}.

Definition __init__ (wid : Z) (pref_list : list Z) : t :=
  {| wid := wid;
     pref_list := pref_list;
     partner := None;
     partner_rank := None;
     is_free := true;
     proposals_received := 0 |}.

Definition set_partner (p : option nat) (w : t) : t :=
  mk (wid w) (pref_list w) p (partner_rank w) (is_free w)
     (proposals_received w).
Definition set_partner_rank (r : option nat) (w : t) : t :=
  mk (wid w) (pref_list w) (partner w) r (is_free w) (proposals_received w).
Definition set_is_free (b : bool) (w : t) : t :=
  mk (wid w) (pref_list w) (partner w) (partner_rank w) b
     (proposals_received w).
Definition set_proposals_received (n : nat) (w : t) : t :=
  mk (wid w) (pref_list w) (partner w) (partner_rank w) (is_free w) n.

(** The dict returned by [decide]. *)
Record decision : Type := mk_decision {
  accepted : bool;
  broke_up : bool
}.

End Woman.

(** ** The object store *)

Record heap : Type := mk_heap {
  men_objs : list Man.t;
  women_objs : list Woman.t
}.

Definition get_man (a : nat) : M heap Man.t :=
  λ h, match men_objs h !! a with
       | Some m => Ok m h
       | None => Stuck
       end.

Definition get_woman (b : nat) : M heap Woman.t :=
  λ h, match women_objs h !! b with
       | Some w => Ok w h
       | None => Stuck
       end.

(** An attribute assignment [obj.field = v] through a reference. *)
Definition upd_man (a : nat) (f : Man.t → Man.t) : M heap unit :=
  λ h, match men_objs h !! a with
       | Some m => Ok () (mk_heap (<[a := f m]> (men_objs h)) (women_objs h))
       | None => Stuck
       end.

Definition upd_woman (b : nat) (f : Woman.t → Woman.t) : M heap unit :=
  λ h, match women_objs h !! b with
       | Some w => Ok () (mk_heap (men_objs h) (<[b := f w]> (women_objs h)))
       | None => Stuck
       end.

(** Object creation: the new object gets the next address. *)
Definition new_man (m : Man.t) : M heap nat :=
  λ h, Ok (length (men_objs h)) (mk_heap (men_objs h ++ [m]) (women_objs h)).

Definition new_woman (w : Woman.t) : M heap nat :=
  λ h, Ok (length (women_objs h)) (mk_heap (men_objs h) (women_objs h ++ [w])).

(** ** Methods of [Man] *)

(** [self.remaining_list.pop(0)] *)
Definition Man_getSuitressId (self : nat) : M heap Z :=
  m ← get_man self;
  match Man.remaining_list m with
  | [] => raise IndexError
  | x :: rest => upd_man self (Man.set_remaining_list rest);; mret x
  end.

Definition Man_updatePartner (self suitress : nat) : M heap unit :=
  upd_man self (Man.set_partner (Some suitress));;
  m ← get_man self;
  w ← get_woman suitress;
  match index (Man.pref_list m) (Woman.wid w) with
  | None => raise ValueError
  | Some r =>
      upd_man self (Man.set_partner_rank (Some r));;
      upd_man self (Man.set_is_free false)
  end.

(** ** [Woman.decide] *)

Definition Woman_decide (self man : nat) : M heap Woman.decision :=
  w0 ← get_woman self;
  upd_woman self
    (Woman.set_proposals_received (S (Woman.proposals_received w0)));;
  m ← get_man man;
  w ← get_woman self;
  match index (Woman.pref_list w) (Man.mid m) with
  | None => raise ValueError
  | Some suitor_rank =>
      let first_proposal := Woman.is_free w in
      break_up ←
        (if negb (Woman.is_free w) then
           match Woman.partner_rank w with
           | None => raise TypeError
           | Some pr => mret (suitor_rank <? pr)%nat
           end
         else mret false);
      if first_proposal || break_up then
        (if break_up then
           match Woman.partner w with
           | None => raise AttributeError
           | Some old =>
               upd_man old (Man.set_is_free true);;
               upd_man old (Man.set_partner None);;
               upd_man old (Man.set_partner_rank None)
           end
         else mret ());;
        upd_woman self (Woman.set_partner (Some man));;
        upd_woman self (Woman.set_partner_rank (Some suitor_rank));;
        upd_woman self (Woman.set_is_free false);;
        mret (Woman.mk_decision true break_up)
      else mret (Woman.mk_decision false false)
  end.

(** ** The [Stable_Marriages] class *)

Module Stable_Marriages.

(** One value of the [matching_status] dict. *)
Record status : Type := mk_status {
  partner_id : option Z;
  free : bool;
  proposals : nat
}.

(** [men] and [women] are lists of references. *)
Record t : Type := mk {
  men : list nat;
  women : list nat;
  applicants : nat;
  freeMen : Z;
  matching_status : gmap Z status
}.

Definition set_freeMen (n : Z) (self : t) : t :=
  mk (men self) (women self) (applicants self) n (matching_status self).
Definition set_matching_status (d : gmap Z status) (self : t) : t :=
  mk (men self) (women self) (applicants self) (freeMen self) d.

End Stable_Marriages.

(** The module-level variables [men] and [women] of the notebook, which
    [match] and [getSuitress] read. *)
Record globals : Type := mk_globals {
  men : list nat;
  women : list nat
}.

(** The methods of [Stable_Marriages] run on the engine object and the
    store. *)
Definition sm_state : Type := Stable_Marriages.t * heap.

Definition lift {A} (c : M heap A) : M sm_state A :=
  λ s, match c s.2 with
       | Ok a h => Ok a (s.1, h)
       | Raise e h => Raise e (s.1, h)
       | Stuck => Stuck
       end.

Definition get_self : M sm_state Stable_Marriages.t := λ s, Ok s.1 s.

Definition upd_self (f : Stable_Marriages.t → Stable_Marriages.t)
  : M sm_state unit := λ s, Ok () (f s.1, s.2).

(** The dict comprehension [{man.mid: {...} for man in men}]. *)
Fixpoint init_matching_status (men : list nat)
    (acc : gmap Z Stable_Marriages.status)
  : M heap (gmap Z Stable_Marriages.status) :=
  match men with
  | [] => mret acc
  | a :: rest =>
      m ← get_man a;
      init_matching_status rest
        (<[Man.mid m := Stable_Marriages.mk_status None true 0]> acc)
  end.

Definition Stable_Marriages__init__ (men women : list nat)
  : M heap Stable_Marriages.t :=
  if negb (length men =? length women)%nat then
    raise (Exception "Not equal Number of men and women")
  else
    d ← init_matching_status men ∅;
    mret (Stable_Marriages.mk men women (length men)
            (Z.of_nat (length men)) d).

Definition Stable_Marriages_pairings (self : Stable_Marriages.t)
  : gmap Z (option Z) :=
  Stable_Marriages.partner_id <$> Stable_Marriages.matching_status self.

(** [for i in range(self.applicants)]: compares [self.women[i].wid] and
    returns the element [women[i]] of the module-level list.  [None] is the
    implicit [return None] after the loop. *)
Fixpoint getSuitress_loop (self_women g_women : list nat) (wid : Z)
    (range : list nat) : M heap (option nat) :=
  match range with
  | [] => mret None
  | i :: range' =>
      match self_women !! i with
      | None => raise IndexError
      | Some b =>
          w ← get_woman b;
          if Woman.wid w =? wid then
            match g_women !! i with
            | None => raise IndexError
            | Some b' => mret (Some b')
            end
          else getSuitress_loop self_women g_women wid range'
      end
  end.

Definition Stable_Marriages_getSuitress (g : globals) (wid : Z)
  : M sm_state (option nat) :=
  self ← get_self;
  lift (getSuitress_loop (Stable_Marriages.women self) (women g) wid
          (seq 0 (Stable_Marriages.applicants self))).

(** [for i in range(len(men)): if men[i].is_free: suitor = men[i]; break]
    over the module-level list [men]. *)
Fixpoint find_free_man (men : list nat) : M heap (option nat) :=
  match men with
  | [] => mret None
  | a :: rest =>
      m ← get_man a;
      if Man.is_free m then mret (Some a) else find_free_man rest
  end.

(** How one iteration of the [while] loop of [match] ends. *)
Inductive step : Type :=
  | Continue
  | Break
  | Return (msg : string).

(** The body of the loop.  [suitress.decide] on the [None] that
    [getSuitress] may return raises [AttributeError], after the suitor's
    proposal was counted.  In [if suitor.partner:] a [Woman] object is
    always true: the class defines neither [__bool__] nor [__len__]. *)
Definition match_body (g : globals) : M sm_state step :=
  suitor ← lift (find_free_man (men g));
  match suitor with
  | None => mret Break
  | Some a =>
      m ← lift (get_man a);
      self ← get_self;
      if (Man.proposals_made m <? Stable_Marriages.applicants self)%nat then
        suitress_id ← lift (Man_getSuitressId a);
        suitress ← Stable_Marriages_getSuitress g suitress_id;
        lift (upd_man a (λ m, Man.set_proposals_made
                                (S (Man.proposals_made m)) m));;
        match suitress with
        | None => raise AttributeError
        | Some b =>
            decision ← lift (Woman_decide b a);
            (if Woman.accepted decision then
               lift (Man_updatePartner a b);;
               upd_self (λ self, Stable_Marriages.set_freeMen
                                   (Stable_Marriages.freeMen self - 1) self)
             else mret ());;
            (if Woman.broke_up decision then
               upd_self (λ self, Stable_Marriages.set_freeMen
                                   (Stable_Marriages.freeMen self + 1) self)
             else mret ());;
            m' ← lift (get_man a);
            partner_id ←
              match Man.partner m' with
              | None => mret None
              | Some p => w ← lift (get_woman p); mret (Some (Woman.wid w))
              end;
            upd_self (λ self, Stable_Marriages.set_matching_status
              (<[Man.mid m' :=
                   Stable_Marriages.mk_status partner_id (Man.is_free m')
                     (Man.proposals_made m')]>
                 (Stable_Marriages.matching_status self)) self);;
            mret Continue
        end
      else mret (Return "ran out of women to propose to")
  end.

(** The [while self.freeMen > 0] loop.  The result carries the number of
    iterations that dispatched a proposal and ran to their end; [None] is
    a loop cut by the fuel.  The value is [match]'s return value: [None]
    when the loop is left, the message when a suitor ran out of women. *)
Fixpoint match_loop (fuel : nat) (g : globals) (rounds : nat) (s : sm_state)
  : option (nat * result sm_state (option string)) :=
  match fuel with
  | O => None
  | S fuel' =>
      if 0 <? Stable_Marriages.freeMen s.1 then
        match match_body g s with
        | Ok Continue s' => match_loop fuel' g (S rounds) s'
        | Ok Break s' => Some (rounds, Ok None s')
        | Ok (Return msg) s' => Some (rounds, Ok (Some msg) s')
        | Raise e s' => Some (rounds, Raise e s')
        | Stuck => Some (rounds, Stuck)
        end
      else Some (rounds, Ok None s)
  end.

(** Every iteration that continues makes one more proposal for a man who
    has made fewer than [applicants], so this many iterations are enough
    on every store (lemma [match_loop_budget] below). *)
Definition budget (s : sm_state) : nat :=
  sum_list ((λ m, Stable_Marriages.applicants s.1 - Man.proposals_made m)%nat
              <$> men_objs s.2).

(** [match] as a total function: the loop with that much fuel.  The second
    branch is never taken (lemma [Stable_Marriages_match_loop]). *)
Definition Stable_Marriages_match (g : globals) (s : sm_state)
  : nat * result sm_state (option string) :=
  match match_loop (S (budget s)) g 0 s with
  | Some r => r
  | None => (0%nat, Stuck)
  end.

(** ** The notebook's driver cell *)

(** [Man(mid, pref_list)] for each entry, in order; the list of the new
    references. *)
Fixpoint make_men (ms : list (Z * list Z)) : M heap (list nat) :=
  match ms with
  | [] => mret []
  | (i, p) :: rest =>
      a ← new_man (Man.__init__ i p);
      l ← make_men rest;
      mret (a :: l)
  end.

Fixpoint make_women (ws : list (Z * list Z)) : M heap (list nat) :=
  match ws with
  | [] => mret []
  | (i, p) :: rest =>
      b ← new_woman (Woman.__init__ i p);
      l ← make_women rest;
      mret (b :: l)
  end.

Definition empty_heap : heap := mk_heap [] [].

(** The second half of the cell: [sm.match()], then [sm.pairings()].  The
    result is the number of rounds, what [match] returned and the pairings
    read afterwards. *)
Definition run_match (g : globals) (sm : Stable_Marriages.t)
  : M heap (nat * option string * gmap Z (option Z)) :=
  λ h, match Stable_Marriages_match g (sm, h) with
       | (rounds, Ok v s') =>
           Ok (rounds, v, Stable_Marriages_pairings s'.1) s'.2
       | (_, Raise e s') => Raise e s'.2
       | (_, Stuck) => Stuck
       end.

(** The first half of the cell: the agents, the two module-level lists and
    the engine built on them. *)
Definition construct (ms ws : list (Z * list Z))
  : M heap (globals * Stable_Marriages.t) :=
  men ← make_men ms;
  women ← make_women ws;
  sm ← Stable_Marriages__init__ men women;
  mret (mk_globals men women, sm).

(** The driver: create the agents, bind the module-level [men] and [women],
    build the engine on the same two lists, run [match], read [pairings]. *)
Definition notebook_cell (ms ws : list (Z * list Z))
  : M heap (nat * option string * gmap Z (option Z)) :=
  c ← construct ms ws;
  run_match c.1 c.2.

(** The cell run in a new kernel. *)
Definition notebook (ms ws : list (Z * list Z))
  : result heap (nat * option string * gmap Z (option Z)) :=
  notebook_cell ms ws empty_heap.

(** * Specification vocabulary *)

(** The [Woman] object after she accepted the proposal of the man at
    address [man], whose rank in her list is [suitor_rank]. *)
Definition engaged_woman (w : Woman.t) (man suitor_rank : nat) : Woman.t :=
  Woman.mk (Woman.wid w) (Woman.pref_list w) (Some man) (Some suitor_rank)
    false (S (Woman.proposals_received w)).

(** The [Man] object after his partner broke up with him. *)
Definition freed_man (m : Man.t) : Man.t :=
  Man.mk (Man.mid m) (Man.pref_list m) (Man.remaining_list m) None None true
    (Man.proposals_made m) (Man.max_proposals m).

(** The store a method leaves behind, whether it returned or raised. *)
Definition final_store {S A} (r : result S A) : option S :=
  match r with
  | Ok _ s => Some s
  | Raise _ s => Some s
  | Stuck => None
  end.

(** The [Man] object after a proposal that popped the head of his
    remaining list, leaving [rest]: accepted by the woman at [suitress]
    (whose id has rank [rank] in his list), or rejected. *)
Definition engaged_man (m : Man.t) (rest : list Z) (suitress rank : nat)
  : Man.t :=
  Man.mk (Man.mid m) (Man.pref_list m) rest (Some suitress) (Some rank) false
    (S (Man.proposals_made m)) (Man.max_proposals m).

Definition rejected_man (m : Man.t) (rest : list Z) : Man.t :=
  Man.mk (Man.mid m) (Man.pref_list m) rest (Man.partner m)
    (Man.partner_rank m) (Man.is_free m) (S (Man.proposals_made m))
    (Man.max_proposals m).

(** ** Valid inputs *)

(** The caller's data: one [(id, preference list)] entry per agent.  Two
    groups of equal size, ids unique within a group, every preference list
    a permutation of the other group's ids. *)
Record valid_input (ms ws : list (Z * list Z)) : Prop := {
  valid_length : length ms = length ws;
  valid_mids : NoDup ms.*1;
  valid_wids : NoDup ws.*1;
  valid_men_prefs : ∀ i p, (i, p) ∈ ms → p ≡ₚ ws.*1;
  valid_women_prefs : ∀ i p, (i, p) ∈ ws → p ≡ₚ ms.*1
}.

(** ** Properties of the returned mapping *)

(** [p] is mapped to [r] in the dict read from [pairings]. *)
Definition matched (d : gmap Z (option Z)) (p r : Z) : Prop :=
  d !! p = Some (Some r).

(** [x] comes before [y] in the preference list [prefs]. *)
Definition prefers (prefs : list Z) (x y : Z) : Prop :=
  ∃ i j, index prefs x = Some i ∧ index prefs y = Some j ∧ (i < j)%nat.

(** No pair [(p, r)] that is not matched prefers each other over the
    partners the mapping assigns them. *)
Definition stable (ms ws : list (Z * list Z)) (d : gmap Z (option Z))
  : Prop :=
  ∀ p pp r rp r' p',
    (p, pp) ∈ ms → (r, rp) ∈ ws →
    ¬ matched d p r → matched d p r' → matched d p' r →
    ¬ (prefers pp r r' ∧ prefers rp p p').

(** The keys are the proposers' ids, each mapped to a reviewer's id, and
    every reviewer's id is the image of exactly one proposer's id. *)
Definition bijection (ms ws : list (Z * list Z)) (d : gmap Z (option Z))
  : Prop :=
  (∀ p, is_Some (d !! p) ↔ p ∈ ms.*1) ∧
  (∀ p, p ∈ ms.*1 → ∃ r, r ∈ ws.*1 ∧ matched d p r) ∧
  (∀ r, r ∈ ws.*1 →
        ∃ p, p ∈ ms.*1 ∧ matched d p r ∧ ∀ p', matched d p' r → p' = p).

(** ** The invariant of the loop of [match] *)

Definition free_man_count (h : heap) : nat :=
  sum_list ((λ m, if Man.is_free m then 1 else 0)%nat <$> men_objs h).

Definition free_woman_count (h : heap) : nat :=
  sum_list ((λ w, if Woman.is_free w then 1 else 0)%nat <$> women_objs h).

Definition total_proposals (h : heap) : nat :=
  sum_list (Man.proposals_made <$> men_objs h).

(** What holds of the engine and the store between two iterations, when
    the run was started by the driver on the data [ms], [ws]. *)
Record Inv (ms ws : list (Z * list Z)) (s : sm_state) : Prop := {
  inv_women_field : Stable_Marriages.women s.1 = seq 0 (length ws);
  inv_applicants : Stable_Marriages.applicants s.1 = length ms;
  inv_men_len : length (men_objs s.2) = length ms;
  inv_women_len : length (women_objs s.2) = length ws;
  inv_man : ∀ a m, men_objs s.2 !! a = Some m →
    ms !! a = Some (Man.mid m, Man.pref_list m) ∧
    Man.remaining_list m = drop (Man.proposals_made m) (Man.pref_list m) ∧
    (Man.proposals_made m ≤ length ms)%nat;
  inv_woman : ∀ b w, women_objs s.2 !! b = Some w →
    ws !! b = Some (Woman.wid w, Woman.pref_list w);
  inv_man_free : ∀ a m, men_objs s.2 !! a = Some m →
    Man.is_free m = true → Man.partner m = None;
  inv_man_engaged : ∀ a m, men_objs s.2 !! a = Some m →
    Man.is_free m = false →
    ∃ b w k,
      Man.partner m = Some b ∧ women_objs s.2 !! b = Some w ∧
      Woman.partner w = Some a ∧ Woman.is_free w = false ∧
      Man.proposals_made m = S k ∧
      Man.pref_list m !! k = Some (Woman.wid w) ∧
      Stable_Marriages.matching_status s.1 !! Man.mid m
      = Some (Stable_Marriages.mk_status (Some (Woman.wid w)) false (S k));
  inv_woman_engaged : ∀ b w, women_objs s.2 !! b = Some w →
    Woman.is_free w = false →
    ∃ a m r,
      Woman.partner w = Some a ∧ men_objs s.2 !! a = Some m ∧
      Man.partner m = Some b ∧ Man.is_free m = false ∧
      Woman.partner_rank w = Some r ∧
      index (Woman.pref_list w) (Man.mid m) = Some r;
  inv_proposed : ∀ a m k x, men_objs s.2 !! a = Some m →
    (k < Man.proposals_made m)%nat → Man.pref_list m !! k = Some x →
    ∃ b w pr r,
      women_objs s.2 !! b = Some w ∧ Woman.wid w = x ∧
      Woman.is_free w = false ∧ Woman.partner_rank w = Some pr ∧
      index (Woman.pref_list w) (Man.mid m) = Some r ∧ (pr ≤ r)%nat;
  inv_free_men :
    Stable_Marriages.freeMen s.1 = Z.of_nat (free_man_count s.2);
  inv_free_women : free_woman_count s.2 = free_man_count s.2;
  inv_status_dom : ∀ i,
    is_Some (Stable_Marriages.matching_status s.1 !! i) ↔ i ∈ ms.*1
}.

(** The store after the driver created the agents. *)
Definition fresh_heap (ms ws : list (Z * list Z)) : heap :=
  mk_heap ((λ e, Man.__init__ e.1 e.2) <$> ms)
    ((λ e, Woman.__init__ e.1 e.2) <$> ws).

(** The module-level [men] and [women] as the driver binds them: the
    references of the agents it created, in order. *)
Definition driver_globals (ms ws : list (Z * list Z)) : globals :=
  mk_globals (seq 0 (length ms)) (seq 0 (length ws)).

(** ** Concrete runs *)

(** [k] iterations of the loop body, each of which must continue. *)
Fixpoint iterate_body (k : nat) (g : globals) (s : sm_state)
  : option sm_state :=
  match k with
  | O => Some s
  | S k' =>
      match match_body g s with
      | Ok Continue s' => iterate_body k' g s'
      | _ => None
      end
  end.

(** The engine and the store after the driver built them on [ms], [ws] and
    the loop ran [k] rounds. *)
Definition state_after (ms ws : list (Z * list Z)) (k : nat)
  : option (globals * sm_state) :=
  match construct ms ws empty_heap with
  | Ok c h => (λ s, (c.1, s)) <$> iterate_body k c.1 (c.2, h)
  | _ => None
  end.

(** The scenario of the notebook's text. *)
Definition scenario_men : list (Z * list Z) :=
  [(0, [0; 1; 2; 3]); (1, [2; 3; 0; 1]); (2, [1; 0; 3; 2]); (3, [3; 2; 1; 0])].
Definition scenario_women : list (Z * list Z) :=
  [(0, [0; 1; 2; 3]); (1, [2; 3; 0; 1]); (2, [1; 0; 3; 2]); (3, [3; 2; 1; 0])].

(** The men of the notebook's code cell ([m1] .. [m4]); its women are those
    of the scenario. *)
Definition cell_men : list (Z * list Z) :=
  [(0, [0; 1; 2; 3]); (1, [0; 3; 2; 1]); (2, [1; 0; 3; 2]); (3, [3; 2; 1; 0])].

(** Two groups of two whose men list the same woman twice. *)
Definition repeating_men : list (Z * list Z) := [(0, [0; 0]); (1, [0; 0])].
Definition two_women : list (Z * list Z) := [(0, [0; 1]); (1, [0; 1])].

(** Groups of 3 and 4. *)
Definition three_men : list (Z * list Z) :=
  [(0, [0; 1; 2]); (1, [0; 1; 2]); (2, [0; 1; 2])].

(** The store and the engine after [k] rounds on [ms], [ws]. *)
Definition heap_after (ms ws : list (Z * list Z)) (k : nat) : heap :=
  from_option (λ c, c.2.2) empty_heap (state_after ms ws k).

Definition engine_after (ms ws : list (Z * list Z)) (k : nat)
  : Stable_Marriages.t :=
  from_option (λ c, c.2.1) (Stable_Marriages.mk [] [] 0 0 ∅)
    (state_after ms ws k).

(** Those of the code cell. *)
Definition cell_heap (k : nat) : heap :=
  heap_after cell_men scenario_women k.

Definition cell_engine (k : nat) : Stable_Marriages.t :=
  engine_after cell_men scenario_women k.

Definition cell_globals : globals := driver_globals cell_men scenario_women.

(** * Further vocabulary *)

(** ** What [match] may change of an object *)

(** A [Man] object keeps its id, its preference list and [max_proposals];
    its proposal count only grows and its remaining list only loses
    elements at the front. *)
Definition man_grows (m m' : Man.t) : Prop :=
  Man.mid m' = Man.mid m ∧
  Man.pref_list m' = Man.pref_list m ∧
  Man.max_proposals m' = Man.max_proposals m ∧
  (Man.proposals_made m ≤ Man.proposals_made m')%nat ∧
  Man.remaining_list m' `suffix_of` Man.remaining_list m.

Definition woman_grows (w w' : Woman.t) : Prop :=
  Woman.wid w' = Woman.wid w ∧
  Woman.pref_list w' = Woman.pref_list w ∧
  (Woman.proposals_received w ≤ Woman.proposals_received w')%nat.

(** The same objects at the same addresses, each grown. *)
Definition store_grows (h h' : heap) : Prop :=
  Forall2 man_grows (men_objs h) (men_objs h') ∧
  Forall2 woman_grows (women_objs h) (women_objs h').

(** The engine keeps its lists and [applicants], and every key of
    [matching_status]. *)
Definition engine_grows (e e' : Stable_Marriages.t) : Prop :=
  Stable_Marriages.men e' = Stable_Marriages.men e ∧
  Stable_Marriages.women e' = Stable_Marriages.women e ∧
  Stable_Marriages.applicants e' = Stable_Marriages.applicants e ∧
  ∀ i, is_Some (Stable_Marriages.matching_status e !! i) →
       is_Some (Stable_Marriages.matching_status e' !! i).

Definition state_grows (s s' : sm_state) : Prop :=
  engine_grows s.1 s'.1 ∧ store_grows s.2 s'.2.

(** A computation all of whose outcomes, returned or raised, are related
    to the state it started in. *)
Definition keeps {S A} (R : relation S) (c : M S A) : Prop :=
  ∀ s s', final_store (c s) = Some s' → R s s'.

(** ** Repeated calls *)

(** [k] calls of [getSuitressId] on the same man; the ids they returned. *)
Fixpoint getSuitressId_times (k : nat) (self : nat) : M heap (list Z) :=
  match k with
  | O => mret []
  | S k' =>
      x ← Man_getSuitressId self;
      l ← getSuitressId_times k' self;
      mret (x :: l)
  end.

(** ** The run under another scan order *)

(** A binding of the module-level lists under which the scan of [match]
    meets the men the driver created, in any order and any number of times,
    and [getSuitress] the women in the order of the engine's list. *)
Definition scan_order (ms ws : list (Z * list Z)) (g : globals) : Prop :=
  women g = seq 0 (length ws) ∧ ∀ a, a ∈ men g ↔ (a < length ms)%nat.

(** The states after the three kinds of round, for the suitor [m] at [a]
    and the woman [w] at [b], [r] being his rank in her list. *)
Definition after_first (self : Stable_Marriages.t) (h : heap) (a : nat)
    (m : Man.t) (b : nat) (w : Woman.t) (r : nat) : sm_state :=
  (Stable_Marriages.mk (Stable_Marriages.men self)
     (Stable_Marriages.women self) (Stable_Marriages.applicants self)
     (Stable_Marriages.freeMen self - 1)
     (<[Man.mid m := Stable_Marriages.mk_status (Some (Woman.wid w))
                       false (S (Man.proposals_made m))]>
        (Stable_Marriages.matching_status self)),
   mk_heap
     (<[a := engaged_man m (drop (S (Man.proposals_made m)) (Man.pref_list m))
               b (Man.proposals_made m)]> (men_objs h))
     (<[b := engaged_woman w a r]> (women_objs h))).

Definition after_break_up (self : Stable_Marriages.t) (h : heap) (a : nat)
    (m : Man.t) (b : nat) (w : Woman.t) (r : nat) (old : nat) (mo : Man.t)
  : sm_state :=
  (Stable_Marriages.mk (Stable_Marriages.men self)
     (Stable_Marriages.women self) (Stable_Marriages.applicants self)
     (Stable_Marriages.freeMen self - 1 + 1)
     (<[Man.mid m := Stable_Marriages.mk_status (Some (Woman.wid w))
                       false (S (Man.proposals_made m))]>
        (Stable_Marriages.matching_status self)),
   mk_heap
     (<[a := engaged_man m (drop (S (Man.proposals_made m)) (Man.pref_list m))
               b (Man.proposals_made m)]>
        (<[old := freed_man mo]> (men_objs h)))
     (<[b := engaged_woman w a r]> (women_objs h))).

Definition after_reject (self : Stable_Marriages.t) (h : heap) (a : nat)
    (m : Man.t) (b : nat) (w : Woman.t) : sm_state :=
  (Stable_Marriages.mk (Stable_Marriages.men self)
     (Stable_Marriages.women self) (Stable_Marriages.applicants self)
     (Stable_Marriages.freeMen self)
     (<[Man.mid m := Stable_Marriages.mk_status None (Man.is_free m)
                       (S (Man.proposals_made m))]>
        (Stable_Marriages.matching_status self)),
   mk_heap
     (<[a := rejected_man m
               (drop (S (Man.proposals_made m)) (Man.pref_list m))]>
        (men_objs h))
     (<[b := Woman.set_proposals_received
               (S (Woman.proposals_received w)) w]> (women_objs h))).

(** ** Optimality for the proposers *)

(** No man has yet been turned down by a woman he is matched with in some
    stable bijection: of the women he has proposed to, only the one he is
    engaged to can be his partner there. *)
Definition optimal_so_far (ms ws : list (Z * list Z)) (s : sm_state)
  : Prop :=
  ∀ d', bijection ms ws d' → stable ms ws d' →
  ∀ a m k x,
    men_objs s.2 !! a = Some m →
    (k < Man.proposals_made m)%nat → Man.pref_list m !! k = Some x →
    matched d' (Man.mid m) x →
    Man.is_free m = false ∧ Man.proposals_made m = S k.

Definition total_received (h : heap) : nat :=
  sum_list (Woman.proposals_received <$> women_objs h).

(** The loop invariant with what the further properties need. *)
Record Inv_more (ms ws : list (Z * list Z)) (s : sm_state) : Prop := {
  more_inv : Inv ms ws s;
  more_optimal : optimal_so_far ms ws s;
  more_received : total_received s.2 = total_proposals s.2
}.

(** The id of the woman at position [i] of the engine's list [sw]. *)
Definition engine_wid (sw : list nat) (h : heap) (i : nat) : option Z :=
  sw !! i ≫= λ b, Woman.wid <$> women_objs h !! b.

(** Two men whose lists are longer than the group: man 1 lists woman 0
    twice before woman 1. *)
Definition long_men : list (Z * list Z) := [(0, [0; 1; 1]); (1, [0; 0; 1])].

(** The engine and the store of the code cell after [k] rounds, as one
    state. *)
Definition cell_state (k : nat) : sm_state := (cell_engine k, cell_heap k).

(** * Basic facts *)

(** ** [index] *)

Lemma index_lookup (l : list Z) x i : index l x = Some i → l !! i = Some x.
Proof.
  revert i. induction l as [|y l IH]; intros i; simpl; [done|].
  destruct (Z.eqb_spec y x) as [->|Hne].
  - by intros [= <-].
  - destruct (index l x) as [j|] eqn:Hj; simpl; [|done].
    intros [= <-]. simpl. by apply IH.
Qed.

Lemma index_first (l : list Z) x i j :
  index l x = Some i → l !! j = Some x → (i ≤ j)%nat.
Proof.
  revert i j. induction l as [|y l IH]; intros i j; simpl; [done|].
  destruct (Z.eqb_spec y x) as [->|Hne].
  - intros [= <-] _. lia.
  - destruct (index l x) as [i'|] eqn:Hi; simpl; [|done].
    intros [= <-]. destruct j as [|j]; simpl.
    + by intros [= ->].
    + intros Hj. specialize (IH _ _ eq_refl Hj). lia.
Qed.

Lemma index_is_Some (l : list Z) x : x ∈ l → is_Some (index l x).
Proof.
  induction 1 as [y l|y z l _ IH]; simpl.
  - rewrite Z.eqb_refl. eauto.
  - destruct (z =? y); [eauto|]. destruct IH as [i ->]. simpl. eauto.
Qed.

Lemma index_NoDup (l : list Z) x i :
  NoDup l → l !! i = Some x → index l x = Some i.
Proof.
  intros Hnd Hi.
  destruct (index_is_Some l x) as [j Hj].
  { apply list_elem_of_lookup. eauto. }
  rewrite Hj. f_equal.
  eapply NoDup_lookup; eauto using index_lookup.
Qed.

(** ** Sums over a list updated in place *)

Lemma sum_list_insert {A} (f : A → nat) (l : list A) i x y :
  l !! i = Some x →
  (sum_list (f <$> <[i := y]> l) + f x = sum_list (f <$> l) + f y)%nat.
Proof.
  revert i. induction l as [|z l IH]; intros [|i]; csimpl; try done.
  - intros [= ->]. lia.
  - intros Hi. specialize (IH _ Hi). lia.
Qed.

Lemma sum_list_zero {A} (f : A → nat) (l : list A) :
  sum_list (f <$> l) = 0%nat → ∀ i x, l !! i = Some x → f x = 0%nat.
Proof.
  induction l as [|z l IH]; csimpl; [done|].
  intros Hs [|i] x; csimpl.
  - intros [= ->]. lia.
  - apply IH. lia.
Qed.

Lemma sum_list_all_zero {A} (f : A → nat) (l : list A) :
  (∀ i x, l !! i = Some x → f x = 0%nat) → sum_list (f <$> l) = 0%nat.
Proof.
  induction l as [|z l IH]; csimpl; [done|].
  intros H. rewrite (H 0%nat z eq_refl), IH; [done|].
  intros i x Hi. by apply (H (S i)).
Qed.

Lemma sum_list_bound {A} (f : A → nat) (l : list A) c :
  (∀ i x, l !! i = Some x → (f x ≤ c)%nat) →
  (sum_list (f <$> l) ≤ length l * c)%nat.
Proof.
  induction l as [|z l IH]; intros H; csimpl; [lia|].
  pose proof (H 0%nat z eq_refl).
  assert (sum_list (f <$> l) ≤ length l * c)%nat; [|lia].
  apply IH. intros i x Hi. by apply (H (S i)).
Qed.

Lemma sum_list_complement {A} (f : A → nat) (l : list A) c :
  (∀ i x, l !! i = Some x → (f x ≤ c)%nat) →
  (sum_list (f <$> l) + sum_list ((λ x, c - f x)%nat <$> l)
   = length l * c)%nat.
Proof.
  induction l as [|z l IH]; intros H; csimpl; [done|].
  pose proof (H 0%nat z eq_refl).
  specialize (IH (λ i, H (S i))). lia.
Qed.

(** ** Running the store operations *)

Lemma bind_Ok {S A B} (c : M S A) (k : A → M S B) s a s' :
  c s = Ok a s' → (c ≫= k) s = k a s'.
Proof. unfold mbind, M_bind. by intros ->. Qed.

Lemma bind_Raise {S A B} (c : M S A) (k : A → M S B) s e s' :
  c s = Raise e s' → (c ≫= k) s = Raise e s'.
Proof. unfold mbind, M_bind. by intros ->. Qed.

Lemma get_man_Ok h a m : men_objs h !! a = Some m → get_man a h = Ok m h.
Proof. unfold get_man. by intros ->. Qed.

Lemma get_woman_Ok h b w :
  women_objs h !! b = Some w → get_woman b h = Ok w h.
Proof. unfold get_woman. by intros ->. Qed.

Lemma upd_man_Ok h a m f :
  men_objs h !! a = Some m →
  upd_man a f h = Ok () (mk_heap (<[a := f m]> (men_objs h)) (women_objs h)).
Proof. unfold upd_man. by intros ->. Qed.

Lemma upd_woman_Ok h b w f :
  women_objs h !! b = Some w →
  upd_woman b f h
  = Ok () (mk_heap (men_objs h) (<[b := f w]> (women_objs h))).
Proof. unfold upd_woman. by intros ->. Qed.

Lemma lookup_insert_same {A} (l : list A) i x y :
  l !! i = Some x → <[i := y]> l !! i = Some y.
Proof. intros H. apply list_lookup_insert_eq. by eapply lookup_lt_Some. Qed.

(** Unfold the monad and the store operations, then walk through the
    program by rewriting the known contents of the store. *)
Ltac unfold_M :=
  unfold mbind, M_bind, mret, M_mret, raise, lift, get_self, upd_self,
    get_man, get_woman, upd_man, upd_woman in *.

Ltac store_step :=
  first
    [ progress simpl
    | rewrite list_insert_insert_eq
    | rewrite list_lookup_insert_eq
        by (rewrite ?length_insert; eapply lookup_lt_Some; eassumption)
    | rewrite list_lookup_insert_ne by congruence
    | match goal with
      | H : ?l !! ?i = _ |- context [?l !! ?i] => rewrite H
      | H : index ?l ?x = _ |- context [index ?l ?x] => rewrite H
      end ].

Ltac run_store := unfold_M; repeat store_step.

(** ** The three outcomes of [Woman.decide] *)

Section decide.
Context (h : heap) (self man : nat) (w : Woman.t) (m : Man.t)
  (suitor_rank : nat).
Hypothesis Hw : women_objs h !! self = Some w.
Hypothesis Hm : men_objs h !! man = Some m.
Hypothesis Hrank : index (Woman.pref_list w) (Man.mid m) = Some suitor_rank.

Lemma decide_first :
  Woman.is_free w = true →
  Woman_decide self man h
  = Ok (Woman.mk_decision true false)
      (mk_heap (men_objs h) (<[self := engaged_woman w man suitor_rank]> (women_objs h))).
Proof.
  intros Hfree. unfold Woman_decide. run_store.
  rewrite Hfree. by run_store.
Qed.

Lemma decide_reject pr :
  Woman.is_free w = false →
  Woman.partner_rank w = Some pr →
  (pr ≤ suitor_rank)%nat →
  Woman_decide self man h
  = Ok (Woman.mk_decision false false)
      (mk_heap (men_objs h)
         (<[self := Woman.set_proposals_received
                      (S (Woman.proposals_received w)) w]> (women_objs h))).
Proof.
  intros Hfree Hpr Hle. unfold Woman_decide. run_store.
  rewrite Hfree, Hpr. run_store.
  destruct (Nat.ltb_spec suitor_rank pr); [lia|]. by run_store.
Qed.

Lemma decide_break_up pr old mo :
  Woman.is_free w = false →
  Woman.partner_rank w = Some pr →
  (suitor_rank < pr)%nat →
  Woman.partner w = Some old →
  men_objs h !! old = Some mo →
  Woman_decide self man h
  = Ok (Woman.mk_decision true true)
      (mk_heap
         (<[old := freed_man mo]> (men_objs h))
         (<[self := engaged_woman w man suitor_rank]> (women_objs h))).
Proof.
  intros Hfree Hpr Hlt Hold Hmo. unfold Woman_decide. run_store.
  rewrite Hfree, Hpr. run_store.
  destruct (Nat.ltb_spec suitor_rank pr); [|lia]. run_store.
  rewrite Hold. by run_store.
Qed.
End decide.

(** ** What [Woman.decide] may write *)

Lemma decide_frame h self man r h' :
  Woman_decide self man h = r → final_store r = Some h' →
  (∀ b, b ≠ self → women_objs h' !! b = women_objs h !! b) ∧
  (∀ a w, women_objs h !! self = Some w → Woman.partner w ≠ Some a →
          men_objs h' !! a = men_objs h !! a) ∧
  (∀ d, r = Ok d h' → Woman.broke_up d = false → men_objs h' = men_objs h) ∧
  (∀ d, r = Ok d h' → Woman.broke_up d = true →
        Woman.accepted d = true ∧
        ∃ w old mo, women_objs h !! self = Some w ∧
                    Woman.partner w = Some old ∧
                    men_objs h !! old = Some mo ∧
                    men_objs h' = <[old := freed_man mo]> (men_objs h)) ∧
  (∀ e, r = Raise e h' → men_objs h' = men_objs h).
Proof.
  intros <-. unfold Woman_decide.
  destruct (women_objs h !! self) as [w|] eqn:Hw; [|by run_store].
  destruct (men_objs h !! man) as [m|] eqn:Hm; [|by run_store].
  run_store.
  destruct (index _ _) as [rk|]; simpl.
  2:{ intros [= <-]. simpl. split_and!; try done.
      intros b Hb. by rewrite list_lookup_insert_ne. }
  destruct (Woman.is_free w) eqn:Hfree; simpl.
  - repeat store_step. intros [= <-]. simpl. split_and!; try done.
    + intros b Hb. by rewrite list_lookup_insert_ne.
    + by intros d [= <-].
  - destruct (Woman.partner_rank w) as [pr|]; simpl.
    2:{ intros [= <-]. simpl. split_and!; try done.
        intros b Hb. by rewrite list_lookup_insert_ne. }
    destruct (rk <? pr)%nat; simpl.
    2:{ intros [= <-]. simpl. split_and!; try done.
        - intros b Hb. by rewrite list_lookup_insert_ne.
        - by intros d [= <-]. }
    destruct (Woman.partner w) as [old|] eqn:Hold; simpl.
    2:{ intros [= <-]. simpl. split_and!; try done.
        intros b Hb. by rewrite list_lookup_insert_ne. }
    destruct (men_objs h !! old) as [mo|] eqn:Hmo; [|by run_store].
    repeat store_step. intros [= <-]. simpl. split_and!.
    + intros b Hb. by rewrite list_lookup_insert_ne.
    + intros a w' [= <-] Hne. rewrite list_lookup_insert_ne; congruence.
    + by intros d [= <-].
    + intros d [= <-] _. split; [done|]. by exists w, old, mo.
    + done.
Qed.

(** ** The methods of [Man] *)

Lemma getSuitressId_Ok h a m x rest :
  men_objs h !! a = Some m →
  Man.remaining_list m = x :: rest →
  Man_getSuitressId a h
  = Ok x (mk_heap (<[a := Man.set_remaining_list rest m]> (men_objs h))
            (women_objs h)).
Proof.
  intros Hm Hrem. unfold Man_getSuitressId. run_store.
  rewrite Hrem. by run_store.
Qed.

Lemma getSuitressId_empty h a m :
  men_objs h !! a = Some m →
  Man.remaining_list m = [] →
  Man_getSuitressId a h = Raise IndexError h.
Proof.
  intros Hm Hrem. unfold Man_getSuitressId. run_store.
  rewrite Hrem. by run_store.
Qed.

Lemma updatePartner_Ok h a m b w r :
  men_objs h !! a = Some m →
  women_objs h !! b = Some w →
  index (Man.pref_list m) (Woman.wid w) = Some r →
  Man_updatePartner a b h
  = Ok () (mk_heap
             (<[a := Man.mk (Man.mid m) (Man.pref_list m)
                       (Man.remaining_list m) (Some b) (Some r) false
                       (Man.proposals_made m) (Man.max_proposals m)]>
                (men_objs h))
             (women_objs h)).
Proof. intros Hm Hw Hr. unfold Man_updatePartner. by run_store. Qed.

(** ** [getSuitress] and the scan for a free man read the store only *)

Lemma getSuitress_loop_reads sw gw x range h r h1 :
  getSuitress_loop sw gw x range h = r → final_store r = Some h1 → h1 = h.
Proof.
  intros <-. induction range as [|i range IH]; simpl.
  - by intros [= <-].
  - destruct (sw !! i) as [b|]; [|by intros [= <-]].
    destruct (women_objs h !! b) as [w|] eqn:Hw; [|by run_store].
    run_store. destruct (Woman.wid w =? x); [|done].
    destruct (gw !! i); by intros [= <-].
Qed.

Lemma getSuitress_loop_women sw gw x range h h' r :
  women_objs h' = women_objs h →
  getSuitress_loop sw gw x range h = Ok r h →
  getSuitress_loop sw gw x range h' = Ok r h'.
Proof.
  intros Heq. induction range as [|i range IH]; simpl.
  - by intros [= <-].
  - destruct (sw !! i) as [b|]; [|done].
    unfold mbind, M_bind, get_woman. rewrite Heq.
    destruct (women_objs h !! b) as [w|]; [|done].
    destruct (Woman.wid w =? x); [|done].
    destruct (gw !! i); [|done]. by intros [= <-].
Qed.

Lemma find_free_man_reads l h r h1 :
  find_free_man l h = r → final_store r = Some h1 → h1 = h.
Proof.
  intros <-. induction l as [|a l IH]; simpl.
  - by intros [= <-].
  - destruct (men_objs h !! a) as [m|] eqn:Hm; [|by run_store].
    run_store. destruct (Man.is_free m); [by intros [= <-]|done].
Qed.


Lemma find_free_man_spec l h :
  (∀ a, a ∈ l → is_Some (men_objs h !! a)) →
  ∃ r, find_free_man l h = Ok r h ∧
       match r with
       | Some a => a ∈ l ∧ ∃ m, men_objs h !! a = Some m ∧
                                Man.is_free m = true
       | None => ∀ a m, a ∈ l → men_objs h !! a = Some m →
                        Man.is_free m = false
       end.
Proof.
  induction l as [|a l IH]; intros Hl.
  - exists None. split; [done|]. intros a m Ha. by apply elem_of_nil in Ha.
  - destruct (Hl a) as [m Hm]; [left|].
    simpl. run_store. destruct (Man.is_free m) eqn:Hfree.
    + exists (Some a). split; [done|]. split; [left|]. eauto.
    + destruct IH as (r & Hr & Hspec).
      { intros a' Ha'. apply Hl. by right. }
      exists r. split; [done|]. destruct r as [a'|].
      * destruct Hspec as [Hin Hm']. split; [by right|done].
      * intros a' m' [->|Hin]%elem_of_cons Hm'; [congruence|eauto].
Qed.

(** ** One iteration of the loop of [match] *)

Section round.
Context (g : globals) (self : Stable_Marriages.t) (h : heap).
Context (a : nat) (m : Man.t) (x : Z) (rest : list Z).
Context (b : nat) (w : Woman.t) (r rm : nat).
Hypothesis Hfind : find_free_man (men g) h = Ok (Some a) h.
Hypothesis Hm : men_objs h !! a = Some m.
Hypothesis Hlt :
  (Man.proposals_made m < Stable_Marriages.applicants self)%nat.
Hypothesis Hrem : Man.remaining_list m = x :: rest.
Hypothesis Hsuitress : ∀ h', women_objs h' = women_objs h →
  getSuitress_loop (Stable_Marriages.women self) (women g) x
    (seq 0 (Stable_Marriages.applicants self)) h' = Ok (Some b) h'.
Hypothesis Hw : women_objs h !! b = Some w.
Hypothesis Hr : index (Woman.pref_list w) (Man.mid m) = Some r.
Hypothesis Hrm : index (Man.pref_list m) (Woman.wid w) = Some rm.

Local Ltac start :=
  unfold match_body, Stable_Marriages_getSuitress;
  rewrite (bind_Ok _ _ (self, h) (Some a) (self, h))
    by (unfold lift; simpl; by rewrite Hfind);
  run_store;
  destruct (Nat.ltb_spec (Man.proposals_made m)
              (Stable_Marriages.applicants self)); [|lia];
  erewrite getSuitressId_Ok by eauto; simpl;
  rewrite Hsuitress by done; simpl.

Lemma match_body_first :
  Woman.is_free w = true →
  match_body g (self, h)
  = Ok Continue
      (Stable_Marriages.mk (Stable_Marriages.men self)
         (Stable_Marriages.women self) (Stable_Marriages.applicants self)
         (Stable_Marriages.freeMen self - 1)
         (<[Man.mid m := Stable_Marriages.mk_status (Some (Woman.wid w))
                           false (S (Man.proposals_made m))]>
            (Stable_Marriages.matching_status self)),
       mk_heap (<[a := engaged_man m rest b rm]> (men_objs h))
         (<[b := engaged_woman w a r]> (women_objs h))).
Proof.
  intros Hfree. start. run_store.
  erewrite decide_first; [|by run_store..]. run_store.
  erewrite updatePartner_Ok; [|by run_store..]. by run_store.
Qed.

Lemma match_body_reject pr :
  Woman.is_free w = false →
  Woman.partner_rank w = Some pr →
  (pr ≤ r)%nat →
  Man.partner m = None →
  match_body g (self, h)
  = Ok Continue
      (Stable_Marriages.mk (Stable_Marriages.men self)
         (Stable_Marriages.women self) (Stable_Marriages.applicants self)
         (Stable_Marriages.freeMen self)
         (<[Man.mid m := Stable_Marriages.mk_status None (Man.is_free m)
                           (S (Man.proposals_made m))]>
            (Stable_Marriages.matching_status self)),
       mk_heap (<[a := rejected_man m rest]> (men_objs h))
         (<[b := Woman.set_proposals_received
                   (S (Woman.proposals_received w)) w]> (women_objs h))).
Proof.
  intros Hfree Hpr Hle Hpartner. start. run_store.
  erewrite decide_reject; [|by run_store..]. run_store.
  rewrite Hpartner. by run_store.
Qed.

Lemma match_body_break_up pr old mo :
  Woman.is_free w = false →
  Woman.partner_rank w = Some pr →
  (r < pr)%nat →
  Woman.partner w = Some old →
  men_objs h !! old = Some mo →
  old ≠ a →
  match_body g (self, h)
  = Ok Continue
      (Stable_Marriages.mk (Stable_Marriages.men self)
         (Stable_Marriages.women self) (Stable_Marriages.applicants self)
         (Stable_Marriages.freeMen self - 1 + 1)
         (<[Man.mid m := Stable_Marriages.mk_status (Some (Woman.wid w))
                           false (S (Man.proposals_made m))]>
            (Stable_Marriages.matching_status self)),
       mk_heap
         (<[a := engaged_man m rest b rm]>
            (<[old := freed_man mo]> (men_objs h)))
         (<[b := engaged_woman w a r]> (women_objs h))).
Proof.
  intros Hfree Hpr Hlt' Hold Hmo Hne. start. run_store.
  erewrite decide_break_up; [|by run_store..]. run_store.
  erewrite updatePartner_Ok; [|by run_store..]. run_store.
  rewrite (list_insert_insert_ne _ old a) by done. by run_store.
Qed.
End round.

(** * The run on valid input *)

Lemma lookup_fst_unique (l : list (Z * list Z)) i j x p q :
  NoDup l.*1 → l !! i = Some (x, p) → l !! j = Some (x, q) → i = j.
Proof.
  intros Hnd Hi Hj. eapply NoDup_lookup; [done|..].
  - by rewrite list_lookup_fmap, Hi.
  - by rewrite list_lookup_fmap, Hj.
Qed.

Lemma elem_of_fst_lookup (l : list (Z * list Z)) x :
  x ∈ l.*1 → ∃ i p, l !! i = Some (x, p).
Proof.
  intros ([y p] & -> & Hin)%list_elem_of_fmap.
  apply list_elem_of_lookup in Hin as [i Hi]. eauto.
Qed.

Lemma lookup_elem_of_fst (l : list (Z * list Z)) i x p :
  l !! i = Some (x, p) → x ∈ l.*1.
Proof.
  intros Hi. apply list_elem_of_fmap. exists (x, p). split; [done|].
  apply list_elem_of_lookup. eauto.
Qed.

(** [getSuitress] finds the woman with the id it is given. *)
Lemma getSuitress_loop_found ws h x b w k :
  NoDup ws.*1 →
  length (women_objs h) = length ws →
  (∀ b w, women_objs h !! b = Some w →
          ws !! b = Some (Woman.wid w, Woman.pref_list w)) →
  women_objs h !! b = Some w → Woman.wid w = x →
  (k ≤ b)%nat →
  getSuitress_loop (seq 0 (length ws)) (seq 0 (length ws)) x
    (seq k (length ws - k)) h = Ok (Some b) h.
Proof.
  intros Hnd Hlen Hws Hb Hx.
  remember (b - k)%nat as d eqn:Hd. revert k Hd.
  induction d as [|d IH]; intros k Hd Hk.
  - assert (k = b) as -> by lia.
    pose proof (lookup_lt_Some _ _ _ Hb) as Hlt. rewrite Hlen in Hlt.
    replace (length ws - b)%nat with (S (length ws - S b)) by lia.
    simpl. rewrite lookup_seq_lt by done. run_store.
    by rewrite Hx, Z.eqb_refl.
  - pose proof (lookup_lt_Some _ _ _ Hb) as Hlt. rewrite Hlen in Hlt.
    replace (length ws - k)%nat with (S (length ws - S k)) by lia.
    simpl. rewrite lookup_seq_lt by lia. simpl.
    destruct (lookup_lt_is_Some_2 (women_objs h) k) as [wk Hwk]; [lia|].
    run_store. destruct (Z.eqb_spec (Woman.wid wk) x) as [Heq|Hne].
    + assert (k = b); [|lia].
      apply Hws in Hwk, Hb. rewrite Heq in Hwk. rewrite Hx in Hb.
      eauto using lookup_fst_unique.
    + apply IH; lia.
Qed.

Section valid.
Context (ms ws : list (Z * list Z)).
Hypothesis Hvalid : valid_input ms ws.

Lemma man_prefs_perm s a m :
  Inv ms ws s → men_objs s.2 !! a = Some m → Man.pref_list m ≡ₚ ws.*1.
Proof.
  intros HI Hm. destruct (inv_man _ _ _ HI _ _ Hm) as (Hms & _).
  eapply valid_men_prefs; [done|]. apply list_elem_of_lookup. eauto.
Qed.

Lemma woman_prefs_perm s b w :
  Inv ms ws s → women_objs s.2 !! b = Some w →
  Woman.pref_list w ≡ₚ ms.*1.
Proof.
  intros HI Hw. pose proof (inv_woman _ _ _ HI _ _ Hw) as Hws.
  eapply valid_women_prefs; [done|]. apply list_elem_of_lookup. eauto.
Qed.

Lemma woman_by_id s x :
  Inv ms ws s → x ∈ ws.*1 →
  ∃ b w, women_objs s.2 !! b = Some w ∧ Woman.wid w = x.
Proof.
  intros HI (b & p & Hb)%elem_of_fst_lookup.
  destruct (lookup_lt_is_Some_2 (women_objs s.2) b) as [w Hw].
  { rewrite (inv_women_len _ _ _ HI). by eapply lookup_lt_Some. }
  exists b, w. split; [done|].
  pose proof (inv_woman _ _ _ HI _ _ Hw). congruence.
Qed.

Lemma woman_id_unique s b b' w w' :
  Inv ms ws s → women_objs s.2 !! b = Some w →
  women_objs s.2 !! b' = Some w' → Woman.wid w = Woman.wid w' → b = b'.
Proof.
  intros HI Hw%(inv_woman _ _ _ HI) Hw'%(inv_woman _ _ _ HI) Heq.
  rewrite Heq in Hw. eapply lookup_fst_unique; eauto using valid_wids.
Qed.

Lemma man_id_unique s a a' m m' :
  Inv ms ws s → men_objs s.2 !! a = Some m →
  men_objs s.2 !! a' = Some m' → Man.mid m = Man.mid m' → a = a'.
Proof.
  intros HI (Hm & _)%(inv_man _ _ _ HI) (Hm' & _)%(inv_man _ _ _ HI) Heq.
  rewrite Heq in Hm. eapply lookup_fst_unique; eauto using valid_mids.
Qed.

(** While [freeMen] is positive the scan finds a free man. *)
Lemma Inv_find_free s :
  Inv ms ws s → 0 < Stable_Marriages.freeMen s.1 →
  ∃ a m, find_free_man (seq 0 (length ms)) s.2 = Ok (Some a) s.2 ∧
         men_objs s.2 !! a = Some m ∧ Man.is_free m = true.
Proof.
  intros HI Hpos.
  destruct (find_free_man_spec (seq 0 (length ms)) s.2) as (r & Hr & Hspec).
  { intros a Ha%elem_of_seq. apply lookup_lt_is_Some_2.
    rewrite (inv_men_len _ _ _ HI). lia. }
  destruct r as [a|].
  - destruct Hspec as (_ & m & Hm & Hfree). eauto.
  - rewrite (inv_free_men _ _ _ HI) in Hpos. unfold free_man_count in Hpos.
    rewrite sum_list_all_zero in Hpos; [lia|].
    intros a m Hm. rewrite (Hspec a m); [done| |done].
    apply elem_of_seq. apply lookup_lt_Some in Hm.
    rewrite (inv_men_len _ _ _ HI) in Hm. lia.
Qed.

(** A free man has not yet proposed to every woman: otherwise every
    woman would be engaged, and so would every man. *)
Lemma Inv_not_exhausted s a m :
  Inv ms ws s → men_objs s.2 !! a = Some m → Man.is_free m = true →
  (Man.proposals_made m < length ms)%nat.
Proof.
  intros HI Hm Hfree.
  destruct (inv_man _ _ _ HI _ _ Hm) as (Hms & _ & Hle).
  destruct (decide (Man.proposals_made m = length ms)) as [Heq|]; [|lia].
  exfalso.
  assert (free_woman_count s.2 = 0%nat) as Hzero.
  { apply sum_list_all_zero. intros b w Hw.
    assert (Woman.wid w ∈ Man.pref_list m) as Hin.
    { rewrite (man_prefs_perm s a m) by done.
      eapply lookup_elem_of_fst, (inv_woman _ _ _ HI _ _ Hw). }
    apply list_elem_of_lookup in Hin as [k Hk].
    destruct (inv_proposed _ _ _ HI a m k (Woman.wid w) Hm) as
      (b' & w' & pr & r & Hw' & Hid & Hnf & _); [|done|].
    { apply lookup_lt_Some in Hk.
      rewrite (man_prefs_perm s a m), length_fmap in Hk by done.
      rewrite <-(valid_length _ _ Hvalid) in Hk. lia. }
    assert (b' = b) as -> by eauto using woman_id_unique.
    assert (w' = w) as -> by congruence. by rewrite Hnf. }
  rewrite (inv_free_women _ _ _ HI) in Hzero.
  pose proof (sum_list_zero _ _ Hzero a m Hm) as H0. simpl in H0.
  by rewrite Hfree in H0.
Qed.
End valid.

(** ** The invariant is kept by a rejected proposal *)

Lemma counted_women_lookup (women : list Woman.t) b w n b0 w0 :
  women !! b = Some w → women !! b0 = Some w0 →
  ∃ w0', <[b := Woman.set_proposals_received n w]> women !! b0 = Some w0' ∧
         Woman.wid w0' = Woman.wid w0 ∧
         Woman.pref_list w0' = Woman.pref_list w0 ∧
         Woman.partner w0' = Woman.partner w0 ∧
         Woman.partner_rank w0' = Woman.partner_rank w0 ∧
         Woman.is_free w0' = Woman.is_free w0.
Proof.
  intros Hw Hw0. destruct (decide (b = b0)) as [<-|Hne].
  - rewrite (lookup_insert_same _ _ _ _ Hw). simplify_eq. eauto 10.
  - rewrite list_lookup_insert_ne by done. eauto 10.
Qed.

Section preserved.
Context (ms ws : list (Z * list Z)).
Hypothesis Hvalid : valid_input ms ws.
Context (self : Stable_Marriages.t) (h : heap).
Hypothesis HI : Inv ms ws (self, h).
Context (a : nat) (m : Man.t) (b : nat) (w : Woman.t) (r : nat).
Hypothesis Hm : men_objs h !! a = Some m.
Hypothesis Hfree : Man.is_free m = true.
Hypothesis Hnext :
  Man.pref_list m !! Man.proposals_made m = Some (Woman.wid w).
Hypothesis Hw : women_objs h !! b = Some w.
Hypothesis Hr : index (Woman.pref_list w) (Man.mid m) = Some r.

Lemma other_man_id a' m' :
  men_objs h !! a' = Some m' → a ≠ a' → Man.mid m ≠ Man.mid m'.
Proof. intros Hm' Hne Heq. by eapply Hne, (man_id_unique ms ws). Qed.

Lemma Inv_reject pr :
  Woman.is_free w = false →
  Woman.partner_rank w = Some pr →
  (pr ≤ r)%nat →
  Inv ms ws
    (Stable_Marriages.mk (Stable_Marriages.men self)
       (Stable_Marriages.women self) (Stable_Marriages.applicants self)
       (Stable_Marriages.freeMen self)
       (<[Man.mid m := Stable_Marriages.mk_status None (Man.is_free m)
                         (S (Man.proposals_made m))]>
          (Stable_Marriages.matching_status self)),
     mk_heap (<[a := rejected_man m (drop (S (Man.proposals_made m)) (Man.pref_list m))]> (men_objs h))
       (<[b := Woman.set_proposals_received
                 (S (Woman.proposals_received w)) w]> (women_objs h))).
Proof.
  intros Hwnf Hpr Hle.
  pose proof (Inv_not_exhausted ms ws Hvalid _ _ _ HI Hm Hfree) as Hlt.
  pose proof other_man_id as Hother.
  destruct HI as [Hwf Happ Hml Hwl Hman Hwoman Hmf Hme Hwe Hprop Hfm Hfw
                    Hdom]; simpl in *.
  assert (∀ a0 m0, men_objs h !! a0 = Some m0 → Man.is_free m0 = false →
            <[a := rejected_man m (drop (S (Man.proposals_made m)) (Man.pref_list m))]> (men_objs h) !! a0 = Some m0)
    as Hkeep.
  { intros a0 m0 Hm0 Hnf. rewrite list_lookup_insert_ne; [done|].
    intros <-. congruence. }
  split; simpl.
  - done.
  - done.
  - by rewrite length_insert.
  - by rewrite length_insert.
  - intros a' m' [(<- & <- & _)|(Hne & Hm')]%list_lookup_insert_Some;
      [|by eauto].
    destruct (Hman _ _ Hm) as (Hms & Hrem & _).
    simpl. split_and!; [done|done|lia].
  - intros b' w' [(<- & <- & _)|(Hne & Hw')]%list_lookup_insert_Some;
      [|by eauto].
    simpl. eauto.
  - intros a' m' [(<- & <- & _)|(Hne & Hm')]%list_lookup_insert_Some;
      [|by eauto].
    simpl. eauto.
  - intros a' m' [(<- & <- & _)|(Hne & Hm')]%list_lookup_insert_Some Hnf.
    { simpl in Hnf. congruence. }
    destruct (Hme _ _ Hm' Hnf) as (b0 & w0 & k & Hp & Hw0 & Hwp & Hwf0 &
                                   Hk & Hlk & Hst).
    destruct (counted_women_lookup _ _ _
                (S (Woman.proposals_received w)) _ _ Hw Hw0)
      as (w0' & Hw0' & Hid & Hpl & Hpa & Hrk & Hfr).
    exists b0, w0', k. rewrite Hid, Hpa, Hfr.
    split_and!; try done.
    rewrite lookup_insert_ne; [done|]. by eapply Hother.
  - intros b' w' Hw' Hnf.
    assert (∃ w0, women_objs h !! b' = Some w0 ∧
              Woman.partner w' = Woman.partner w0 ∧
              Woman.partner_rank w' = Woman.partner_rank w0 ∧
              Woman.pref_list w' = Woman.pref_list w0 ∧
              Woman.is_free w' = Woman.is_free w0)
      as (w0 & Hw0 & -> & -> & -> & Hfr).
    { apply list_lookup_insert_Some in Hw'
        as [(<- & <- & _)|(Hne & Hw')]; eauto 10. }
    rewrite Hfr in Hnf.
    destruct (Hwe _ _ Hw0 Hnf) as (a0 & m0 & r0 & ? & ? & ? & ? & ? & ?).
    exists a0, m0, r0. split_and!; eauto.
  - assert (∀ a' m' k x, men_objs h !! a' = Some m' →
              (k < Man.proposals_made m')%nat →
              Man.pref_list m' !! k = Some x →
              ∃ b0 w0 pr0 r0,
                <[b := Woman.set_proposals_received
                         (S (Woman.proposals_received w)) w]>
                  (women_objs h) !! b0 = Some w0 ∧
                Woman.wid w0 = x ∧ Woman.is_free w0 = false ∧
                Woman.partner_rank w0 = Some pr0 ∧
                index (Woman.pref_list w0) (Man.mid m') = Some r0 ∧
                (pr0 ≤ r0)%nat) as Hold.
    { intros a' m' k x Hm' Hk Hx.
      destruct (Hprop _ _ _ _ Hm' Hk Hx)
        as (b0 & w0 & pr0 & r0 & Hw0 & ? & ? & ? & ? & ?).
      destruct (counted_women_lookup _ _ _
                  (S (Woman.proposals_received w)) _ _ Hw Hw0)
        as (w0' & Hw0' & Hid & Hpl & Hpa & Hrk & Hfr).
      exists b0, w0', pr0, r0. rewrite Hid, Hpl, Hrk, Hfr. done. }
    intros a' m' k x
      [(<- & <- & _)|(Hne & Hm')]%list_lookup_insert_Some; [|by eauto].
    simpl. intros Hk Hx.
    destruct (decide (k = Man.proposals_made m)) as [->|]; [|eapply Hold; eauto; lia].
    exists b, (Woman.set_proposals_received
                 (S (Woman.proposals_received w)) w), pr, r.
    rewrite (lookup_insert_same _ _ _ _ Hw). simpl.
    split_and!; try done. congruence.
  - rewrite Hfm. f_equal. unfold free_man_count. simpl.
    pose proof (sum_list_insert
                  (λ m, if Man.is_free m then 1 else 0)%nat
                  _ _ _ (rejected_man m (drop (S (Man.proposals_made m)) (Man.pref_list m))) Hm) as Hs.
    simpl in Hs. lia.
  - unfold free_woman_count, free_man_count in *. simpl.
    pose proof (sum_list_insert
                  (λ m, if Man.is_free m then 1 else 0)%nat
                  _ _ _ (rejected_man m (drop (S (Man.proposals_made m)) (Man.pref_list m))) Hm) as Hs.
    pose proof (sum_list_insert
                  (λ w, if Woman.is_free w then 1 else 0)%nat
                  _ _ _ (Woman.set_proposals_received
                           (S (Woman.proposals_received w)) w) Hw) as Hs'.
    simpl in Hs, Hs'. lia.
  - intros i. rewrite lookup_insert_is_Some, Hdom.
    destruct (Hman _ _ Hm) as (Hms & _).
    apply lookup_elem_of_fst in Hms.
    split; [by intros [<-|[_ ?]]|].
    intros Hi. destruct (decide (Man.mid m = i)); eauto.
Qed.

(** ** ... by a first proposal to a free woman *)

Lemma Inv_first :
  Woman.is_free w = true →
  Inv ms ws
    (Stable_Marriages.mk (Stable_Marriages.men self)
       (Stable_Marriages.women self) (Stable_Marriages.applicants self)
       (Stable_Marriages.freeMen self - 1)
       (<[Man.mid m := Stable_Marriages.mk_status (Some (Woman.wid w))
                         false (S (Man.proposals_made m))]>
          (Stable_Marriages.matching_status self)),
     mk_heap
       (<[a := engaged_man m (drop (S (Man.proposals_made m)) (Man.pref_list m)) b (Man.proposals_made m)]> (men_objs h))
       (<[b := engaged_woman w a r]> (women_objs h))).
Proof.
  intros Hwfree.
  pose proof (Inv_not_exhausted ms ws Hvalid _ _ _ HI Hm Hfree) as Hlt.
  pose proof other_man_id as Hother.
  destruct HI as [Hwf Happ Hml Hwl Hman Hwoman Hmf Hme Hwe Hprop Hfm Hfw
                    Hdom]; simpl in *.
  assert (∀ a0 m0, men_objs h !! a0 = Some m0 → Man.is_free m0 = false →
            <[a := engaged_man m (drop (S (Man.proposals_made m)) (Man.pref_list m)) b (Man.proposals_made m)]>
              (men_objs h) !! a0 = Some m0) as Hkeep.
  { intros a0 m0 Hm0 Hnf. rewrite list_lookup_insert_ne; [done|].
    intros <-. congruence. }
  assert (∀ b0 w0, women_objs h !! b0 = Some w0 →
            Woman.is_free w0 = false →
            <[b := engaged_woman w a r]> (women_objs h) !! b0 = Some w0)
    as Hkeepw.
  { intros b0 w0 Hw0 Hnf. rewrite list_lookup_insert_ne; [done|].
    intros <-. congruence. }
  split; simpl.
  - done.
  - done.
  - by rewrite length_insert.
  - by rewrite length_insert.
  - intros a' m' [(<- & <- & _)|(Hne & Hm')]%list_lookup_insert_Some;
      [|by eauto].
    destruct (Hman _ _ Hm) as (Hms & Hrem & _).
    simpl. split_and!; [done|done|lia].
  - intros b' w' [(<- & <- & _)|(Hne & Hw')]%list_lookup_insert_Some;
      [|by eauto].
    simpl. eauto.
  - intros a' m' [(<- & <- & _)|(Hne & Hm')]%list_lookup_insert_Some;
      [done|by eauto].
  - intros a' m' [(<- & <- & _)|(Hne & Hm')]%list_lookup_insert_Some Hnf.
    { exists b, (engaged_woman w a r), (Man.proposals_made m). simpl.
      rewrite (lookup_insert_same _ _ _ _ Hw), lookup_insert_eq.
      by split_and!. }
    destruct (Hme _ _ Hm' Hnf) as (b0 & w0 & k & Hp & Hw0 & Hwp & Hwf0 &
                                   Hk & Hlk & Hst).
    exists b0, w0, k. split_and!; try done; [by eauto|].
    rewrite lookup_insert_ne; [done|]. by eapply Hother.
  - intros b' w' [(<- & <- & _)|(Hne & Hw')]%list_lookup_insert_Some Hnf.
    { exists a, (engaged_man m (drop (S (Man.proposals_made m)) (Man.pref_list m)) b (Man.proposals_made m)), r. simpl.
      rewrite (lookup_insert_same _ _ _ _ Hm). by split_and!. }
    destruct (Hwe _ _ Hw' Hnf) as (a0 & m0 & r0 & ? & ? & ? & ? & ? & ?).
    exists a0, m0, r0. split_and!; eauto.
  - assert (∀ a' m' k x, men_objs h !! a' = Some m' →
              (k < Man.proposals_made m')%nat →
              Man.pref_list m' !! k = Some x →
              ∃ b0 w0 pr0 r0,
                <[b := engaged_woman w a r]> (women_objs h) !! b0
                = Some w0 ∧
                Woman.wid w0 = x ∧ Woman.is_free w0 = false ∧
                Woman.partner_rank w0 = Some pr0 ∧
                index (Woman.pref_list w0) (Man.mid m') = Some r0 ∧
                (pr0 ≤ r0)%nat) as Hold.
    { intros a' m' k x Hm' Hk Hx.
      destruct (Hprop _ _ _ _ Hm' Hk Hx)
        as (b0 & w0 & pr0 & r0 & Hw0 & ? & ? & ? & ? & ?).
      exists b0, w0, pr0, r0. split_and!; eauto. }
    intros a' m' k x
      [(<- & <- & _)|(Hne & Hm')]%list_lookup_insert_Some; [|by eauto].
    simpl. intros Hk Hx.
    destruct (decide (k = Man.proposals_made m)) as [->|];
      [|eapply Hold; eauto; lia].
    exists b, (engaged_woman w a r), r, r.
    rewrite (lookup_insert_same _ _ _ _ Hw). simpl.
    split_and!; try done. congruence.
  - unfold free_man_count in *. simpl.
    pose proof (sum_list_insert
                  (λ m, if Man.is_free m then 1 else 0)%nat _ _ _
                  (engaged_man m (drop (S (Man.proposals_made m)) (Man.pref_list m)) b (Man.proposals_made m)) Hm) as Hs.
    simpl in Hs. rewrite Hfree in Hs. lia.
  - unfold free_woman_count, free_man_count in *. simpl.
    pose proof (sum_list_insert
                  (λ m, if Man.is_free m then 1 else 0)%nat _ _ _
                  (engaged_man m (drop (S (Man.proposals_made m)) (Man.pref_list m)) b (Man.proposals_made m)) Hm) as Hs.
    pose proof (sum_list_insert
                  (λ w, if Woman.is_free w then 1 else 0)%nat
                  _ _ _ (engaged_woman w a r) Hw) as Hs'.
    simpl in Hs, Hs'. rewrite Hfree in Hs. rewrite Hwfree in Hs'. lia.
  - intros i. rewrite lookup_insert_is_Some, Hdom.
    destruct (Hman _ _ Hm) as (Hms & _).
    apply lookup_elem_of_fst in Hms.
    split; [by intros [<-|[_ ?]]|].
    intros Hi. destruct (decide (Man.mid m = i)); eauto.
Qed.

(** ** ... and by a proposal that displaces the current partner *)

Lemma Inv_break_up pr old mo :
  Woman.is_free w = false →
  Woman.partner_rank w = Some pr →
  (r < pr)%nat →
  Woman.partner w = Some old →
  men_objs h !! old = Some mo →
  Inv ms ws
    (Stable_Marriages.mk (Stable_Marriages.men self)
       (Stable_Marriages.women self) (Stable_Marriages.applicants self)
       (Stable_Marriages.freeMen self - 1 + 1)
       (<[Man.mid m := Stable_Marriages.mk_status (Some (Woman.wid w))
                         false (S (Man.proposals_made m))]>
          (Stable_Marriages.matching_status self)),
     mk_heap
       (<[a := engaged_man m (drop (S (Man.proposals_made m)) (Man.pref_list m)) b (Man.proposals_made m)]>
          (<[old := freed_man mo]> (men_objs h)))
       (<[b := engaged_woman w a r]> (women_objs h))).
Proof.
  intros Hwnf Hpr Hrlt Hold Hmo.
  pose proof (Inv_not_exhausted ms ws Hvalid _ _ _ HI Hm Hfree) as Hlt.
  pose proof other_man_id as Hother.
  destruct HI as [Hwf Happ Hml Hwl Hman Hwoman Hmf Hme Hwe Hprop Hfm Hfw
                    Hdom]; simpl in *.
  destruct (Hwe _ _ Hw Hwnf) as (old' & mo' & pr' & Hold' & Hmo' & Hmob &
                                 Hmonf & Hpr' & Hprmo).
  assert (old' = old) as -> by congruence.
  assert (mo' = mo) as -> by congruence.
  assert (pr' = pr) as -> by congruence.
  assert (old ≠ a) as Hne by (intros ->; congruence).
  assert (∀ a0 m0, men_objs h !! a0 = Some m0 → Man.is_free m0 = false →
            a0 ≠ old →
            <[a := engaged_man m (drop (S (Man.proposals_made m)) (Man.pref_list m)) b (Man.proposals_made m)]>
              (<[old := freed_man mo]> (men_objs h)) !! a0 = Some m0)
    as Hkeep.
  { intros a0 m0 Hm0 Hnf Hne0.
    rewrite !list_lookup_insert_ne; [done|done|]. intros <-. congruence. }
  assert (∀ b0 w0, women_objs h !! b0 = Some w0 → b0 ≠ b →
            <[b := engaged_woman w a r]> (women_objs h) !! b0 = Some w0)
    as Hkeepw.
  { intros b0 w0 Hw0 Hne0. by rewrite list_lookup_insert_ne. }
  assert (∀ a' m',
            <[a := engaged_man m (drop (S (Man.proposals_made m)) (Man.pref_list m)) b (Man.proposals_made m)]>
              (<[old := freed_man mo]> (men_objs h)) !! a' = Some m' →
            (a' = a ∧ m' = engaged_man m (drop (S (Man.proposals_made m)) (Man.pref_list m)) b (Man.proposals_made m)) ∨
            (a' = old ∧ m' = freed_man mo) ∨
            (a' ≠ a ∧ a' ≠ old ∧ men_objs h !! a' = Some m')) as Hcases.
  { intros a' m' [(<- & <- & _)|(Hne1 & Hm')]%list_lookup_insert_Some;
      [by left|].
    apply list_lookup_insert_Some in Hm' as [(<- & <- & _)|(Hne2 & Hm')];
      [by right; left|]. right; right. by split_and!. }
  assert (<[a := engaged_man m (drop (S (Man.proposals_made m)) (Man.pref_list m)) b (Man.proposals_made m)]>
            (<[old := freed_man mo]> (men_objs h)) !! a
          = Some (engaged_man m (drop (S (Man.proposals_made m)) (Man.pref_list m)) b (Man.proposals_made m))) as Hnew.
  { apply list_lookup_insert_eq. rewrite length_insert.
    by eapply lookup_lt_Some. }
  split; simpl.
  - done.
  - done.
  - by rewrite !length_insert.
  - by rewrite length_insert.
  - intros a' m' [(-> & ->)|[(-> & ->)|(_ & _ & Hm')]]%Hcases;
      [| |by eauto].
    + destruct (Hman _ _ Hm) as (Hms & Hrem & _).
      simpl. split_and!; [done|done|lia].
    + by destruct (Hman _ _ Hmo) as (Hms & Hrem & ?).
  - intros b' w' [(<- & <- & _)|(Hne' & Hw')]%list_lookup_insert_Some;
      [|by eauto].
    simpl. eauto.
  - intros a' m' [(-> & ->)|[(-> & ->)|(_ & _ & Hm')]]%Hcases;
      [done|done|by eauto].
  - intros a' m' [(-> & ->)|[(-> & ->)|(Hne1 & Hne2 & Hm')]]%Hcases Hnf;
      [|done|].
    { exists b, (engaged_woman w a r), (Man.proposals_made m). simpl.
      rewrite (lookup_insert_same _ _ _ _ Hw), lookup_insert_eq.
      by split_and!. }
    destruct (Hme _ _ Hm' Hnf) as (b0 & w0 & k & Hp & Hw0 & Hwp & Hwf0 &
                                   Hk & Hlk & Hst).
    exists b0, w0, k. split_and!; try done.
    + apply Hkeepw; [done|]. intros ->. congruence.
    + rewrite lookup_insert_ne; [done|]. eapply Hother; eauto.
  - intros b' w' [(<- & <- & _)|(Hne' & Hw')]%list_lookup_insert_Some Hnf.
    { exists a, (engaged_man m (drop (S (Man.proposals_made m)) (Man.pref_list m)) b (Man.proposals_made m)), r. simpl.
      rewrite Hnew. by split_and!. }
    destruct (Hwe _ _ Hw' Hnf) as (a0 & m0 & r0 & ? & ? & ? & ? & ? & ?).
    exists a0, m0, r0. split_and!; try done.
    apply Hkeep; [done..|]. intros ->. congruence.
  - assert (∀ a' m' k x, men_objs h !! a' = Some m' →
              (k < Man.proposals_made m')%nat →
              Man.pref_list m' !! k = Some x →
              ∃ b0 w0 pr0 r0,
                <[b := engaged_woman w a r]> (women_objs h) !! b0
                = Some w0 ∧
                Woman.wid w0 = x ∧ Woman.is_free w0 = false ∧
                Woman.partner_rank w0 = Some pr0 ∧
                index (Woman.pref_list w0) (Man.mid m') = Some r0 ∧
                (pr0 ≤ r0)%nat) as Hprev.
    { intros a' m' k x Hm' Hk Hx.
      destruct (Hprop _ _ _ _ Hm' Hk Hx)
        as (b0 & w0 & pr0 & r0 & Hw0 & ? & ? & ? & ? & ?).
      destruct (decide (b0 = b)) as [->|Hneb].
      - assert (w0 = w) as -> by congruence.
        exists b, (engaged_woman w a r), r, r0.
        rewrite (lookup_insert_same _ _ _ _ Hw). simpl.
        split_and!; try done. assert (pr0 = pr) by congruence. lia.
      - exists b0, w0, pr0, r0. split_and!; eauto. }
    intros a' m' k x [(-> & ->)|[(-> & ->)|(_ & _ & Hm')]]%Hcases;
      [| |by eauto].
    + simpl. intros Hk Hx.
      destruct (decide (k = Man.proposals_made m)) as [->|];
        [|eapply Hprev; eauto; lia].
      exists b, (engaged_woman w a r), r, r.
      rewrite (lookup_insert_same _ _ _ _ Hw). simpl.
      split_and!; try done. congruence.
    + simpl. by apply (Hprev old mo).
  - unfold free_man_count in *. simpl.
    pose proof (sum_list_insert
                  (λ m, if Man.is_free m then 1 else 0)%nat _ _ _
                  (freed_man mo) Hmo) as Hs1.
    assert (<[old := freed_man mo]> (men_objs h) !! a = Some m) as Hm1
      by by rewrite list_lookup_insert_ne.
    pose proof (sum_list_insert
                  (λ m, if Man.is_free m then 1 else 0)%nat _ _ _
                  (engaged_man m (drop (S (Man.proposals_made m)) (Man.pref_list m)) b (Man.proposals_made m)) Hm1) as Hs.
    simpl in Hs, Hs1. rewrite Hfree in Hs. rewrite Hmonf in Hs1. lia.
  - unfold free_woman_count, free_man_count in *. simpl.
    pose proof (sum_list_insert
                  (λ m, if Man.is_free m then 1 else 0)%nat _ _ _
                  (freed_man mo) Hmo) as Hs1.
    assert (<[old := freed_man mo]> (men_objs h) !! a = Some m) as Hm1
      by by rewrite list_lookup_insert_ne.
    pose proof (sum_list_insert
                  (λ m, if Man.is_free m then 1 else 0)%nat _ _ _
                  (engaged_man m (drop (S (Man.proposals_made m)) (Man.pref_list m)) b (Man.proposals_made m)) Hm1) as Hs.
    pose proof (sum_list_insert
                  (λ w, if Woman.is_free w then 1 else 0)%nat
                  _ _ _ (engaged_woman w a r) Hw) as Hs'.
    simpl in Hs, Hs1, Hs'.
    rewrite Hfree in Hs. rewrite Hmonf in Hs1. rewrite Hwnf in Hs'. lia.
  - intros i. rewrite lookup_insert_is_Some, Hdom.
    destruct (Hman _ _ Hm) as (Hms & _).
    apply lookup_elem_of_fst in Hms.
    split; [by intros [<-|[_ ?]]|].
    intros Hi. destruct (decide (Man.mid m = i)); eauto.
Qed.
End preserved.

(** ** Every iteration on valid input dispatches one proposal *)

Section run.
Context (ms ws : list (Z * list Z)).
Hypothesis Hvalid : valid_input ms ws.

Lemma Inv_step s :
  Inv ms ws s → 0 < Stable_Marriages.freeMen s.1 →
  ∃ s', match_body (driver_globals ms ws) s = Ok Continue s' ∧
        Inv ms ws s' ∧
        total_proposals s'.2 = S (total_proposals s.2).
Proof.
  destruct s as [self h]. intros HI Hpos.
  destruct (Inv_find_free ms ws _ HI Hpos) as (a & m & Hfind & Hm & Hfree).
  pose proof (Inv_not_exhausted ms ws Hvalid _ _ _ HI Hm Hfree) as Hlt.
  simpl in *.
  destruct (inv_man _ _ _ HI _ _ Hm) as (Hms & Hrem & _). simpl in *.
  pose proof (man_prefs_perm ms ws Hvalid _ _ _ HI Hm) as Hperm.
  assert (length (Man.pref_list m) = length ms) as Hlen.
  { by rewrite Hperm, length_fmap, (valid_length _ _ Hvalid). }
  destruct (lookup_lt_is_Some_2 (Man.pref_list m) (Man.proposals_made m))
    as [x Hx]; [lia|].
  rewrite (drop_S _ _ _ Hx) in Hrem.
  destruct (woman_by_id ms ws (self, h) x HI) as (b & w & Hw & Hid).
  { rewrite <-Hperm. apply list_elem_of_lookup. eauto. }
  simpl in *. subst x.
  pose proof (woman_prefs_perm ms ws Hvalid _ _ _ HI Hw) as Hpermw.
  destruct (index_is_Some (Woman.pref_list w) (Man.mid m)) as [r Hr].
  { rewrite Hpermw. by eapply lookup_elem_of_fst. }
  assert (index (Man.pref_list m) (Woman.wid w)
          = Some (Man.proposals_made m)) as Hrm.
  { apply index_NoDup; [|done]. rewrite Hperm. apply Hvalid. }
  assert (∀ h', women_objs h' = women_objs h →
            getSuitress_loop (Stable_Marriages.women self)
              (women (driver_globals ms ws)) (Woman.wid w)
              (seq 0 (Stable_Marriages.applicants self)) h'
            = Ok (Some b) h') as Hsuitress.
  { intros h' Hh'.
    pose proof (inv_women_field _ _ _ HI) as Hwf.
    pose proof (inv_applicants _ _ _ HI) as Happ. simpl in Hwf, Happ.
    rewrite Hwf, Happ. simpl.
    rewrite (valid_length _ _ Hvalid).
    rewrite <-(Nat.sub_0_r (length ws)) at 3.
    eapply getSuitress_loop_found; rewrite ?Hh'; eauto using valid_wids.
    - apply (inv_women_len _ _ _ HI).
    - apply (inv_woman _ _ _ HI).
    - lia. }
  assert (Man.proposals_made m < Stable_Marriages.applicants self)%nat
    as Hlt'.
  { pose proof (inv_applicants _ _ _ HI) as Happ. simpl in Happ.
    by rewrite Happ. }
  assert (∀ m' : Man.t, Man.proposals_made m' = S (Man.proposals_made m) →
            ∀ men0 : list Man.t, men0 !! a = Some m →
            sum_list (Man.proposals_made <$> <[a := m']> men0)
            = S (sum_list (Man.proposals_made <$> men0))) as Hcount.
  { intros m' Hm' men0 Hm0.
    pose proof (sum_list_insert Man.proposals_made _ _ _ m' Hm0). lia. }
  destruct (Woman.is_free w) eqn:Hwfree.
  - eexists. split; [by eapply match_body_first|]. split.
    + by apply Inv_first.
    + unfold total_proposals. simpl. by apply Hcount.
  - destruct (inv_woman_engaged _ _ _ HI _ _ Hw Hwfree)
      as (old & mo & pr & Hold & Hmo & Hmob & Hmonf & Hpr & Hprmo).
    simpl in *.
    destruct (decide (r < pr)%nat) as [Hrlt|Hrge].
    + assert (old ≠ a) as Hne by (intros ->; congruence).
      eexists. split; [by eapply match_body_break_up|]. split.
      * by eapply Inv_break_up.
      * unfold total_proposals. simpl. rewrite Hcount; [|done|].
        -- f_equal.
           pose proof (sum_list_insert Man.proposals_made _ _ _
                         (freed_man mo) Hmo) as Hs.
           simpl in Hs. lia.
        -- by rewrite list_lookup_insert_ne.
    + eexists. split.
      { eapply match_body_reject; eauto; [lia|].
        eapply (inv_man_free _ _ _ HI); eauto. }
      split.
      * eapply Inv_reject; eauto. lia.
      * unfold total_proposals. simpl. by apply Hcount.
Qed.

Lemma Inv_total_bound s :
  Inv ms ws s → (total_proposals s.2 + budget s = length ms * length ms)%nat.
Proof.
  intros HI. unfold total_proposals, budget.
  rewrite (inv_applicants _ _ _ HI), sum_list_complement.
  - by rewrite (inv_men_len _ _ _ HI).
  - intros i m Hm. by destruct (inv_man _ _ _ HI _ _ Hm) as (_ & _ & ?).
Qed.

(** The loop on valid input: it leaves through its condition, after at
    most as many rounds as there are proposals left to make. *)
Lemma match_loop_Inv fuel s rounds :
  Inv ms ws s → (budget s < fuel)%nat →
  ∃ s' k, match_loop fuel (driver_globals ms ws) rounds s
          = Some ((rounds + k)%nat, Ok None s') ∧
          Inv ms ws s' ∧ Stable_Marriages.freeMen s'.1 ≤ 0 ∧
          total_proposals s'.2 = (total_proposals s.2 + k)%nat.
Proof.
  revert s rounds. induction fuel as [|fuel IH]; intros s rounds HI Hfuel;
    [lia|].
  simpl. destruct (Z.ltb_spec 0 (Stable_Marriages.freeMen s.1)) as [Hpos|].
  - destruct (Inv_step s HI Hpos) as (s1 & -> & HI1 & Htot).
    pose proof (Inv_total_bound s HI). pose proof (Inv_total_bound s1 HI1).
    destruct (IH s1 (S rounds) HI1) as (s' & k & Hloop & HI' & Hfm & Htot');
      [lia|].
    exists s', (S k). rewrite Hloop. split_and!; [|done|done|lia].
    do 2 f_equal. lia.
  - exists s, 0%nat. split_and!; [|done|done|lia].
    do 2 f_equal. lia.
Qed.
End run.

(** ** The driver's construction phase *)

Lemma make_men_spec ms h :
  make_men ms h
  = Ok (seq (length (men_objs h)) (length ms))
      (mk_heap (men_objs h ++ ((λ e, Man.__init__ e.1 e.2) <$> ms))
         (women_objs h)).
Proof.
  revert h. induction ms as [|[i p] ms IH]; intros h; simpl.
  - unfold mret, M_mret. rewrite app_nil_r. by destruct h.
  - unfold mbind, M_bind, new_man. rewrite IH. simpl.
    rewrite length_app, Nat.add_1_r, <-app_assoc. done.
Qed.

Lemma make_women_spec ws h :
  make_women ws h
  = Ok (seq (length (women_objs h)) (length ws))
      (mk_heap (men_objs h)
         (women_objs h ++ ((λ e, Woman.__init__ e.1 e.2) <$> ws))).
Proof.
  revert h. induction ws as [|[i p] ws IH]; intros h; simpl.
  - unfold mret, M_mret. rewrite app_nil_r. by destruct h.
  - unfold mbind, M_bind, new_woman. rewrite IH. simpl.
    rewrite length_app, Nat.add_1_r, <-app_assoc. done.
Qed.

Lemma init_matching_status_spec l acc h :
  (∀ a, a ∈ l → is_Some (men_objs h !! a)) →
  ∃ d, init_matching_status l acc h = Ok d h ∧
       (∀ i, is_Some (d !! i) ↔
             is_Some (acc !! i) ∨
             ∃ a m, a ∈ l ∧ men_objs h !! a = Some m ∧ Man.mid m = i).
Proof.
  revert acc. induction l as [|a l IH]; intros acc Hl; simpl.
  - exists acc. split; [done|]. intros i. split; [by left|].
    intros [?|(a & m & Ha & _)]; [done|]. by apply elem_of_nil in Ha.
  - destruct (Hl a) as [m Hm]; [left|].
    destruct (IH (<[Man.mid m := Stable_Marriages.mk_status None true 0]> acc))
      as (d & Hd & Hdom).
    { intros a' Ha'. apply Hl. by right. }
    exists d. split; [by run_store|].
    intros i. rewrite Hdom, lookup_insert_is_Some. split.
    + intros [[<-|[_ ?]]|(a' & m' & Ha' & Hm' & <-)].
      * right. exists a, m. split_and!; [left|done..].
      * by left.
      * right. exists a', m'. split_and!; [by right|done..].
    + intros [?|(a' & m' & [->|Ha']%elem_of_cons & Hm' & <-)].
      * destruct (decide (Man.mid m = i)); eauto.
      * left. left. congruence.
      * right. eauto.
Qed.

Lemma construct_unequal ms ws :
  length ms ≠ length ws →
  construct ms ws empty_heap
  = Raise (Exception "Not equal Number of men and women") (fresh_heap ms ws).
Proof.
  intros Hne. unfold construct, mbind, M_bind.
  rewrite make_men_spec, make_women_spec. simpl.
  unfold Stable_Marriages__init__. rewrite !length_seq.
  destruct (Nat.eqb_spec (length ms) (length ws)); [done|]. done.
Qed.

Lemma construct_equal ms ws :
  length ms = length ws →
  ∃ d, construct ms ws empty_heap
       = Ok (driver_globals ms ws,
             Stable_Marriages.mk (seq 0 (length ms)) (seq 0 (length ws))
               (length ms) (Z.of_nat (length ms)) d)
           (fresh_heap ms ws) ∧
       ∀ i, is_Some (d !! i) ↔ i ∈ ms.*1.
Proof.
  intros Heq.
  destruct (init_matching_status_spec (seq 0 (length ms)) ∅ (fresh_heap ms ws))
    as (d & Hd & Hdom).
  { intros a Ha%elem_of_seq. apply lookup_lt_is_Some_2. simpl.
    rewrite length_fmap. lia. }
  exists d. split.
  - unfold construct, mbind, M_bind.
    rewrite make_men_spec, make_women_spec. simpl.
    unfold Stable_Marriages__init__. rewrite !length_seq.
    destruct (Nat.eqb_spec (length ms) (length ws)); [|done]. simpl.
    unfold mbind, M_bind. fold (fresh_heap ms ws). by rewrite Hd.
  - intros i. rewrite Hdom. split.
    + intros [[? Hi]|(a & m & _ & Hm & <-)]; [by rewrite lookup_empty in Hi|].
      simpl in Hm. rewrite list_lookup_fmap in Hm.
      destruct (ms !! a) as [[j p]|] eqn:Ha; [|done].
      simpl in Hm. injection Hm as <-. simpl. by eapply lookup_elem_of_fst.
    + intros (a & p & Ha)%elem_of_fst_lookup. right.
      exists a, (Man.__init__ i p). split_and!; [|by simpl; rewrite list_lookup_fmap, Ha|done].
      apply elem_of_seq. apply lookup_lt_Some in Ha. lia.
Qed.

Lemma Inv_init ms ws d :
  length ms = length ws →
  (∀ i, is_Some (d !! i) ↔ i ∈ ms.*1) →
  Inv ms ws
    (Stable_Marriages.mk (seq 0 (length ms)) (seq 0 (length ws))
       (length ms) (Z.of_nat (length ms)) d,
     fresh_heap ms ws).
Proof.
  intros Heq Hdom.
  assert (∀ a m, men_objs (fresh_heap ms ws) !! a = Some m →
            ∃ i p, ms !! a = Some (i, p) ∧ m = Man.__init__ i p) as Hmen.
  { intros a m Hm. simpl in Hm. rewrite list_lookup_fmap in Hm.
    destruct (ms !! a) as [[i p]|]; [|done]. injection Hm as <-. eauto. }
  assert (∀ b w, women_objs (fresh_heap ms ws) !! b = Some w →
            ∃ i p, ws !! b = Some (i, p) ∧ w = Woman.__init__ i p) as Hwomen.
  { intros b w Hw. simpl in Hw. rewrite list_lookup_fmap in Hw.
    destruct (ws !! b) as [[i p]|]; [|done]. injection Hw as <-. eauto. }
  assert (∀ {A} (f : A → nat) (l : list A),
            (∀ i x, l !! i = Some x → f x = 1%nat) →
            sum_list (f <$> l) = length l) as Hones.
  { intros A f l. induction l as [|x l IH]; intros H; csimpl; [done|].
    rewrite (H 0%nat x eq_refl), IH; [done|]. intros i. apply (H (S i)). }
  assert (free_man_count (fresh_heap ms ws) = length ms) as Hfm.
  { unfold free_man_count. rewrite Hones; [simpl; by rewrite length_fmap|].
    by intros a m (i & p & _ & ->)%Hmen. }
  assert (free_woman_count (fresh_heap ms ws) = length ws) as Hfw.
  { unfold free_woman_count. rewrite Hones; [simpl; by rewrite length_fmap|].
    by intros b w (i & p & _ & ->)%Hwomen. }
  split; try done.
  - simpl. by rewrite length_fmap.
  - simpl. by rewrite length_fmap.
  - intros a m (i & p & Ha & ->)%Hmen. simpl. split_and!; [done|done|lia].
  - by intros b w (i & p & Hb & ->)%Hwomen.
  - by intros a m (i & p & Ha & ->)%Hmen.
  - by intros a m (i & p & Ha & ->)%Hmen.
  - by intros b w (i & p & Hb & ->)%Hwomen.
  - intros a m k x (i & p & Ha & ->)%Hmen. simpl. lia.
  - change (Z.of_nat (length ms)
            = Z.of_nat (free_man_count (fresh_heap ms ws))).
    by rewrite Hfm.
  - change (free_woman_count (fresh_heap ms ws)
            = free_man_count (fresh_heap ms ws)).
    by rewrite Hfm, Hfw.
Qed.

(** ** The mapping read when the loop has left *)

Section final.
Context (ms ws : list (Z * list Z)).
Hypothesis Hvalid : valid_input ms ws.
Context (s : sm_state).
Hypothesis HI : Inv ms ws s.
Hypothesis Hdone : Stable_Marriages.freeMen s.1 ≤ 0.

Lemma final_man_engaged a m :
  men_objs s.2 !! a = Some m → Man.is_free m = false.
Proof.
  intros Hm. pose proof (inv_free_men _ _ _ HI) as Hfm.
  assert (free_man_count s.2 = 0%nat) as Hzero by lia.
  pose proof (sum_list_zero _ _ Hzero a m Hm) as H0. simpl in H0.
  by destruct (Man.is_free m).
Qed.

Lemma final_woman_engaged b w :
  women_objs s.2 !! b = Some w → Woman.is_free w = false.
Proof.
  intros Hw. pose proof (inv_free_men _ _ _ HI) as Hfm.
  assert (free_woman_count s.2 = 0%nat) as Hzero.
  { rewrite (inv_free_women _ _ _ HI). lia. }
  pose proof (sum_list_zero _ _ Hzero b w Hw) as H0. simpl in H0.
  by destruct (Woman.is_free w).
Qed.

(** A man's entry in the mapping is his partner's id. *)
Lemma final_man_matched a m :
  men_objs s.2 !! a = Some m →
  ∃ b w k, women_objs s.2 !! b = Some w ∧ Woman.partner w = Some a ∧
           Man.partner m = Some b ∧
           Man.proposals_made m = S k ∧
           Man.pref_list m !! k = Some (Woman.wid w) ∧
           matched (Stable_Marriages_pairings s.1) (Man.mid m) (Woman.wid w).
Proof.
  intros Hm.
  destruct (inv_man_engaged _ _ _ HI _ _ Hm (final_man_engaged _ _ Hm))
    as (b & w & k & Hp & Hw & Hwp & _ & Hk & Hlk & Hst).
  exists b, w, k. split_and!; try done.
  unfold matched, Stable_Marriages_pairings.
  by rewrite lookup_fmap, Hst.
Qed.

Lemma man_by_id p :
  p ∈ ms.*1 → ∃ a m, men_objs s.2 !! a = Some m ∧ Man.mid m = p ∧
                     ms !! a = Some (p, Man.pref_list m).
Proof.
  intros (a & pp & Ha)%elem_of_fst_lookup.
  destruct (lookup_lt_is_Some_2 (men_objs s.2) a) as [m Hm].
  { rewrite (inv_men_len _ _ _ HI). by eapply lookup_lt_Some. }
  destruct (inv_man _ _ _ HI _ _ Hm) as (Hms & _).
  exists a, m. split_and!; [done|congruence|congruence].
Qed.

(** Every entry of the mapping comes from an engaged couple. *)
Lemma final_matched_inv p r :
  matched (Stable_Marriages_pairings s.1) p r →
  ∃ a m b w k, men_objs s.2 !! a = Some m ∧ Man.mid m = p ∧
               women_objs s.2 !! b = Some w ∧ Woman.wid w = r ∧
               Woman.partner w = Some a ∧
               Man.proposals_made m = S k ∧
               Man.pref_list m !! k = Some r.
Proof.
  intros Hpr.
  assert (p ∈ ms.*1) as Hp.
  { apply (inv_status_dom _ _ _ HI).
    unfold matched, Stable_Marriages_pairings in Hpr.
    rewrite lookup_fmap in Hpr.
    by destruct (Stable_Marriages.matching_status s.1 !! p). }
  destruct (man_by_id p Hp) as (a & m & Hm & Hid & _).
  destruct (final_man_matched a m Hm)
    as (b & w & k & Hw & Hwp & _ & Hk & Hlk & Hmatched).
  assert (Woman.wid w = r) as Hr.
  { unfold matched in *. rewrite Hid in Hmatched. congruence. }
  exists a, m, b, w, k. rewrite <-Hr. by split_and!.
Qed.

Lemma final_bijection : bijection ms ws (Stable_Marriages_pairings s.1).
Proof.
  split_and!.
  - intros p. unfold Stable_Marriages_pairings.
    rewrite lookup_fmap, fmap_is_Some. apply (inv_status_dom _ _ _ HI).
  - intros p (a & m & Hm & <- & _)%man_by_id.
    destruct (final_man_matched a m Hm) as (b & w & k & Hw & _ & _ & _ & _ & ?).
    exists (Woman.wid w). split; [|done].
    eapply lookup_elem_of_fst, (inv_woman _ _ _ HI _ _ Hw).
  - intros r Hr.
    destruct (woman_by_id ms ws s r HI Hr) as (b & w & Hw & <-).
    destruct (inv_woman_engaged _ _ _ HI _ _ Hw (final_woman_engaged _ _ Hw))
      as (a & m & rk & Hwp & Hm & Hmp & _).
    destruct (final_man_matched a m Hm)
      as (b' & w' & k & Hw' & _ & Hmp' & _ & _ & Hmatched).
    assert (b' = b) as -> by congruence.
    assert (w' = w) as -> by congruence.
    exists (Man.mid m). split_and!; [|done|].
    + destruct (inv_man _ _ _ HI _ _ Hm) as (Hms & _).
      by eapply lookup_elem_of_fst.
    + intros p' (a' & m' & b2 & w2 & k' & Hm' & <- & Hw2 & Hid & Hwp' & _)
                %final_matched_inv.
      assert (b2 = b) as -> by eauto using woman_id_unique.
      assert (w2 = w) as -> by congruence.
      assert (a' = a) as -> by congruence.
      congruence.
Qed.

Lemma final_stable : stable ms ws (Stable_Marriages_pairings s.1).
Proof.
  intros p pp r rp r' p' Hp Hr Hnot Hpr' Hp'r [Hman Hwoman].
  destruct (final_matched_inv _ _ Hpr')
    as (a & m & b1 & w1 & k & Hm & Hmid & Hw1 & Hw1id & _ & Hk & Hlk).
  destruct (final_matched_inv _ _ Hp'r)
    as (a' & m' & b & w & k' & Hm' & Hmid' & Hw & Hwid & Hwp & _).
  (* the two preference lists are the ones stored in the objects *)
  assert (pp = Man.pref_list m) as ->.
  { apply list_elem_of_lookup in Hp as [a0 Ha0].
    destruct (inv_man _ _ _ HI _ _ Hm) as (Hms & _). rewrite Hmid in Hms.
    assert (a0 = a) as -> by eauto using lookup_fst_unique, valid_mids.
    congruence. }
  assert (rp = Woman.pref_list w) as ->.
  { apply list_elem_of_lookup in Hr as [b0 Hb0].
    pose proof (inv_woman _ _ _ HI _ _ Hw) as Hws. rewrite Hwid in Hws.
    assert (b0 = b) as -> by eauto using lookup_fst_unique, valid_wids.
    congruence. }
  (* [p] has proposed to [r] before proposing to his partner *)
  destruct Hman as (i & j & Hi & Hj & Hij).
  pose proof (index_first _ _ _ _ Hj Hlk) as Hjk.
  destruct (inv_proposed _ _ _ HI a m i r Hm)
    as (b0 & w0 & pr0 & r0 & Hw0 & Hw0id & Hw0nf & Hpr0 & Hr0 & Hle);
    [lia|by apply index_lookup|].
  assert (b0 = b) as ->.
  { eapply (woman_id_unique ms ws); eauto. congruence. }
  assert (w0 = w) as -> by congruence.
  (* and [r] holds a partner she ranks at least as high *)
  destruct (inv_woman_engaged _ _ _ HI _ _ Hw Hw0nf)
    as (a0 & m0 & rk & Hwp0 & Hm0 & _ & _ & Hrk & Hidx).
  assert (a0 = a') as -> by congruence.
  assert (m0 = m') as -> by congruence.
  destruct Hwoman as (i2 & j2 & Hi2 & Hj2 & Hij2).
  rewrite Hmid in Hr0. rewrite Hmid' in Hidx.
  assert (i2 = r0) by congruence.
  assert (j2 = rk) by congruence.
  assert (rk = pr0) by congruence.
  lia.
Qed.
End final.

(** ** The whole cell on valid input *)

Lemma notebook_valid ms ws :
  valid_input ms ws →
  ∃ rounds d h,
    notebook ms ws = Ok (rounds, None, d) h ∧
    (rounds ≤ length ms * length ms)%nat ∧
    bijection ms ws d ∧ stable ms ws d.
Proof.
  intros Hvalid.
  destruct (construct_equal ms ws (valid_length _ _ Hvalid))
    as (d0 & Hconstruct & Hdom).
  pose proof (Inv_init ms ws d0 (valid_length _ _ Hvalid) Hdom) as HI0.
  destruct (match_loop_Inv ms ws Hvalid _ _ 0%nat HI0 (Nat.lt_succ_diag_r _))
    as (s' & k & Hloop & HI' & Hfm & Htot).
  exists k, (Stable_Marriages_pairings s'.1), s'.2. split_and!.
  - unfold notebook, notebook_cell.
    rewrite (bind_Ok _ _ _ _ _ Hconstruct). simpl.
    unfold run_match, Stable_Marriages_match. by rewrite Hloop.
  - pose proof (Inv_total_bound ms ws _ HI'). lia.
  - by apply final_bijection.
  - by apply final_stable.
Qed.

(** * The loop of [match] terminates on every store *)

Lemma bind_inv {S A B} (c : M S A) (k : A → M S B) s v s' :
  (c ≫= k) s = Ok v s' → ∃ a s1, c s = Ok a s1 ∧ k a s1 = Ok v s'.
Proof. unfold mbind, M_bind. destruct (c s); [eauto|done..]. Qed.

Lemma lift_inv {A} (c : M heap A) s v s' :
  lift c s = Ok v s' → ∃ h1, c s.2 = Ok v h1 ∧ s' = (s.1, h1).
Proof. unfold lift. destruct (c s.2); [|done..]. intros [= <- <-]. eauto. Qed.

Lemma upd_man_inv a f h h1 :
  upd_man a f h = Ok () h1 →
  ∃ m, men_objs h !! a = Some m ∧
       h1 = mk_heap (<[a := f m]> (men_objs h)) (women_objs h).
Proof. unfold upd_man. destruct (men_objs h !! a); [|done]. intros [= <-]. eauto. Qed.

(** Writing a man's object with one that has made as many proposals. *)
Lemma proposals_insert_same (l : list Man.t) a m m' :
  l !! a = Some m → Man.proposals_made m' = Man.proposals_made m →
  Man.proposals_made <$> <[a := m']> l = Man.proposals_made <$> l.
Proof.
  intros Hm Heq. rewrite list_fmap_insert, Heq.
  apply list_insert_id. by rewrite list_lookup_fmap, Hm.
Qed.

Lemma decide_proposals h self man d h' :
  Woman_decide self man h = Ok d h' →
  Man.proposals_made <$> men_objs h' = Man.proposals_made <$> men_objs h.
Proof.
  intros Hrun.
  destruct (decide_frame h self man _ h' Hrun eq_refl)
    as (_ & _ & Hkeep & Hbreak & _).
  destruct (Woman.broke_up d) eqn:Hbrk.
  - destruct (Hbreak d eq_refl Hbrk) as (_ & w & old & mo & _ & _ & Hmo & ->).
    by eapply proposals_insert_same.
  - by rewrite (Hkeep d eq_refl Hbrk).
Qed.

Lemma updatePartner_proposals a b h h' :
  Man_updatePartner a b h = Ok () h' →
  Man.proposals_made <$> men_objs h' = Man.proposals_made <$> men_objs h.
Proof.
  unfold Man_updatePartner. intros Hrun.
  apply bind_inv in Hrun as ([] & h1 & (m & Hm & ->)%upd_man_inv & Hrun).
  revert Hrun. run_store.
  destruct (women_objs h !! b) as [w|]; [|done]. simpl.
  destruct (index _ _) as [r|]; [|done]. run_store.
  intros [= <-]. simpl. by eapply proposals_insert_same.
Qed.

Lemma budget_proposals self self' h h' :
  Stable_Marriages.applicants self' = Stable_Marriages.applicants self →
  Man.proposals_made <$> men_objs h' = Man.proposals_made <$> men_objs h →
  budget (self', h') = budget (self, h).
Proof.
  intros Happ Heq. unfold budget. simpl. rewrite Happ.
  change (λ m, Stable_Marriages.applicants self - Man.proposals_made m)%nat
    with ((λ k, Stable_Marriages.applicants self - k)%nat
          ∘ Man.proposals_made).
  by rewrite !list_fmap_compose, Heq.
Qed.

(** An iteration that continues has made one more proposal, for a man who
    had made fewer than [applicants]. *)
Lemma get_man_inv a h m h1 :
  get_man a h = Ok m h1 → men_objs h !! a = Some m ∧ h1 = h.
Proof. unfold get_man. destruct (men_objs h !! a); [|done]. by intros [= <- <-]. Qed.

Lemma get_woman_inv b h w h1 :
  get_woman b h = Ok w h1 → women_objs h !! b = Some w ∧ h1 = h.
Proof.
  unfold get_woman. destruct (women_objs h !! b); [|done]. by intros [= <- <-].
Qed.

Lemma match_body_budget g s s' :
  match_body g s = Ok Continue s' → (budget s' < budget s)%nat.
Proof.
  destruct s as [self h]. unfold match_body. intros Hrun.
  apply bind_inv in Hrun as (suitor & s1 & (h1 & Hfind & ->)%lift_inv & Hrun).
  apply find_free_man_reads with (h1 := h1) in Hfind as ->; [|done].
  destruct suitor as [a|]; [|done]. simpl in Hrun.
  apply bind_inv in Hrun as (m & s2 & (h2 & Hm & ->)%lift_inv & Hrun).
  apply get_man_inv in Hm as [Hm ->]. simpl in Hm, Hrun.
  apply bind_inv in Hrun as (self0 & s3 & [= <- <-] & Hrun). simpl in Hrun.
  destruct (Nat.ltb_spec (Man.proposals_made m)
              (Stable_Marriages.applicants self)) as [Hlt|]; [|done].
  apply bind_inv in Hrun as (x & s4 & (h4 & Hpop & ->)%lift_inv & Hrun).
  unfold Man_getSuitressId in Hpop. simpl in Hpop.
  apply bind_inv in Hpop as (m1 & h0 & [Hm1 ->]%get_man_inv & Hpop).
  assert (m1 = m) as -> by congruence. clear Hm1.
  destruct (Man.remaining_list m) as [|x' rest]; [done|].
  apply bind_inv in Hpop as ([] & h5 & (m1 & Hm1 & ->)%upd_man_inv & [= <- <-]).
  assert (m1 = m) as -> by congruence. clear Hm1. simpl in Hrun.
  apply bind_inv in Hrun as (suitress & s5 & Hsuit & Hrun).
  unfold Stable_Marriages_getSuitress in Hsuit.
  apply bind_inv in Hsuit as (self0 & s6 & [= <- <-] & Hsuit).
  apply lift_inv in Hsuit as (h6 & Hsuit & ->). simpl in Hsuit.
  apply getSuitress_loop_reads with (h1 := h6) in Hsuit as ->; [|done].
  simpl in Hrun.
  apply bind_inv in Hrun as ([] & s7 & (h7 & Hinc & ->)%lift_inv & Hrun).
  simpl in Hinc. apply upd_man_inv in Hinc as (m1 & Hm1 & ->).
  simpl in Hm1. rewrite (lookup_insert_same _ _ _ _ Hm) in Hm1.
  injection Hm1 as <-. simpl in Hrun. rewrite list_insert_insert_eq in Hrun.
  destruct suitress as [b|]; [|done].
  apply bind_inv in Hrun as (d & s8 & (h8 & Hdec & ->)%lift_inv & Hrun).
  simpl in Hdec. apply decide_proposals in Hdec. simpl in Hdec, Hrun.
  (* from here on the proposal counts no longer change *)
  assert (∃ self' h', s' = (self', h') ∧
            Stable_Marriages.applicants self'
            = Stable_Marriages.applicants self ∧
            Man.proposals_made <$> men_objs h'
            = Man.proposals_made <$> men_objs h8)
    as (self' & h' & -> & Happ & Hpm).
  { apply bind_inv in Hrun as ([] & s9 & Hacc & Hrun).
    assert (∃ self1 h9, s9 = (self1, h9) ∧
              Stable_Marriages.applicants self1
              = Stable_Marriages.applicants self ∧
              Man.proposals_made <$> men_objs h9
              = Man.proposals_made <$> men_objs h8)
      as (self1 & h9 & -> & Happ1 & Hpm1).
    { destruct (Woman.accepted d).
      - apply bind_inv in Hacc
          as ([] & s10 & (h10 & Hupd & ->)%lift_inv & Hacc).
        simpl in Hupd. apply updatePartner_proposals in Hupd.
        injection Hacc as <-. simpl. eauto.
      - injection Hacc as <-. eauto. }
    apply bind_inv in Hrun as ([] & s11 & Hbrk & Hrun).
    assert (∃ self2, s11 = (self2, h9) ∧
              Stable_Marriages.applicants self2
              = Stable_Marriages.applicants self)
      as (self2 & -> & Happ2).
    { destruct (Woman.broke_up d); injection Hbrk as <-; simpl; eauto. }
    apply bind_inv in Hrun as (m' & s12 & (h12 & Hm' & ->)%lift_inv & Hrun).
    apply get_man_inv in Hm' as [Hm' ->]. simpl in Hm', Hrun.
    apply bind_inv in Hrun as (pid & s13 & Hpid & Hrun).
    assert (s13 = (self2, h9)) as ->.
    { destruct (Man.partner m') as [p|]; [|by injection Hpid as <- <-].
      apply bind_inv in Hpid
        as (w' & s14 & (h14 & [Hw' ->]%get_woman_inv & ->)%lift_inv & Hpid).
      by injection Hpid as <- <-. }
    apply bind_inv in Hrun as ([] & s15 & [= <-] & [= <-]).
    eexists _, _. split; [done|]. simpl. eauto. }
  rewrite (budget_proposals self self' (mk_heap _ (women_objs h)) h' Happ
             (eq_trans Hpm Hdec)).
  unfold budget. simpl.
  pose proof (sum_list_insert
                (λ m, Stable_Marriages.applicants self
                      - Man.proposals_made m)%nat _ _ _
                (Man.set_proposals_made (S (Man.proposals_made m))
                   (Man.set_remaining_list rest m)) Hm) as Hs.
  simpl in Hs. lia.
Qed.

Lemma match_loop_budget fuel g rounds s :
  (budget s < fuel)%nat → is_Some (match_loop fuel g rounds s).
Proof.
  revert rounds s. induction fuel as [|fuel IH]; intros rounds s Hfuel; [lia|].
  simpl. destruct (0 <? _); [|done].
  destruct (match_body g s) as [[| |msg] s'|e s'|] eqn:Hbody; try done.
  apply IH. apply match_body_budget in Hbody. lia.
Qed.

(** [match] as a total function is the loop with enough fuel. *)
Lemma Stable_Marriages_match_loop g s :
  match_loop (S (budget s)) g 0 s = Some (Stable_Marriages_match g s).
Proof.
  unfold Stable_Marriages_match.
  destruct (match_loop_budget (S (budget s)) g 0 s) as [r ->]; [lia|done].
Qed.

(** * The properties of the specification *)

Lemma scenario_valid : valid_input scenario_men scenario_women.
Proof.
  split.
  - done.
  - by apply (bool_decide_unpack _).
  - by apply (bool_decide_unpack _).
  - intros i p Hin. unfold scenario_men in Hin.
    repeat (apply elem_of_cons in Hin as [[= -> ->]|Hin]);
      [by apply (bool_decide_unpack _)..|].
    by apply elem_of_nil in Hin.
  - intros i p Hin. unfold scenario_women in Hin.
    repeat (apply elem_of_cons in Hin as [[= -> ->]|Hin]);
      [by apply (bool_decide_unpack _)..|].
    by apply elem_of_nil in Hin.
Qed.

(** C1.  On every valid input the cell runs to the end of the loop
    ([match] returns [None]), every proposer and every reviewer has an
    assigned partner in the mapping read from [pairings], and the mapping is
    stable: for a proposer [p] and a reviewer [r] that are not matched to
    each other, it is false that [p] ranks [r] before his partner and [r]
    ranks [p] before hers. *)
Theorem match_stable ms ws :
  valid_input ms ws →
  ∃ rounds d h,
    notebook ms ws = Ok (rounds, None, d) h ∧
    (∀ p, p ∈ ms.*1 → ∃ r, matched d p r) ∧
    (∀ r, r ∈ ws.*1 → ∃ p, matched d p r) ∧
    stable ms ws d.
Proof.
  intros (rounds & d & h & Hrun & _ & (_ & Hmen & Hwomen) & Hstable)
           %notebook_valid.
  exists rounds, d, h. split_and!; [done| | |done].
  - intros p Hp. destruct (Hmen p Hp) as (r & _ & ?). eauto.
  - intros r Hr. destruct (Hwomen r Hr) as (p & _ & ? & _). eauto.
Qed.

Lemma match_stable_scenario :
  ∃ rounds d h,
    notebook scenario_men scenario_women = Ok (rounds, None, d) h ∧
    (∀ p, p ∈ scenario_men.*1 → ∃ r, matched d p r) ∧
    (∀ r, r ∈ scenario_women.*1 → ∃ p, matched d p r) ∧
    stable scenario_men scenario_women d.
Proof. exact (match_stable scenario_men scenario_women scenario_valid). Defined.

(** C2.  On every valid input the cell runs to the end of the loop and the
    mapping read from [pairings] is a bijection: its keys are exactly the
    proposers' ids, each is mapped to a reviewer's id (never to [None]),
    and every reviewer's id is the image of exactly one proposer. *)
Theorem match_bijection ms ws :
  valid_input ms ws →
  ∃ rounds d h,
    notebook ms ws = Ok (rounds, None, d) h ∧ bijection ms ws d.
Proof.
  intros (rounds & d & h & Hrun & _ & Hbij & _)%notebook_valid. eauto.
Qed.

Lemma match_bijection_scenario :
  ∃ rounds d h,
    notebook scenario_men scenario_women = Ok (rounds, None, d) h ∧
    bijection scenario_men scenario_women d.
Proof.
  exact (match_bijection scenario_men scenario_women scenario_valid).
Defined.

(** C6.  On every valid input of size [n] the run terminates: the cell
    returns, [match] having left its loop after at most [n * n] rounds. *)
Theorem match_rounds_bound ms ws :
  valid_input ms ws →
  ∃ rounds v d h,
    notebook ms ws = Ok (rounds, v, d) h ∧
    (rounds ≤ length ms * length ms)%nat.
Proof.
  intros (rounds & d & h & Hrun & Hle & _)%notebook_valid.
  by exists rounds, None, d, h.
Qed.

Lemma match_rounds_bound_scenario :
  ∃ rounds v d h,
    notebook scenario_men scenario_women = Ok (rounds, v, d) h ∧
    (rounds ≤ 4 * 4)%nat.
Proof.
  exact (match_rounds_bound scenario_men scenario_women scenario_valid).
Defined.

(** The scenario of the notebook's text gives the mapping it announces, in
    four rounds; the men of the code cell need six. *)
Example notebook_scenario :
  ∃ h, notebook scenario_men scenario_women
       = Ok (4%nat, None,
             {[ 0 := Some 0; 1 := Some 2; 2 := Some 1; 3 := Some 3 ]}) h.
Proof. eexists. vm_compute. reflexivity. Qed.

Example notebook_code_cell :
  ∃ d h, notebook cell_men scenario_women = Ok (6%nat, None, d) h.
Proof. eexists _, _. vm_compute. reflexivity. Qed.

(** C3.  [decide] on a woman [w] for a man whose id has rank
    [suitor_rank] in her list: a free woman accepts; an engaged woman whose
    partner's rank is larger accepts and frees her previous partner; an
    engaged woman whose partner's rank is not larger rejects and keeps her
    partner, his rank and her status.  In the three cases the call is
    counted in [proposals_received]. *)
Theorem decide_outcomes h self man w m suitor_rank :
  women_objs h !! self = Some w →
  men_objs h !! man = Some m →
  index (Woman.pref_list w) (Man.mid m) = Some suitor_rank →
  (Woman.is_free w = true →
   Woman_decide self man h
   = Ok (Woman.mk_decision true false)
       (mk_heap (men_objs h)
          (<[self := engaged_woman w man suitor_rank]> (women_objs h)))) ∧
  (∀ pr old mo,
     Woman.is_free w = false → Woman.partner_rank w = Some pr →
     (suitor_rank < pr)%nat →
     Woman.partner w = Some old → men_objs h !! old = Some mo →
     Woman_decide self man h
     = Ok (Woman.mk_decision true true)
         (mk_heap (<[old := freed_man mo]> (men_objs h))
            (<[self := engaged_woman w man suitor_rank]> (women_objs h)))) ∧
  (∀ pr,
     Woman.is_free w = false → Woman.partner_rank w = Some pr →
     (pr ≤ suitor_rank)%nat →
     Woman_decide self man h
     = Ok (Woman.mk_decision false false)
         (mk_heap (men_objs h)
            (<[self := Woman.mk (Woman.wid w) (Woman.pref_list w)
                         (Woman.partner w) (Woman.partner_rank w)
                         (Woman.is_free w)
                         (S (Woman.proposals_received w))]>
               (women_objs h)))).
Proof.
  intros Hw Hm Hr. split_and!.
  - by eapply decide_first.
  - intros pr old mo. by eapply decide_break_up.
  - intros pr. by eapply decide_reject.
Qed.

(** The cell's rounds 1, 2 and 5: man 0 proposes to woman 0, who is free;
    man 1 proposes to woman 0, who prefers man 0; man 3 proposes to woman 3,
    who leaves man 1 for him. *)
Lemma decide_outcomes_cell :
  Woman_decide 0 0 (cell_heap 0)
  = Ok (Woman.mk_decision true false)
      (mk_heap (men_objs (cell_heap 0))
         (<[0%nat := Woman.mk 0 [0; 1; 2; 3] (Some 0%nat) (Some 0%nat) false 1]>
            (women_objs (cell_heap 0)))) ∧
  Woman_decide 0 1 (cell_heap 1)
  = Ok (Woman.mk_decision false false)
      (mk_heap (men_objs (cell_heap 1))
         (<[0%nat := Woman.mk 0 [0; 1; 2; 3] (Some 0%nat) (Some 0%nat) false 2]>
            (women_objs (cell_heap 1)))) ∧
  Woman_decide 3 3 (cell_heap 4)
  = Ok (Woman.mk_decision true true)
      (mk_heap
         (<[1%nat := Man.mk 1 [0; 3; 2; 1] [2; 1] None None true 2 4]>
            (men_objs (cell_heap 4)))
         (<[3%nat := Woman.mk 3 [3; 2; 1; 0] (Some 3%nat) (Some 0%nat) false 2]>
            (women_objs (cell_heap 4)))).
Proof.
  split_and!.
  - apply (decide_outcomes (cell_heap 0) 0 0 (Woman.__init__ 0 [0; 1; 2; 3])
             (Man.__init__ 0 [0; 1; 2; 3]) 0);
      [vm_compute; reflexivity..|reflexivity].
  - apply (decide_outcomes (cell_heap 1) 0 1
             (Woman.mk 0 [0; 1; 2; 3] (Some 0%nat) (Some 0%nat) false 1)
             (Man.__init__ 1 [0; 3; 2; 1]) 1) with (pr := 0%nat);
      [vm_compute; reflexivity..|reflexivity|reflexivity|lia].
  - apply (decide_outcomes (cell_heap 4) 3 3
             (Woman.mk 3 [3; 2; 1; 0] (Some 1%nat) (Some 2%nat) false 1)
             (Man.__init__ 3 [3; 2; 1; 0]) 0)
      with (pr := 2%nat) (old := 1%nat)
           (mo := Man.mk 1 [0; 3; 2; 1] [2; 1] (Some 3%nat) (Some 1%nat)
                    false 2 4);
      [vm_compute; reflexivity..|reflexivity|reflexivity|lia|reflexivity|
       vm_compute; reflexivity].
Defined.

(** In the cell's second round woman 0 rejects man 1, and her object is not
    what it was before the call. *)
Lemma decide_reject_changes_woman :
  ∃ h', Woman_decide 0 1 (cell_heap 1)
        = Ok (Woman.mk_decision false false) h' ∧
        women_objs h' !! 0%nat ≠ women_objs (cell_heap 1) !! 0%nat.
Proof. eexists. vm_compute. split; [done|]. by intros [=]. Qed.

(** C4.  What a call of [decide] writes, whether it returns or raises:
    among the women only its own object; among the men either nothing or,
    when it breaks up, the object of the displaced partner, whose [is_free],
    [partner] and [partner_rank] it resets itself.  It writes nothing of the
    engine ([freeMen], [matching_status]). *)
Theorem decide_writes h self man h' :
  final_store (Woman_decide self man h) = Some h' →
  (∀ b, b ≠ self → women_objs h' !! b = women_objs h !! b) ∧
  (men_objs h' = men_objs h ∨
   ∃ w old mo,
     Woman_decide self man h = Ok (Woman.mk_decision true true) h' ∧
     women_objs h !! self = Some w ∧ Woman.partner w = Some old ∧
     men_objs h !! old = Some mo ∧
     men_objs h' = <[old := freed_man mo]> (men_objs h)) ∧
  (∀ sm s', final_store (lift (Woman_decide self man) (sm, h)) = Some s' →
            s'.1 = sm).
Proof.
  intros Hfinal.
  destruct (decide_frame h self man _ h' eq_refl Hfinal)
    as (Hwomen & _ & Hkeep & Hbreak & Hraise).
  split_and!; [done| |].
  - destruct (Woman_decide self man h) as [[acc brk] h1|e h1|] eqn:Hrun;
      simplify_eq/=.
    + destruct brk.
      * right.
        destruct (Hbreak _ eq_refl eq_refl) as (Hacc & w & old & mo & ?).
        simpl in Hacc. subst acc. by exists w, old, mo.
      * left. by eapply Hkeep.
    + left. by eapply Hraise.
  - intros sm s'. unfold lift. simpl.
    destruct (Woman_decide self man h); simpl; by intros [= <-].
Qed.

Lemma decide_writes_cell :
  ∃ h', final_store (Woman_decide 3 3 (cell_heap 4)) = Some h' ∧
        (∀ b, b ≠ 3%nat →
              women_objs h' !! b = women_objs (cell_heap 4) !! b) ∧
        men_objs h' !! 0%nat = men_objs (cell_heap 4) !! 0%nat.
Proof.
  eexists. split; [vm_compute; reflexivity|].
  split; [|reflexivity].
  refine (proj1 (decide_writes (cell_heap 4) 3 3 _ _)).
  vm_compute. reflexivity.
Defined.

(** In the cell's fifth round woman 3 leaves man 1 for man 3: the call of
    [decide] itself frees man 1. *)
Lemma decide_frees_displaced_man :
  ∃ d h', Woman_decide 3 3 (cell_heap 4) = Ok d h' ∧
    Man.is_free <$> men_objs (cell_heap 4) !! 1%nat = Some false ∧
    Man.partner <$> men_objs (cell_heap 4) !! 1%nat = Some (Some 3%nat) ∧
    Man.is_free <$> men_objs h' !! 1%nat = Some true ∧
    Man.partner <$> men_objs h' !! 1%nat = Some None ∧
    men_objs h' !! 1%nat ≠ men_objs (cell_heap 4) !! 1%nat.
Proof.
  eexists _, _. vm_compute. split_and!; [done..|]. by intros [=].
Qed.

(** C7.  Groups of different sizes: the constructor raises before it
    writes anything, whatever the store; run by the driver, the cell ends
    with that exception and the store holds the agents as they were
    created, none having made or received a proposal. *)
Theorem unequal_groups_rejected ms ws :
  length ms ≠ length ws →
  (∀ men women h,
     length men = length ms → length women = length ws →
     Stable_Marriages__init__ men women h
     = Raise (Exception "Not equal Number of men and women") h) ∧
  notebook ms ws
  = Raise (Exception "Not equal Number of men and women") (fresh_heap ms ws).
Proof.
  intros Hne. split.
  - intros men women h Hm Hw. unfold Stable_Marriages__init__.
    destruct (Nat.eqb_spec (length men) (length women)); [lia|done].
  - unfold notebook, notebook_cell.
    by rewrite (bind_Raise _ _ _ _ _ (construct_unequal ms ws Hne)).
Qed.

Lemma unequal_groups_3_4 :
  notebook three_men scenario_women
  = Raise (Exception "Not equal Number of men and women")
      (fresh_heap three_men scenario_women).
Proof.
  refine (proj2 (unequal_groups_rejected three_men scenario_women _)).
  simpl. lia.
Defined.

(** C9.  The constructors check nothing about the preference lists: for
    groups of equal size construction succeeds whatever the lists are, and
    every agent holds the list it was given. *)
Theorem construction_checks_sizes_only ms ws :
  length ms = length ws →
  ∃ sm, construct ms ws empty_heap
        = Ok (driver_globals ms ws, sm) (fresh_heap ms ws) ∧
        (∀ a e, ms !! a = Some e →
                Man.pref_list <$> men_objs (fresh_heap ms ws) !! a
                = Some e.2) ∧
        (∀ b e, ws !! b = Some e →
                Woman.pref_list <$> women_objs (fresh_heap ms ws) !! b
                = Some e.2).
Proof.
  intros Heq. destruct (construct_equal ms ws Heq) as (d & Hd & _).
  eexists. split; [done|]. split.
  - intros a e Ha. simpl. by rewrite list_lookup_fmap, Ha.
  - intros b e Hb. simpl. by rewrite list_lookup_fmap, Hb.
Qed.

Lemma construction_checks_sizes_only_repeating :
  ∃ sm, construct repeating_men two_women empty_heap
        = Ok (driver_globals repeating_men two_women, sm)
            (fresh_heap repeating_men two_women) ∧
        (∀ a e, repeating_men !! a = Some e →
                Man.pref_list <$>
                  men_objs (fresh_heap repeating_men two_women) !! a
                = Some e.2) ∧
        (∀ b e, two_women !! b = Some e →
                Woman.pref_list <$>
                  women_objs (fresh_heap repeating_men two_women) !! b
                = Some e.2).
Proof.
  refine (construction_checks_sizes_only repeating_men two_women _).
  reflexivity.
Defined.

(** Both men list woman 0 twice and woman 1 never: the engine is built and
    runs three rounds before man 1 runs out of women. *)
Lemma malformed_lists_accepted :
  ∃ c h0 d h,
    construct repeating_men two_women empty_heap = Ok c h0 ∧
    notebook repeating_men two_women
    = Ok (3%nat, Some "ran out of women to propose to", d) h.
Proof. eexists _, _, _, _. vm_compute. done. Qed.

(** C10.  The result of [match] depends on the module-level lists: the
    engine built on the scenario's agents, run once with the module-level
    lists bound to the constructor's arguments and once with the
    module-level [women] bound to the same women in reverse order, leaves
    different mappings.  Its field [men], on the other hand, is not read:
    emptied, it leaves the first run's mapping as it is. *)
Theorem match_reads_module_level_lists :
  ∃ h men_arg women_arg sm g1 g2 n1 n2 n3 s1 s2 s3,
    Stable_Marriages__init__ men_arg women_arg h = Ok sm h ∧
    Stable_Marriages.men sm = men_arg ∧
    Stable_Marriages.women sm = women_arg ∧
    men g1 = men_arg ∧ women g1 = women_arg ∧
    men g2 = men_arg ∧ women g2 = reverse women_arg ∧
    Stable_Marriages_match g1 (sm, h) = (n1, Ok None s1) ∧
    Stable_Marriages_match g2 (sm, h) = (n2, Ok None s2) ∧
    Stable_Marriages_pairings s1.1 !! 0 = Some (Some 0) ∧
    Stable_Marriages_pairings s2.1 !! 0 = Some (Some 3) ∧
    Stable_Marriages_match g1
      (Stable_Marriages.mk [] (Stable_Marriages.women sm)
         (Stable_Marriages.applicants sm) (Stable_Marriages.freeMen sm)
         (Stable_Marriages.matching_status sm), h)
    = (n3, Ok None s3) ∧
    Stable_Marriages_pairings s3.1 = Stable_Marriages_pairings s1.1.
Proof.
  exists (fresh_heap scenario_men scenario_women), (seq 0 4), (seq 0 4).
  eexists.
  exists (mk_globals (seq 0 4) (seq 0 4)),
         (mk_globals (seq 0 4) (reverse (seq 0 4))).
  eexists _, _, _, _, _, _.
  split_and!.
  - vm_compute. reflexivity.
  - reflexivity.
  - reflexivity.
  - reflexivity.
  - reflexivity.
  - reflexivity.
  - reflexivity.
  - vm_compute. reflexivity.
  - vm_compute. reflexivity.
  - vm_compute. reflexivity.
  - vm_compute. reflexivity.
  - vm_compute. reflexivity.
  - vm_compute. reflexivity.
Qed.

(** C5.  A round in which the woman leaves her partner [old] for the
    suitor.  The call of [decide], made on the store in which the suitor has
    popped her id and counted his proposal, accepts, reports the break-up
    and has itself reset the displaced man's object.  The round then
    continues the loop: the suitor is engaged and his entry of
    [matching_status] holds his partner's id; [freeMen] is decremented for
    him and incremented for the displaced man; the woman holds the suitor
    and his rank. *)
Theorem break_up_round g self h a m x rest b w r rm pr old mo :
  find_free_man (men g) h = Ok (Some a) h →
  men_objs h !! a = Some m →
  (Man.proposals_made m < Stable_Marriages.applicants self)%nat →
  Man.remaining_list m = x :: rest →
  Stable_Marriages_getSuitress g x (self, h) = Ok (Some b) (self, h) →
  women_objs h !! b = Some w →
  index (Woman.pref_list w) (Man.mid m) = Some r →
  index (Man.pref_list m) (Woman.wid w) = Some rm →
  Woman.is_free w = false →
  Woman.partner_rank w = Some pr →
  (r < pr)%nat →
  Woman.partner w = Some old →
  men_objs h !! old = Some mo →
  old ≠ a →
  Woman_decide b a
    (mk_heap (<[a := rejected_man m rest]> (men_objs h)) (women_objs h))
  = Ok (Woman.mk_decision true true)
      (mk_heap
         (<[old := freed_man mo]>
            (<[a := rejected_man m rest]> (men_objs h)))
         (<[b := engaged_woman w a r]> (women_objs h))) ∧
  match_body g (self, h)
  = Ok Continue
      (Stable_Marriages.mk (Stable_Marriages.men self)
         (Stable_Marriages.women self) (Stable_Marriages.applicants self)
         (Stable_Marriages.freeMen self - 1 + 1)
         (<[Man.mid m := Stable_Marriages.mk_status (Some (Woman.wid w))
                           false (S (Man.proposals_made m))]>
            (Stable_Marriages.matching_status self)),
       mk_heap
         (<[a := engaged_man m rest b rm]>
            (<[old := freed_man mo]> (men_objs h)))
         (<[b := engaged_woman w a r]> (women_objs h))).
Proof.
  intros Hfind Hm Hlt Hrem Hsuitress Hw Hr Hrm Hnf Hpr Hrlt Hold Hmo Hne.
  split.
  - apply (decide_break_up
             (mk_heap (<[a := rejected_man m rest]> (men_objs h))
                (women_objs h))
             b a w (rejected_man m rest) r) with (pr := pr); try done; simpl.
    + by rewrite (lookup_insert_same _ _ _ _ Hm).
    + by rewrite list_lookup_insert_ne.
  - eapply match_body_break_up; eauto.
    intros h' Hh'. eapply getSuitress_loop_women; [done|].
    revert Hsuitress. unfold Stable_Marriages_getSuitress. unfold_M. simpl.
    destruct (getSuitress_loop _ _ _ _ h) as [r0 h0|e h0|] eqn:Hloop;
      intros [=]. by subst.
Qed.

(** The cell's fifth round: man 3 proposes to woman 3, who leaves man 1. *)
Lemma break_up_round_cell :
  Woman_decide 3 3
    (mk_heap
       (<[3%nat := Man.mk 3 [3; 2; 1; 0] [2; 1; 0] None None true 1 4]>
          (men_objs (cell_heap 4)))
       (women_objs (cell_heap 4)))
  = Ok (Woman.mk_decision true true)
      (mk_heap
         (<[1%nat := Man.mk 1 [0; 3; 2; 1] [2; 1] None None true 2 4]>
            (<[3%nat := Man.mk 3 [3; 2; 1; 0] [2; 1; 0] None None true 1 4]>
               (men_objs (cell_heap 4))))
         (<[3%nat := Woman.mk 3 [3; 2; 1; 0] (Some 3%nat) (Some 0%nat)
                       false 2]>
            (women_objs (cell_heap 4)))) ∧
  match_body cell_globals (cell_engine 4, cell_heap 4)
  = Ok Continue
      (Stable_Marriages.mk (Stable_Marriages.men (cell_engine 4))
         (Stable_Marriages.women (cell_engine 4))
         (Stable_Marriages.applicants (cell_engine 4))
         (Stable_Marriages.freeMen (cell_engine 4) - 1 + 1)
         (<[3 := Stable_Marriages.mk_status (Some 3) false 1]>
            (Stable_Marriages.matching_status (cell_engine 4))),
       mk_heap
         (<[3%nat := Man.mk 3 [3; 2; 1; 0] [2; 1; 0] (Some 3%nat) (Some 0%nat)
                       false 1 4]>
            (<[1%nat := Man.mk 1 [0; 3; 2; 1] [2; 1] None None true 2 4]>
               (men_objs (cell_heap 4))))
         (<[3%nat := Woman.mk 3 [3; 2; 1; 0] (Some 3%nat) (Some 0%nat)
                       false 2]>
            (women_objs (cell_heap 4)))).
Proof.
  apply (break_up_round cell_globals (cell_engine 4) (cell_heap 4) 3
           (Man.__init__ 3 [3; 2; 1; 0]) 3 [2; 1; 0] 3
           (Woman.mk 3 [3; 2; 1; 0] (Some 1%nat) (Some 2%nat) false 1)
           0 0 2 1
           (Man.mk 1 [0; 3; 2; 1] [2; 1] (Some 3%nat) (Some 1%nat) false 2 4)).
  - vm_compute. reflexivity.
  - vm_compute. reflexivity.
  - vm_compute. lia.
  - reflexivity.
  - vm_compute. reflexivity.
  - vm_compute. reflexivity.
  - reflexivity.
  - reflexivity.
  - reflexivity.
  - reflexivity.
  - simpl. lia.
  - reflexivity.
  - vm_compute. reflexivity.
  - lia.
Defined.

(** After that round man 1 is free, and the mapping still gives him
    woman 3, whom it now also gives to man 3. *)
Lemma break_up_round_keeps_entry :
  ∃ s', match_body cell_globals (cell_engine 4, cell_heap 4)
        = Ok Continue s' ∧
    Woman.partner <$> women_objs (cell_heap 4) !! 3%nat = Some (Some 1%nat) ∧
    Woman.partner <$> women_objs s'.2 !! 3%nat = Some (Some 3%nat) ∧
    Man.is_free <$> men_objs s'.2 !! 1%nat = Some true ∧
    Stable_Marriages_pairings s'.1 !! 1 = Some (Some 3) ∧
    Stable_Marriages_pairings s'.1 !! 3 = Some (Some 3).
Proof. eexists. vm_compute. done. Qed.




(** * Further properties of the code *)

(** ** The methods of [Man] *)

Lemma set_remaining_list_same (m : Man.t) :
  Man.set_remaining_list (Man.remaining_list m) m = m.
Proof. by destruct m. Qed.

Lemma heap_insert_same h a m :
  men_objs h !! a = Some m →
  mk_heap (<[a := m]> (men_objs h)) (women_objs h) = h.
Proof. intros Hm. rewrite list_insert_id by done. by destruct h. Qed.

Lemma getSuitressId_times_take k : ∀ h a m,
  men_objs h !! a = Some m →
  (k ≤ length (Man.remaining_list m))%nat →
  getSuitressId_times k a h
  = Ok (take k (Man.remaining_list m))
      (mk_heap
         (<[a := Man.set_remaining_list (drop k (Man.remaining_list m)) m]>
            (men_objs h))
         (women_objs h)).
Proof.
  induction k as [|k IH]; intros h a m Hm Hk.
  - simpl. rewrite drop_0, set_remaining_list_same.
    by rewrite heap_insert_same.
  - destruct (Man.remaining_list m) as [|x rest] eqn:Hrem; [simpl in Hk; lia|].
    simpl. rewrite (bind_Ok _ _ _ _ _ (getSuitressId_Ok h a m x rest Hm Hrem)).
    erewrite bind_Ok.
    2:{ apply (IH _ a (Man.set_remaining_list rest m)).
        - simpl. by rewrite (lookup_insert_same _ _ _ _ Hm).
        - simpl in *. lia. }
    simpl. by rewrite list_insert_insert_eq.
Qed.

Lemma getSuitressId_times_raise rem : ∀ h a m,
  men_objs h !! a = Some m →
  Man.remaining_list m = rem →
  getSuitressId_times (S (length rem)) a h
  = Raise IndexError
      (mk_heap (<[a := Man.set_remaining_list [] m]> (men_objs h))
         (women_objs h)).
Proof.
  induction rem as [|x rest IH]; intros h a m Hm Hrem.
  - simpl. rewrite (bind_Raise _ _ _ _ _ (getSuitressId_empty h a m Hm Hrem)).
    rewrite <-Hrem, set_remaining_list_same. by rewrite heap_insert_same.
  - cbn [length getSuitressId_times].
    rewrite (bind_Ok _ _ _ _ _ (getSuitressId_Ok h a m x rest Hm Hrem)).
    erewrite bind_Raise.
    2:{ apply (IH _ a (Man.set_remaining_list rest m)); [|done].
        simpl. by rewrite (lookup_insert_same _ _ _ _ Hm). }
    simpl. by rewrite list_insert_insert_eq.
Qed.

(** X1.  Successive calls of [getSuitressId] on a man hand out his
    remaining list from the front: [k] calls, for [k] up to its length,
    return its first [k] ids in order and leave the others; the call after
    the last id raises [IndexError].  Only [remaining_list] of that man is
    written: [pref_list] and every other object stay as they were. *)
Theorem getSuitressId_enumerates h a m :
  men_objs h !! a = Some m →
  (∀ k, (k ≤ length (Man.remaining_list m))%nat →
        getSuitressId_times k a h
        = Ok (take k (Man.remaining_list m))
            (mk_heap
               (<[a := Man.mk (Man.mid m) (Man.pref_list m)
                         (drop k (Man.remaining_list m)) (Man.partner m)
                         (Man.partner_rank m) (Man.is_free m)
                         (Man.proposals_made m) (Man.max_proposals m)]>
                  (men_objs h))
               (women_objs h))) ∧
  getSuitressId_times (S (length (Man.remaining_list m))) a h
  = Raise IndexError
      (mk_heap
         (<[a := Man.mk (Man.mid m) (Man.pref_list m) [] (Man.partner m)
                   (Man.partner_rank m) (Man.is_free m)
                   (Man.proposals_made m) (Man.max_proposals m)]>
            (men_objs h))
         (women_objs h)).
Proof.
  intros Hm. split.
  - intros k Hk. by apply getSuitressId_times_take.
  - by apply getSuitressId_times_raise.
Qed.

Lemma getSuitressId_enumerates_cell :
  getSuitressId_times 4 1 (cell_heap 0)
  = Ok [0; 3; 2; 1]
      (mk_heap
         (<[1%nat := Man.mk 1 [0; 3; 2; 1] [] None None true 0 4]>
            (men_objs (cell_heap 0)))
         (women_objs (cell_heap 0))) ∧
  getSuitressId_times 5 1 (cell_heap 0)
  = Raise IndexError
      (mk_heap
         (<[1%nat := Man.mk 1 [0; 3; 2; 1] [] None None true 0 4]>
            (men_objs (cell_heap 0)))
         (women_objs (cell_heap 0))).
Proof.
  assert (men_objs (cell_heap 0) !! 1%nat
          = Some (Man.__init__ 1 [0; 3; 2; 1])) as Hm
    by (vm_compute; reflexivity).
  split.
  - apply (proj1 (getSuitressId_enumerates (cell_heap 0) 1 _ Hm) 4%nat).
    simpl. lia.
  - apply (proj2 (getSuitressId_enumerates (cell_heap 0) 1 _ Hm)).
Defined.

(** X2.  [updatePartner] on a woman whose id is on the man's list records
    her, her rank in his list and [is_free = False].  When her id is not on
    his list, [index] raises [ValueError] after [partner] was assigned: the
    man is left holding her as partner while still free and with his old
    rank. *)
Theorem updatePartner_outcomes h a m b w :
  men_objs h !! a = Some m →
  women_objs h !! b = Some w →
  (∀ r, index (Man.pref_list m) (Woman.wid w) = Some r →
        (∀ j, (j < r)%nat → Man.pref_list m !! j ≠ Some (Woman.wid w)) ∧
        Man.pref_list m !! r = Some (Woman.wid w) ∧
        Man_updatePartner a b h
        = Ok ()
            (mk_heap
               (<[a := Man.mk (Man.mid m) (Man.pref_list m)
                         (Man.remaining_list m) (Some b) (Some r) false
                         (Man.proposals_made m) (Man.max_proposals m)]>
                  (men_objs h))
               (women_objs h))) ∧
  (Woman.wid w ∉ Man.pref_list m →
   Man_updatePartner a b h
   = Raise ValueError
       (mk_heap
          (<[a := Man.mk (Man.mid m) (Man.pref_list m)
                    (Man.remaining_list m) (Some b) (Man.partner_rank m)
                    (Man.is_free m) (Man.proposals_made m)
                    (Man.max_proposals m)]>
             (men_objs h))
          (women_objs h))).
Proof.
  intros Hm Hw. split.
  - intros r Hr. split_and!.
    + intros j Hj Hlk. pose proof (index_first _ _ _ _ Hr Hlk). lia.
    + by apply index_lookup.
    + by eapply updatePartner_Ok.
  - intros Hnot.
    assert (index (Man.pref_list m) (Woman.wid w) = None) as Hnone.
    { destruct (index _ _) as [r|] eqn:Hr; [|done].
      exfalso. apply Hnot, list_elem_of_lookup.
      eauto using index_lookup. }
    unfold Man_updatePartner. by run_store.
Qed.

Lemma updatePartner_outcomes_cell :
  Man_updatePartner 1 3 (cell_heap 0)
  = Ok ()
      (mk_heap
         (<[1%nat := Man.mk 1 [0; 3; 2; 1] [0; 3; 2; 1] (Some 3%nat)
                       (Some 1%nat) false 0 4]>
            (men_objs (cell_heap 0)))
         (women_objs (cell_heap 0))).
Proof.
  assert (men_objs (cell_heap 0) !! 1%nat
          = Some (Man.__init__ 1 [0; 3; 2; 1])) as Hm
    by (vm_compute; reflexivity).
  assert (women_objs (cell_heap 0) !! 3%nat
          = Some (Woman.__init__ 3 [3; 2; 1; 0])) as Hw
    by (vm_compute; reflexivity).
  apply (proj1 (updatePartner_outcomes (cell_heap 0) 1 _ 3 _ Hm Hw) 1%nat).
  reflexivity.
Defined.

(** ** [getSuitress] *)

Lemma getSuitress_loop_none sw gw x h len : ∀ k,
  (∀ i, (k ≤ i < k + len)%nat →
        is_Some (engine_wid sw h i) ∧ engine_wid sw h i ≠ Some x) →
  getSuitress_loop sw gw x (seq k len) h = Ok None h.
Proof.
  induction len as [|len IH]; intros k Hall; [done|].
  destruct (Hall k) as [[y Hy] Hne]; [lia|].
  unfold engine_wid in Hy, Hne.
  simpl. destruct (sw !! k) as [b|]; [|done]. simpl in Hy, Hne.
  destruct (women_objs h !! b) as [w|] eqn:Hw; [|done].
  simpl in Hy, Hne. run_store.
  destruct (Z.eqb_spec (Woman.wid w) x) as [Heq|_]; [by rewrite Heq in Hne|].
  apply IH. intros i Hi. apply Hall. lia.
Qed.

Lemma getSuitress_loop_first sw gw x h i len : ∀ k,
  (k ≤ i < k + len)%nat →
  engine_wid sw h i = Some x →
  (∀ j, (k ≤ j < i)%nat →
        is_Some (engine_wid sw h j) ∧ engine_wid sw h j ≠ Some x) →
  getSuitress_loop sw gw x (seq k len) h
  = match gw !! i with
    | Some b' => Ok (Some b') h
    | None => Raise IndexError h
    end.
Proof.
  induction len as [|len IH]; intros k Hi Hx Hbefore; [lia|].
  simpl. destruct (decide (k = i)) as [->|Hne].
  - unfold engine_wid in Hx.
    destruct (sw !! i) as [b|]; [|done]. simpl in Hx.
    destruct (women_objs h !! b) as [w|] eqn:Hw; [|done].
    injection Hx as Hx. run_store. rewrite Hx, Z.eqb_refl.
    by destruct (gw !! i).
  - destruct (Hbefore k) as [[y Hy] Hney]; [lia|].
    unfold engine_wid in Hy, Hney.
    destruct (sw !! k) as [b|]; [|done]. simpl in Hy, Hney.
    destruct (women_objs h !! b) as [w|] eqn:Hw; [|done].
    simpl in Hy, Hney. run_store.
    destruct (Z.eqb_spec (Woman.wid w) x) as [Heq|_];
      [by rewrite Heq in Hney|].
    apply IH; [lia|done|]. intros j Hj. apply Hbefore. lia.
Qed.

(** X3.  [getSuitress(wid)] looks through the first [applicants] women of
    the engine's own list: when none has the id it returns [None]; otherwise
    it stops at the first position [i] that has it and returns the element
    at position [i] of the module-level list [women], or raises [IndexError]
    when that list is too short.  It writes nothing. *)
Theorem getSuitress_first_position g x self h :
  (∀ i, (i < Stable_Marriages.applicants self)%nat →
        is_Some (engine_wid (Stable_Marriages.women self) h i)) →
  ((∀ i, (i < Stable_Marriages.applicants self)%nat →
         engine_wid (Stable_Marriages.women self) h i ≠ Some x) →
   Stable_Marriages_getSuitress g x (self, h) = Ok None (self, h)) ∧
  (∀ i, (i < Stable_Marriages.applicants self)%nat →
        engine_wid (Stable_Marriages.women self) h i = Some x →
        (∀ j, (j < i)%nat →
              engine_wid (Stable_Marriages.women self) h j ≠ Some x) →
        Stable_Marriages_getSuitress g x (self, h)
        = match women g !! i with
          | Some b' => Ok (Some b') (self, h)
          | None => Raise IndexError (self, h)
          end).
Proof.
  intros Hvalid. unfold Stable_Marriages_getSuitress. split.
  - intros Hnone. unfold_M. simpl.
    rewrite getSuitress_loop_none; [done|].
    intros i Hi. split; [apply Hvalid|apply Hnone]; lia.
  - intros i Hi Hx Hfirst. unfold_M. simpl.
    rewrite (getSuitress_loop_first _ _ _ _ i); [|lia|done|].
    + by destruct (women g !! i).
    + intros j Hj. split; [apply Hvalid|apply Hfirst]; lia.
Qed.

Lemma getSuitress_first_position_cell :
  Stable_Marriages_getSuitress cell_globals 2 (cell_engine 0, cell_heap 0)
  = Ok (Some 2%nat) (cell_engine 0, cell_heap 0) ∧
  Stable_Marriages_getSuitress cell_globals 7 (cell_engine 0, cell_heap 0)
  = Ok None (cell_engine 0, cell_heap 0).
Proof.
  assert (∀ i, (i < Stable_Marriages.applicants (cell_engine 0))%nat →
               engine_wid (Stable_Marriages.women (cell_engine 0))
                 (cell_heap 0) i = Some (Z.of_nat i)) as Hwid.
  { intros i Hi. change (i < 4)%nat in Hi.
    destruct i as [|[|[|[|i]]]]; [vm_compute; reflexivity..|lia]. }
  split.
  - apply (proj2 (getSuitress_first_position cell_globals 2 (cell_engine 0)
                    (cell_heap 0) (λ i Hi, ex_intro _ _ (Hwid i Hi)))
             2%nat).
    + vm_compute. lia.
    + vm_compute. reflexivity.
    + intros j Hj. rewrite Hwid; [intros [=]; lia|]. vm_compute. lia.
  - apply (proj1 (getSuitress_first_position cell_globals 7 (cell_engine 0)
                    (cell_heap 0) (λ i Hi, ex_intro _ _ (Hwid i Hi)))).
    intros i Hi. rewrite (Hwid i Hi). intros [=].
    change (i < 4)%nat in Hi. lia.
Defined.

(** ** The constructor of the engine *)

Lemma init_matching_status_values l : ∀ acc h d,
  init_matching_status l acc h = Ok d h →
  ∀ i st, d !! i = Some st →
          acc !! i = Some st ∨
          (st = Stable_Marriages.mk_status None true 0 ∧
           ∃ a m, a ∈ l ∧ men_objs h !! a = Some m ∧ Man.mid m = i).
Proof.
  induction l as [|a l IH]; intros acc h d; simpl.
  - intros [= <-] i st Hi. by left.
  - destruct (men_objs h !! a) as [m|] eqn:Hm; [|by run_store].
    run_store. intros Hd i st Hi.
    destruct (IH _ _ _ Hd i st Hi) as [Hacc|(-> & a' & m' & Ha' & Hm' & <-)].
    + apply lookup_insert_Some in Hacc as [(<- & <-)|(_ & Hacc)]; [|by left].
      right. split; [done|]. exists a, m. split_and!; [left|done..].
    + right. split; [done|]. exists a', m'. split_and!; [by right|done..].
Qed.

(** X4.  The constructor, given two lists of equal length, returns an
    engine that holds the two lists as they are, [applicants] and [freeMen]
    both equal to their length, and a [matching_status] with one entry per
    id of the men, all [{partner_id: None, free: True, proposals: 0}]: it
    does not look at the men's own state, and men with the same id share an
    entry.  [pairings] read right then maps exactly these ids to [None].
    The store is not written. *)
Theorem constructor_initial_engine men women h :
  length men = length women →
  (∀ a, a ∈ men → is_Some (men_objs h !! a)) →
  ∃ e, Stable_Marriages__init__ men women h = Ok e h ∧
       Stable_Marriages.men e = men ∧
       Stable_Marriages.women e = women ∧
       Stable_Marriages.applicants e = length men ∧
       Stable_Marriages.freeMen e = Z.of_nat (length men) ∧
       (∀ a m, a ∈ men → men_objs h !! a = Some m →
               Stable_Marriages.matching_status e !! Man.mid m
               = Some (Stable_Marriages.mk_status None true 0)) ∧
       (∀ i v, Stable_Marriages_pairings e !! i = Some v →
               v = None ∧
               ∃ a m, a ∈ men ∧ men_objs h !! a = Some m ∧ Man.mid m = i).
Proof.
  intros Hlen Hmen.
  destruct (init_matching_status_spec men ∅ h Hmen) as (d & Hd & Hdom).
  exists (Stable_Marriages.mk men women (length men)
            (Z.of_nat (length men)) d).
  split_and!; try done.
  - unfold Stable_Marriages__init__.
    destruct (Nat.eqb_spec (length men) (length women)); [|done].
    simpl. by rewrite (bind_Ok _ _ _ _ _ Hd).
  - intros a m Ha Hm. simpl.
    destruct (proj2 (Hdom (Man.mid m))) as [st Hst]; [right; eauto|].
    destruct (init_matching_status_values _ _ _ _ Hd _ _ Hst)
      as [Hacc|[-> _]]; [by rewrite lookup_empty in Hacc|done].
  - intros i v. unfold Stable_Marriages_pairings. simpl.
    rewrite lookup_fmap. destruct (d !! i) as [st|] eqn:Hst; [|done].
    intros [= <-].
    destruct (init_matching_status_values _ _ _ _ Hd _ _ Hst)
      as [Hacc|[-> ?]]; [by rewrite lookup_empty in Hacc|done].
Qed.

(** A second engine built on the agents the code cell has matched. *)
Lemma constructor_initial_engine_cell :
  ∃ e, Stable_Marriages__init__ (seq 0 4) (seq 0 4) (cell_heap 6)
       = Ok e (cell_heap 6) ∧
       Stable_Marriages.freeMen e = 4 ∧
       (∀ i v, Stable_Marriages_pairings e !! i = Some v → v = None).
Proof.
  destruct (constructor_initial_engine (seq 0 4) (seq 0 4) (cell_heap 6))
    as (e & He & _ & _ & _ & Hfree & _ & Hp).
  - reflexivity.
  - intros a Ha%elem_of_seq. apply lookup_lt_is_Some_2.
    change (a < 4)%nat. lia.
  - exists e. split_and!; [done|done|]. intros i v Hv. by apply (Hp i v).
Defined.

(** ** Errors of [Woman.decide] *)

(** X5.  The three ways [decide] raises.  [ValueError]: the man's id is not
    on her list.  [TypeError]: she is not free and her [partner_rank] is
    [None].  [AttributeError]: she is not free, ranks the suitor before her
    partner's rank, and her [partner] is [None].  Each time the call has
    been counted in [proposals_received] and nothing else was written. *)
Theorem decide_raises h self man w m :
  women_objs h !! self = Some w →
  men_objs h !! man = Some m →
  let counted :=
    mk_heap (men_objs h)
      (<[self := Woman.mk (Woman.wid w) (Woman.pref_list w) (Woman.partner w)
                   (Woman.partner_rank w) (Woman.is_free w)
                   (S (Woman.proposals_received w))]> (women_objs h)) in
  (Man.mid m ∉ Woman.pref_list w →
   Woman_decide self man h = Raise ValueError counted) ∧
  (Man.mid m ∈ Woman.pref_list w →
   Woman.is_free w = false → Woman.partner_rank w = None →
   Woman_decide self man h = Raise TypeError counted) ∧
  (∀ r pr, index (Woman.pref_list w) (Man.mid m) = Some r →
           Woman.is_free w = false → Woman.partner_rank w = Some pr →
           (r < pr)%nat → Woman.partner w = None →
           Woman_decide self man h = Raise AttributeError counted).
Proof.
  intros Hw Hm counted. split_and!.
  - intros Hnot.
    assert (index (Woman.pref_list w) (Man.mid m) = None) as Hnone.
    { destruct (index _ _) as [r|] eqn:Hr; [|done].
      exfalso. apply Hnot, list_elem_of_lookup.
      eauto using index_lookup. }
    unfold Woman_decide. by run_store.
  - intros [r Hr]%index_is_Some Hnf Hnone.
    unfold Woman_decide. run_store. rewrite Hnf, Hnone. by run_store.
  - intros r pr Hr Hnf Hpr Hlt Hnone.
    unfold Woman_decide. run_store. rewrite Hnf, Hpr. run_store.
    destruct (Nat.ltb_spec r pr); [|lia]. run_store.
    rewrite Hnone. by run_store.
Qed.

(** Woman 0 of the scenario's women, asked by a man whose id 9 she does not
    list. *)
Lemma decide_raises_stranger :
  Woman_decide 0 0 (fresh_heap [(9, [0])] scenario_women)
  = Raise ValueError
      (mk_heap (men_objs (fresh_heap [(9, [0])] scenario_women))
         (<[0%nat := Woman.mk 0 [0; 1; 2; 3] None None true 1]>
            (women_objs (fresh_heap [(9, [0])] scenario_women)))).
Proof.
  apply (proj1 (decide_raises (fresh_heap [(9, [0])] scenario_women) 0 0
                  (Woman.__init__ 0 [0; 1; 2; 3]) (Man.__init__ 9 [0])
                  eq_refl eq_refl)).
  simpl. rewrite !elem_of_cons, elem_of_nil. lia.
Defined.

(** ** Edges of the loop of [match] *)

Lemma getSuitress_men_irrelevant g x self h r h' :
  women_objs h' = women_objs h →
  Stable_Marriages_getSuitress g x (self, h) = Ok r (self, h) →
  Stable_Marriages_getSuitress g x (self, h') = Ok r (self, h').
Proof.
  intros Heq. unfold Stable_Marriages_getSuitress. unfold_M. simpl.
  destruct (getSuitress_loop _ _ _ _ h) as [r0 h0|e h0|] eqn:Hloop;
    intros [= -> ->].
  by rewrite (getSuitress_loop_women _ _ _ _ _ _ _ Heq Hloop).
Qed.

(** X6.  A suitor whose next id names no woman of the engine: [match]
    raises [AttributeError] (the call of [decide] on [None]); the suitor has
    already popped the id and counted the proposal, and the engine's
    [freeMen] and [matching_status] are as before the iteration. *)
Theorem unknown_woman_raises fuel g rounds self h a m x rest :
  0 < Stable_Marriages.freeMen self →
  find_free_man (men g) h = Ok (Some a) h →
  men_objs h !! a = Some m →
  (Man.proposals_made m < Stable_Marriages.applicants self)%nat →
  Man.remaining_list m = x :: rest →
  Stable_Marriages_getSuitress g x (self, h) = Ok None (self, h) →
  match_loop (S fuel) g rounds (self, h)
  = Some (rounds,
          Raise AttributeError
            (self,
             mk_heap
               (<[a := Man.mk (Man.mid m) (Man.pref_list m) rest
                         (Man.partner m) (Man.partner_rank m) (Man.is_free m)
                         (S (Man.proposals_made m)) (Man.max_proposals m)]>
                  (men_objs h))
               (women_objs h))).
Proof.
  intros Hpos Hfind Hm Hlt Hrem Hnone.
  simpl. destruct (Z.ltb_spec 0 (Stable_Marriages.freeMen self)); [|lia].
  unfold match_body.
  rewrite (bind_Ok _ _ (self, h) (Some a) (self, h))
    by (unfold lift; simpl; by rewrite Hfind).
  rewrite (bind_Ok _ _ (self, h) m (self, h))
    by (unfold lift; simpl; by rewrite (get_man_Ok _ _ _ Hm)).
  rewrite (bind_Ok _ _ (self, h) self (self, h)) by done.
  destruct (Nat.ltb_spec (Man.proposals_made m)
              (Stable_Marriages.applicants self)); [|lia].
  erewrite bind_Ok
    by (unfold lift; simpl; by erewrite getSuitressId_Ok by eauto).
  erewrite bind_Ok by (by eapply getSuitress_men_irrelevant; [|apply Hnone]).
  by run_store.
Qed.

(** A single man who lists the id 5, which no woman has. *)
Lemma unknown_woman_raises_5 :
  match_loop 1 (driver_globals [(0, [5])] [(0, [0])]) 0
    (engine_after [(0, [5])] [(0, [0])] 0, heap_after [(0, [5])] [(0, [0])] 0)
  = Some (0%nat,
          Raise AttributeError
            (engine_after [(0, [5])] [(0, [0])] 0,
             mk_heap
               (<[0%nat := Man.mk 0 [5] [] None None true 1 1]>
                  (men_objs (heap_after [(0, [5])] [(0, [0])] 0)))
               (women_objs (heap_after [(0, [5])] [(0, [0])] 0)))).
Proof.
  apply (unknown_woman_raises 0 (driver_globals [(0, [5])] [(0, [0])]) 0
           (engine_after [(0, [5])] [(0, [0])] 0)
           (heap_after [(0, [5])] [(0, [0])] 0) 0
           (Man.__init__ 0 [5]) 5 []).
  - vm_compute. reflexivity.
  - vm_compute. reflexivity.
  - vm_compute. reflexivity.
  - vm_compute. lia.
  - reflexivity.
  - vm_compute. reflexivity.
Defined.

(** X7.  When no man of the module-level list [men] is free, [match]
    returns [None] at once and writes nothing, whatever [freeMen] says:
    either the loop is not entered or its scan finds no suitor and breaks.
    So a second run on the same engine, or the run of a second engine built
    on agents that are all engaged, makes no proposal. *)
Theorem no_free_man_no_round g self h :
  (∀ a, a ∈ men g → ∃ m, men_objs h !! a = Some m ∧ Man.is_free m = false) →
  Stable_Marriages_match g (self, h) = (0%nat, Ok None (self, h)) ∧
  ∀ fuel rounds,
    match_loop (S fuel) g rounds (self, h) = Some (rounds, Ok None (self, h)).
Proof.
  intros Hall.
  assert (find_free_man (men g) h = Ok None h) as Hfind.
  { destruct (find_free_man_spec (men g) h) as (r & Hr & Hspec).
    { intros a Ha. destruct (Hall a Ha) as (m & -> & _). eauto. }
    destruct r as [a|]; [|done].
    destruct Hspec as (Ha & m & Hm & Hfree).
    destruct (Hall a Ha) as (m' & Hm' & Hnf). congruence. }
  assert (∀ fuel rounds,
            match_loop (S fuel) g rounds (self, h)
            = Some (rounds, Ok None (self, h))) as Hloop.
  { intros fuel rounds. simpl. destruct (0 <? _); [|done].
    unfold match_body.
    by rewrite (bind_Ok _ _ (self, h) None (self, h))
      by (unfold lift; simpl; by rewrite Hfind). }
  split; [|done]. unfold Stable_Marriages_match. by rewrite Hloop.
Qed.

(** A second call of [match] on the engine of the code cell. *)
Lemma no_free_man_no_round_cell :
  Stable_Marriages_match cell_globals (cell_engine 6, cell_heap 6)
  = (0%nat, Ok None (cell_engine 6, cell_heap 6)).
Proof.
  refine (proj1 (no_free_man_no_round cell_globals (cell_engine 6)
                   (cell_heap 6) _)).
  intros a Ha. change (a ∈ seq 0 4) in Ha. apply elem_of_seq in Ha.
  destruct a as [|[|[|[|a]]]]; [eexists; split; vm_compute; reflexivity..|lia].
Defined.

(** ** [match] terminates on every store *)

Lemma match_loop_more_fuel fuel : ∀ g rounds s x k,
  match_loop fuel g rounds s = Some x →
  match_loop (fuel + k) g rounds s = Some x.
Proof.
  induction fuel as [|fuel IH]; intros g rounds s x k; [done|].
  simpl. destruct (0 <? _); [|done].
  destruct (match_body g s) as [[| |msg] s'|e s'|]; try done. apply IH.
Qed.

Lemma match_loop_rounds fuel : ∀ g rounds s n res,
  match_loop fuel g rounds s = Some (n, res) →
  (rounds ≤ n ≤ rounds + budget s)%nat.
Proof.
  induction fuel as [|fuel IH]; intros g rounds s n res; [done|].
  simpl. destruct (0 <? _); [|intros [= <- <-]; lia].
  destruct (match_body g s) as [[| |msg] s'|e s'|] eqn:Hbody;
    try (intros [= <- <-]; lia).
  intros Hloop. apply IH in Hloop.
  apply match_body_budget in Hbody. lia.
Qed.

(** X8.  [match] terminates on every engine and store, valid or not: the
    loop ends after at most one iteration per proposal that the men of the
    store can still make below [applicants], which is at most [applicants]
    per man.  More fuel than that bound never changes the result. *)
Theorem match_terminates g s :
  ∃ n res,
    Stable_Marriages_match g s = (n, res) ∧
    (∀ fuel, (budget s < fuel)%nat → match_loop fuel g 0 s = Some (n, res)) ∧
    (n ≤ budget s)%nat ∧
    (budget s ≤ length (men_objs s.2) * Stable_Marriages.applicants s.1)%nat.
Proof.
  destruct (Stable_Marriages_match g s) as [n res] eqn:Hmatch.
  pose proof (Stable_Marriages_match_loop g s) as Hloop.
  rewrite Hmatch in Hloop.
  exists n, res. split_and!; [done| | |].
  - intros fuel Hfuel.
    replace fuel with (S (budget s) + (fuel - S (budget s)))%nat by lia.
    by apply match_loop_more_fuel.
  - apply match_loop_rounds in Hloop. lia.
  - unfold budget. apply sum_list_bound. intros i m _. lia.
Qed.

(** ** What [match] never changes *)

#[local] Instance man_grows_preorder : PreOrder man_grows.
Proof.
  split.
  - by intros m.
  - intros m1 m2 m3 (? & ? & ? & ? & ?) (? & ? & ? & ? & ?).
    split_and!; try congruence; [lia|by etrans].
Qed.

#[local] Instance woman_grows_preorder : PreOrder woman_grows.
Proof.
  split.
  - by intros w.
  - intros w1 w2 w3 (? & ? & ?) (? & ? & ?).
    split_and!; try congruence. lia.
Qed.

#[local] Instance store_grows_preorder : PreOrder store_grows.
Proof.
  split.
  - intros h. split; reflexivity.
  - intros h1 h2 h3 [? ?] [? ?]. split; by etrans.
Qed.

#[local] Instance engine_grows_preorder : PreOrder engine_grows.
Proof.
  split.
  - by intros e.
  - intros e1 e2 e3 (? & ? & ? & ?) (? & ? & ? & ?).
    split_and!; try congruence. eauto.
Qed.

#[local] Instance state_grows_preorder : PreOrder state_grows.
Proof.
  split.
  - by intros s.
  - intros s1 s2 s3 [? ?] [? ?]. split; by etrans.
Qed.

Lemma keeps_ret {S A} (R : relation S) `{!Reflexive R} (a : A) :
  keeps R (mret a).
Proof. by intros s s' [= <-]. Qed.

Lemma keeps_raise {S A} (R : relation S) `{!Reflexive R} e :
  keeps R (raise (A := A) e).
Proof. by intros s s' [= <-]. Qed.

Lemma keeps_bind {S A B} (R : relation S) `{!Transitive R}
    (c : M S A) (k : A → M S B) :
  keeps R c → (∀ a, keeps R (k a)) → keeps R (c ≫= k).
Proof.
  intros Hc Hk s s'. unfold mbind, M_bind.
  destruct (c s) as [a s1|e s1|] eqn:Hcs; simpl.
  - intros Hks. trans s1; [apply Hc|by eapply Hk]. by rewrite Hcs.
  - intros [= <-]. apply Hc. by rewrite Hcs.
  - done.
Qed.

Lemma keeps_get_man a : keeps store_grows (get_man a).
Proof.
  intros h h'. unfold get_man. destruct (men_objs h !! a); [|done].
  by intros [= <-].
Qed.

Lemma keeps_get_woman b : keeps store_grows (get_woman b).
Proof.
  intros h h'. unfold get_woman. destruct (women_objs h !! b); [|done].
  by intros [= <-].
Qed.

Lemma Forall2_insert_same {A} (R : relation A) `{!Reflexive R}
    (l : list A) i x y :
  l !! i = Some x → R x y → Forall2 R l (<[i := y]> l).
Proof.
  intros Hi Hxy. rewrite <-(list_insert_id l i x Hi) at 1.
  apply Forall2_insert; [|done]. reflexivity.
Qed.

Lemma store_grows_man h a m m' :
  men_objs h !! a = Some m → man_grows m m' →
  store_grows h (mk_heap (<[a := m']> (men_objs h)) (women_objs h)).
Proof.
  intros Hm Hg. split; simpl; [by eapply Forall2_insert_same|].
  reflexivity.
Qed.

Lemma store_grows_woman h b w w' :
  women_objs h !! b = Some w → woman_grows w w' →
  store_grows h (mk_heap (men_objs h) (<[b := w']> (women_objs h))).
Proof.
  intros Hw Hg. split; simpl; [|by eapply Forall2_insert_same].
  reflexivity.
Qed.

Lemma keeps_upd_man a f :
  (∀ m, man_grows m (f m)) → keeps store_grows (upd_man a f).
Proof.
  intros Hf h h'. unfold upd_man.
  destruct (men_objs h !! a) as [m|] eqn:Hm; [|done].
  intros [= <-]. by eapply store_grows_man.
Qed.

Lemma keeps_upd_woman b f :
  (∀ w, woman_grows w (f w)) → keeps store_grows (upd_woman b f).
Proof.
  intros Hf h h'. unfold upd_woman.
  destruct (women_objs h !! b) as [w|] eqn:Hw; [|done].
  intros [= <-]. by eapply store_grows_woman.
Qed.

Lemma keeps_find_free_man l : keeps store_grows (find_free_man l).
Proof.
  intros h h' Hfinal.
  by rewrite (find_free_man_reads l h _ h' eq_refl Hfinal).
Qed.

Lemma keeps_getSuitress_loop sw gw x range :
  keeps store_grows (getSuitress_loop sw gw x range).
Proof.
  intros h h' Hfinal.
  by rewrite (getSuitress_loop_reads sw gw x range h _ h' eq_refl Hfinal).
Qed.

Lemma keeps_getSuitressId a : keeps store_grows (Man_getSuitressId a).
Proof.
  intros h h'. unfold Man_getSuitressId.
  destruct (men_objs h !! a) as [m|] eqn:Hm; [|by run_store].
  run_store. destruct (Man.remaining_list m) as [|x rest] eqn:Hrem.
  - by intros [= <-].
  - run_store. intros [= <-]. eapply store_grows_man; [done|].
    split_and!; try done. simpl. rewrite Hrem. by apply suffix_cons_r.
Qed.

Ltac keeps_step :=
  first
    [ apply keeps_ret; apply _
    | apply keeps_raise; apply _
    | apply keeps_get_man
    | apply keeps_get_woman
    | apply keeps_upd_man; intros ?; by split_and!
    | apply keeps_upd_woman; intros ?; by split_and!
    | apply keeps_bind; [apply _| |intros ?]
    | match goal with
      | |- keeps _ (match ?x with _ => _ end) => destruct x
      | |- keeps _ (if ?x then _ else _) => destruct x
      end ].

Lemma keeps_updatePartner a b : keeps store_grows (Man_updatePartner a b).
Proof. unfold Man_updatePartner. repeat keeps_step. Qed.

Lemma keeps_counted {A} self (k : () → M heap A) :
  keeps store_grows (k ()) →
  keeps store_grows
    (get_woman self ≫= λ w0,
       upd_woman self
         (Woman.set_proposals_received (S (Woman.proposals_received w0)))
       ≫= k).
Proof.
  intros Hk h h'.
  destruct (women_objs h !! self) as [w0|] eqn:Hw0; [|by run_store].
  rewrite (bind_Ok _ _ _ _ _ (get_woman_Ok _ _ _ Hw0)).
  rewrite (bind_Ok _ _ _ _ _ (upd_woman_Ok _ _ _ _ Hw0)).
  intros Hfinal. etrans; [|by apply Hk].
  eapply (store_grows_woman h self w0); [done|].
  split_and!; [done|done|]. simpl. lia.
Qed.

Lemma keeps_decide self man : keeps store_grows (Woman_decide self man).
Proof. unfold Woman_decide. apply keeps_counted. repeat keeps_step. Qed.

Lemma keeps_lift {A} (c : M heap A) :
  keeps store_grows c → keeps state_grows (lift c).
Proof.
  intros Hc s s'. unfold lift.
  destruct (c s.2) as [a h|e h|] eqn:Hcs; simpl; [| |done].
  - intros [= <-]. split; [done|]. apply Hc. by rewrite Hcs.
  - intros [= <-]. split; [done|]. apply Hc. by rewrite Hcs.
Qed.

Lemma keeps_get_self : keeps state_grows get_self.
Proof. by intros s s' [= <-]. Qed.

Lemma keeps_upd_self f :
  (∀ e, engine_grows e (f e)) → keeps state_grows (upd_self f).
Proof. intros Hf s s' [= <-]. split; [apply Hf|done]. Qed.

Lemma engine_grows_status e i st :
  engine_grows e
    (Stable_Marriages.set_matching_status
       (<[i := st]> (Stable_Marriages.matching_status e)) e).
Proof.
  split_and!; try done. intros j Hj. simpl.
  rewrite lookup_insert_is_Some. destruct (decide (i = j)); eauto.
Qed.

Lemma keeps_getSuitress g x :
  keeps state_grows (Stable_Marriages_getSuitress g x).
Proof.
  unfold Stable_Marriages_getSuitress.
  apply keeps_bind; [apply _|apply keeps_get_self|intros self].
  apply keeps_lift, keeps_getSuitress_loop.
Qed.

Ltac keeps_sm_step :=
  first
    [ apply keeps_ret; apply _
    | apply keeps_raise; apply _
    | apply keeps_get_self
    | apply keeps_getSuitress
    | apply keeps_upd_self; intros ?; first [apply engine_grows_status
                                            | by split_and! ]
    | apply keeps_lift;
      first [ apply keeps_find_free_man | apply keeps_getSuitressId
            | apply keeps_decide | apply keeps_updatePartner
            | apply keeps_get_man | apply keeps_get_woman
            | apply keeps_upd_man; intros ?; split_and!; simpl; (done || lia) ]
    | apply keeps_bind; [apply _| |intros ?]
    | match goal with
      | |- keeps _ (match ?x with _ => _ end) => destruct x
      | |- keeps _ (if ?x then _ else _) => destruct x
      end ].

Lemma keeps_match_body g : keeps state_grows (match_body g).
Proof. unfold match_body. repeat keeps_sm_step. Qed.

Lemma match_loop_keeps fuel : ∀ g rounds s n res s',
  match_loop fuel g rounds s = Some (n, res) →
  final_store res = Some s' → state_grows s s'.
Proof.
  induction fuel as [|fuel IH]; intros g rounds s n res s'; [done|].
  simpl. destruct (0 <? _); [|by intros [= <- <-] [= <-]].
  pose proof (keeps_match_body g s) as Hbody.
  destruct (match_body g s) as [[| |msg] s1|e s1|]; simpl in Hbody.
  - intros Hloop Hfinal. trans s1; [by apply Hbody|by eapply IH].
  - intros [= <- <-] [= <-]. by apply Hbody.
  - intros [= <- <-] [= <-]. by apply Hbody.
  - intros [= <- <-] [= <-]. by apply Hbody.
  - by intros [= <- <-].
Qed.

(** X9.  Whatever the engine, the store and the module-level lists, and
    whether [match] returns or raises, the state it leaves has the same
    objects at the same places, with the ids, preference lists and
    [max_proposals] they had; [proposals_made] and [proposals_received] have
    not decreased; every [remaining_list] is a tail of what it was; the
    engine has its lists and [applicants], and [matching_status] has kept
    all its keys. *)
Theorem match_keeps_identities g s n res s' :
  Stable_Marriages_match g s = (n, res) →
  final_store res = Some s' →
  engine_grows s.1 s'.1 ∧
  Forall2 man_grows (men_objs s.2) (men_objs s'.2) ∧
  Forall2 woman_grows (women_objs s.2) (women_objs s'.2).
Proof.
  intros Hmatch Hfinal.
  pose proof (Stable_Marriages_match_loop g s) as Hloop.
  rewrite Hmatch in Hloop.
  destruct (match_loop_keeps _ _ _ _ _ _ _ Hloop Hfinal) as [? [? ?]].
  done.
Qed.

Lemma match_keeps_identities_cell :
  engine_grows (cell_state 0).1 (cell_state 6).1 ∧
  Forall2 man_grows (men_objs (cell_state 0).2) (men_objs (cell_state 6).2) ∧
  Forall2 woman_grows (women_objs (cell_state 0).2)
    (women_objs (cell_state 6).2).
Proof.
  apply (match_keeps_identities cell_globals (cell_state 0) 6
           (Ok None (cell_state 6)) (cell_state 6)).
  - vm_compute. reflexivity.
  - reflexivity.
Defined.

(** * More on the run on valid input *)

Lemma index_inj (l : list Z) x y i :
  index l x = Some i → index l y = Some i → x = y.
Proof. intros Hx%index_lookup Hy%index_lookup. congruence. Qed.

Section rounds.
Context (ms ws : list (Z * list Z)) (g : globals).
Hypothesis Hvalid : valid_input ms ws.
Hypothesis Horder : scan_order ms ws g.

Lemma scan_finds_free s :
  Inv ms ws s → 0 < Stable_Marriages.freeMen s.1 →
  ∃ a m, find_free_man (men g) s.2 = Ok (Some a) s.2 ∧
         men_objs s.2 !! a = Some m ∧ Man.is_free m = true.
Proof.
  intros HI Hpos. destruct Horder as [_ Hmen].
  destruct (find_free_man_spec (men g) s.2) as (r & Hr & Hspec).
  { intros a Ha%Hmen. apply lookup_lt_is_Some_2.
    by rewrite (inv_men_len _ _ _ HI). }
  destruct r as [a|].
  - destruct Hspec as (_ & m & Hm & Hfree). eauto.
  - rewrite (inv_free_men _ _ _ HI) in Hpos. unfold free_man_count in Hpos.
    rewrite sum_list_all_zero in Hpos; [lia|].
    intros a m Hm. rewrite (Hspec a m); [done| |done].
    apply Hmen. apply lookup_lt_Some in Hm.
    by rewrite (inv_men_len _ _ _ HI) in Hm.
Qed.

(** The three kinds of round, with the state each leaves. *)
Lemma round_cases self h :
  Inv ms ws (self, h) → 0 < Stable_Marriages.freeMen self →
  ∃ a m b w r,
    men_objs h !! a = Some m ∧ Man.is_free m = true ∧
    Man.pref_list m !! Man.proposals_made m = Some (Woman.wid w) ∧
    women_objs h !! b = Some w ∧
    index (Woman.pref_list w) (Man.mid m) = Some r ∧
    ((Woman.is_free w = true ∧
      match_body g (self, h) = Ok Continue (after_first self h a m b w r) ∧
      Inv ms ws (after_first self h a m b w r)) ∨
     (∃ pr old mo,
        Woman.is_free w = false ∧ Woman.partner_rank w = Some pr ∧
        Woman.partner w = Some old ∧ men_objs h !! old = Some mo ∧
        ((r < pr)%nat ∧
         match_body g (self, h)
         = Ok Continue (after_break_up self h a m b w r old mo) ∧
         Inv ms ws (after_break_up self h a m b w r old mo) ∨
         (pr ≤ r)%nat ∧
         match_body g (self, h) = Ok Continue (after_reject self h a m b w) ∧
         Inv ms ws (after_reject self h a m b w)))).
Proof.
  intros HI Hpos.
  destruct (scan_finds_free _ HI Hpos) as (a & m & Hfind & Hm & Hfree).
  pose proof (Inv_not_exhausted ms ws Hvalid _ _ _ HI Hm Hfree) as Hlt.
  simpl in *.
  destruct (inv_man _ _ _ HI _ _ Hm) as (Hms & Hrem & _). simpl in *.
  pose proof (man_prefs_perm ms ws Hvalid _ _ _ HI Hm) as Hperm.
  assert (length (Man.pref_list m) = length ms) as Hlen.
  { by rewrite Hperm, length_fmap, (valid_length _ _ Hvalid). }
  destruct (lookup_lt_is_Some_2 (Man.pref_list m) (Man.proposals_made m))
    as [x Hx]; [lia|].
  rewrite (drop_S _ _ _ Hx) in Hrem.
  destruct (woman_by_id ms ws (self, h) x HI) as (b & w & Hw & Hid).
  { rewrite <-Hperm. apply list_elem_of_lookup. eauto. }
  simpl in *. subst x.
  pose proof (woman_prefs_perm ms ws Hvalid _ _ _ HI Hw) as Hpermw.
  destruct (index_is_Some (Woman.pref_list w) (Man.mid m)) as [r Hr].
  { rewrite Hpermw. by eapply lookup_elem_of_fst. }
  assert (index (Man.pref_list m) (Woman.wid w)
          = Some (Man.proposals_made m)) as Hrm.
  { apply index_NoDup; [|done]. rewrite Hperm. apply Hvalid. }
  assert (∀ h', women_objs h' = women_objs h →
            getSuitress_loop (Stable_Marriages.women self) (women g)
              (Woman.wid w) (seq 0 (Stable_Marriages.applicants self)) h'
            = Ok (Some b) h') as Hsuitress.
  { intros h' Hh'.
    pose proof (inv_women_field _ _ _ HI) as Hwf.
    pose proof (inv_applicants _ _ _ HI) as Happ. simpl in Hwf, Happ.
    rewrite Hwf, Happ, (proj1 Horder), (valid_length _ _ Hvalid).
    rewrite <-(Nat.sub_0_r (length ws)) at 3.
    eapply getSuitress_loop_found; rewrite ?Hh'; eauto using valid_wids.
    - apply (inv_women_len _ _ _ HI).
    - apply (inv_woman _ _ _ HI).
    - lia. }
  assert (Man.proposals_made m < Stable_Marriages.applicants self)%nat
    as Hlt'.
  { pose proof (inv_applicants _ _ _ HI) as Happ. simpl in Happ.
    by rewrite Happ. }
  exists a, m, b, w, r. split_and!; try done.
  destruct (Woman.is_free w) eqn:Hwfree.
  - left. split_and!; [done|by eapply match_body_first|by apply Inv_first].
  - right.
    destruct (inv_woman_engaged _ _ _ HI _ _ Hw Hwfree)
      as (old & mo & pr & Hold & Hmo & Hmob & Hmonf & Hpr & Hprmo).
    simpl in *. exists pr, old, mo. split_and!; try done.
    destruct (decide (r < pr)%nat) as [Hrlt|Hrge].
    + left. assert (old ≠ a) as Hne by (intros ->; congruence).
      split_and!; [done|by eapply match_body_break_up|by eapply Inv_break_up].
    + right. split_and!; [lia| |].
      * eapply match_body_reject; eauto; [lia|].
        eapply (inv_man_free _ _ _ HI); eauto.
      * eapply Inv_reject; eauto. lia.
Qed.
End rounds.

Section optimal.
Context (ms ws : list (Z * list Z)).
Hypothesis Hvalid : valid_input ms ws.

(** A woman who holds or takes [m1], whom she ranks before [m2], is not
    the partner of [m2] in a stable bijection in which [m1] has none of the
    women he lists before her: there she and [m1] would prefer each
    other. *)
Lemma not_matched_to_rejecter s d' a1 m1 a2 m2 b w k1 r1 r2 :
  Inv ms ws s → bijection ms ws d' → stable ms ws d' →
  men_objs s.2 !! a1 = Some m1 → men_objs s.2 !! a2 = Some m2 →
  women_objs s.2 !! b = Some w →
  Man.pref_list m1 !! k1 = Some (Woman.wid w) →
  (∀ j x, (j < k1)%nat → Man.pref_list m1 !! j = Some x →
          ¬ matched d' (Man.mid m1) x) →
  index (Woman.pref_list w) (Man.mid m1) = Some r1 →
  index (Woman.pref_list w) (Man.mid m2) = Some r2 →
  (r1 < r2)%nat →
  ¬ matched d' (Man.mid m2) (Woman.wid w).
Proof.
  intros HI (Hdom & Hmen & Hwomen) Hstable Hm1 Hm2 Hw Hk1 Hbefore Hr1 Hr2 Hlt
    Hmatched.
  destruct (inv_man _ _ _ HI _ _ Hm1) as (Hms1 & _).
  pose proof (inv_woman _ _ _ HI _ _ Hw) as Hws.
  pose proof (man_prefs_perm ms ws Hvalid _ _ _ HI Hm1) as Hperm.
  assert (NoDup (Man.pref_list m1)) as Hnd by (rewrite Hperm; apply Hvalid).
  destruct (Hmen (Man.mid m1)) as (x0 & Hx0 & Hm1x0);
    [by eapply lookup_elem_of_fst|].
  assert (x0 ≠ Woman.wid w) as Hne.
  { intros ->. destruct (Hwomen (Woman.wid w)) as (p & _ & _ & Huniq);
      [by eapply lookup_elem_of_fst|].
    assert (Man.mid m1 = Man.mid m2) as Heq
      by (rewrite (Huniq _ Hm1x0), (Huniq _ Hmatched); done).
    rewrite Heq in Hr1. assert (r1 = r2) by congruence. lia. }
  assert (x0 ∈ Man.pref_list m1) as [j0 Hj0]%list_elem_of_lookup
    by by rewrite Hperm.
  assert (k1 < j0)%nat as Hkj.
  { destruct (decide (j0 < k1)%nat) as [Hj|Hj].
    - by destruct (Hbefore j0 x0 Hj Hj0).
    - destruct (decide (j0 = k1)) as [->|]; [congruence|lia]. }
  apply (Hstable (Man.mid m1) (Man.pref_list m1) (Woman.wid w)
           (Woman.pref_list w) x0 (Man.mid m2)).
  - apply list_elem_of_lookup. eauto.
  - apply list_elem_of_lookup. eauto.
  - unfold matched in *. congruence.
  - done.
  - done.
  - split.
    + exists k1, j0. split_and!; [by apply index_NoDup..|done].
    + exists r1, r2. by split_and!.
Qed.

Lemma optimal_first self h a m b w r :
  Inv ms ws (self, h) → optimal_so_far ms ws (self, h) →
  men_objs h !! a = Some m → Man.is_free m = true →
  optimal_so_far ms ws (after_first self h a m b w r).
Proof.
  intros HI Hopt Hm Hfree d' Hbij Hstable a' m' k x. simpl.
  intros [(<- & <- & _)|(Hne & Hm')]%list_lookup_insert_Some;
    [|by apply (Hopt d' Hbij Hstable a' m' k x)].
  simpl. intros Hk Hx Hmatched.
  destruct (decide (k = Man.proposals_made m)) as [->|]; [done|].
  destruct (Hopt d' Hbij Hstable a m k x Hm) as [? _]; [lia|done..|].
  congruence.
Qed.

Lemma optimal_reject self h a m b w r pr old mo :
  Inv ms ws (self, h) → optimal_so_far ms ws (self, h) →
  men_objs h !! a = Some m → Man.is_free m = true →
  Man.pref_list m !! Man.proposals_made m = Some (Woman.wid w) →
  women_objs h !! b = Some w →
  index (Woman.pref_list w) (Man.mid m) = Some r →
  Woman.is_free w = false → Woman.partner_rank w = Some pr →
  Woman.partner w = Some old → men_objs h !! old = Some mo →
  (pr ≤ r)%nat →
  optimal_so_far ms ws (after_reject self h a m b w).
Proof.
  intros HI Hopt Hm Hfree Hnext Hw Hr Hwnf Hpr Hold Hmo Hle
    d' Hbij Hstable a' m' k x. simpl.
  intros [(<- & <- & _)|(Hne & Hm')]%list_lookup_insert_Some;
    [|by apply (Hopt d' Hbij Hstable a' m' k x)].
  simpl. intros Hk Hx Hmatched. exfalso.
  destruct (decide (k = Man.proposals_made m)) as [->|].
  2:{ destruct (Hopt d' Hbij Hstable a m k x Hm) as [? _]; [lia|done..|].
      congruence. }
  assert (x = Woman.wid w) as -> by congruence.
  destruct (inv_woman_engaged _ _ _ HI _ _ Hw Hwnf)
    as (old' & mo' & pr' & Hold' & Hmo' & Hmob & Hmonf & Hpr' & Hprmo).
  simpl in *.
  assert (old' = old) as -> by congruence.
  assert (mo' = mo) as -> by congruence.
  assert (pr' = pr) as -> by congruence.
  destruct (inv_man_engaged _ _ _ HI _ _ Hmo Hmonf)
    as (b' & w' & ko & Hp & Hw' & _ & _ & Hko & Hlko & _).
  simpl in *.
  assert (b' = b) as -> by congruence.
  assert (w' = w) as -> by congruence.
  assert (pr ≠ r) as Hner.
  { intros ->. assert (Man.mid mo = Man.mid m) by eauto using index_inj.
    assert (old = a) as -> by (eapply (man_id_unique ms ws); eauto).
    congruence. }
  eapply (not_matched_to_rejecter (self, h) d' old mo a m b w ko pr r);
    eauto; [|lia].
  intros j y Hj Hy Hmy.
  destruct (Hopt d' Hbij Hstable old mo j y Hmo) as [_ ?]; [lia|done..|lia].
Qed.

Lemma optimal_break_up self h a m b w r pr old mo :
  Inv ms ws (self, h) → optimal_so_far ms ws (self, h) →
  men_objs h !! a = Some m → Man.is_free m = true →
  Man.pref_list m !! Man.proposals_made m = Some (Woman.wid w) →
  women_objs h !! b = Some w →
  index (Woman.pref_list w) (Man.mid m) = Some r →
  Woman.is_free w = false → Woman.partner_rank w = Some pr →
  Woman.partner w = Some old → men_objs h !! old = Some mo →
  (r < pr)%nat →
  optimal_so_far ms ws (after_break_up self h a m b w r old mo).
Proof.
  intros HI Hopt Hm Hfree Hnext Hw Hr Hwnf Hpr Hold Hmo Hlt
    d' Hbij Hstable a' m' k x. simpl.
  intros [(<- & <- & _)|(Hne & Hm')]%list_lookup_insert_Some.
  { simpl. intros Hk Hx Hmatched.
    destruct (decide (k = Man.proposals_made m)) as [->|]; [done|].
    destruct (Hopt d' Hbij Hstable a m k x Hm) as [? _]; [lia|done..|].
    congruence. }
  apply list_lookup_insert_Some in Hm' as [(<- & <- & _)|(Hne' & Hm')];
    [|by apply (Hopt d' Hbij Hstable a' m' k x)].
  simpl. intros Hk Hx Hmatched. exfalso.
  destruct (inv_woman_engaged _ _ _ HI _ _ Hw Hwnf)
    as (old' & mo' & pr' & Hold' & Hmo' & Hmob & Hmonf & Hpr' & Hprmo).
  simpl in *.
  assert (old' = old) as -> by congruence.
  assert (mo' = mo) as -> by congruence.
  assert (pr' = pr) as -> by congruence.
  destruct (inv_man_engaged _ _ _ HI _ _ Hmo Hmonf)
    as (b' & w' & ko & Hp & Hw' & _ & _ & Hko & Hlko & _).
  simpl in *.
  assert (b' = b) as -> by congruence.
  assert (w' = w) as -> by congruence.
  destruct (decide (k = ko)) as [->|].
  2:{ destruct (Hopt d' Hbij Hstable old mo k x Hmo) as [_ ?];
        [lia|done..|lia]. }
  assert (x = Woman.wid w) as -> by congruence.
  eapply (not_matched_to_rejecter (self, h) d' a m old mo b w
            (Man.proposals_made m) r pr); eauto.
  intros j y Hj Hy Hmy.
  destruct (Hopt d' Hbij Hstable a m j y Hm) as [? _]; [lia|done..|].
  congruence.
Qed.
End optimal.

Section more.
Context (ms ws : list (Z * list Z)) (g : globals).
Hypothesis Hvalid : valid_input ms ws.
Hypothesis Horder : scan_order ms ws g.

Lemma Inv_more_step s :
  Inv_more ms ws s → 0 < Stable_Marriages.freeMen s.1 →
  ∃ s', match_body g s = Ok Continue s' ∧ Inv_more ms ws s' ∧
        total_proposals s'.2 = S (total_proposals s.2).
Proof.
  destruct s as [self h]. intros [HI Hopt Hrec] Hpos. simpl in *.
  destruct (round_cases ms ws g Hvalid Horder self h HI Hpos)
    as (a & m & b & w & r & Hm & Hfree & Hnext & Hw & Hr & Hcases).
  assert (∀ (m' : Man.t) men0,
            Man.proposals_made m' = S (Man.proposals_made m) →
            men0 !! a = Some m →
            sum_list (Man.proposals_made <$> <[a := m']> men0)
            = S (sum_list (Man.proposals_made <$> men0))) as Hcount.
  { intros m' men0 Hm' Hm0.
    pose proof (sum_list_insert Man.proposals_made _ _ _ m' Hm0). lia. }
  assert (∀ w' : Woman.t,
            Woman.proposals_received w' = S (Woman.proposals_received w) →
            sum_list (Woman.proposals_received <$> <[b := w']> (women_objs h))
            = S (total_received h)) as Hcountw.
  { intros w' Hw'.
    pose proof (sum_list_insert Woman.proposals_received _ _ _ w' Hw).
    unfold total_received. lia. }
  destruct Hcases as [(Hwfree & Hbody & HI')|
    (pr & old & mo & Hwnf & Hpr & Hold & Hmo &
     [(Hlt & Hbody & HI')|(Hle & Hbody & HI')])].
  - eexists. split; [done|].
    assert (total_proposals (after_first self h a m b w r).2
            = S (total_proposals h)) as Htot
      by (unfold total_proposals; simpl; by apply Hcount).
    split; [split|done].
    + done.
    + by apply optimal_first.
    + rewrite Htot, <-Hrec. unfold total_received at 1. simpl.
      by apply Hcountw.
  - eexists. split; [done|].
    assert (old ≠ a).
    { intros ->. destruct (inv_woman_engaged _ _ _ HI _ _ Hw Hwnf)
        as (? & ? & ? & ? & ? & ? & ? & ?). simpl in *. congruence. }
    assert (total_proposals (after_break_up self h a m b w r old mo).2
            = S (total_proposals h)) as Htot.
    { unfold total_proposals. simpl. rewrite Hcount; [|done|].
      - f_equal.
        pose proof (sum_list_insert Man.proposals_made _ _ _
                      (freed_man mo) Hmo) as Hs.
        simpl in Hs. lia.
      - by rewrite list_lookup_insert_ne. }
    split; [split|done].
    + done.
    + by eapply optimal_break_up.
    + rewrite Htot, <-Hrec. unfold total_received at 1. simpl.
      by apply Hcountw.
  - eexists. split; [done|].
    assert (total_proposals (after_reject self h a m b w).2
            = S (total_proposals h)) as Htot
      by (unfold total_proposals; simpl; by apply Hcount).
    split; [split|done].
    + done.
    + by eapply optimal_reject.
    + rewrite Htot, <-Hrec. unfold total_received at 1. simpl.
      by apply Hcountw.
Qed.

Lemma match_loop_Inv_more fuel : ∀ s rounds,
  Inv_more ms ws s → (budget s < fuel)%nat →
  ∃ s' k, match_loop fuel g rounds s = Some ((rounds + k)%nat, Ok None s') ∧
          Inv_more ms ws s' ∧ Stable_Marriages.freeMen s'.1 ≤ 0 ∧
          total_proposals s'.2 = (total_proposals s.2 + k)%nat.
Proof.
  induction fuel as [|fuel IH]; intros s rounds HI Hfuel; [lia|].
  simpl. destruct (Z.ltb_spec 0 (Stable_Marriages.freeMen s.1)) as [Hpos|].
  - destruct (Inv_more_step s HI Hpos) as (s1 & -> & HI1 & Htot).
    pose proof (Inv_total_bound ms ws s (more_inv _ _ _ HI)).
    pose proof (Inv_total_bound ms ws s1 (more_inv _ _ _ HI1)).
    destruct (IH s1 (S rounds) HI1) as (s' & k & Hloop & HI' & Hfm & Htot');
      [lia|].
    exists s', (S k). rewrite Hloop. split_and!; [|done|done|lia].
    do 2 f_equal. lia.
  - exists s, 0%nat. split_and!; [|done|done|lia].
    do 2 f_equal. lia.
Qed.

Lemma Inv_more_init d :
  (∀ i, is_Some (d !! i) ↔ i ∈ ms.*1) →
  Inv_more ms ws
    (Stable_Marriages.mk (seq 0 (length ms)) (seq 0 (length ws))
       (length ms) (Z.of_nat (length ms)) d,
     fresh_heap ms ws).
Proof.
  intros Hdom.
  assert (∀ a m, men_objs (fresh_heap ms ws) !! a = Some m →
            Man.proposals_made m = 0%nat) as Hmen.
  { intros a m Hm. simpl in Hm. rewrite list_lookup_fmap in Hm.
    destruct (ms !! a) as [[i p]|]; [|done]. by injection Hm as <-. }
  assert (∀ b w, women_objs (fresh_heap ms ws) !! b = Some w →
            Woman.proposals_received w = 0%nat) as Hwomen.
  { intros b w Hw. simpl in Hw. rewrite list_lookup_fmap in Hw.
    destruct (ws !! b) as [[i p]|]; [|done]. by injection Hw as <-. }
  split.
  - apply Inv_init; [apply Hvalid|done].
  - intros d' _ _ a m k x Hm Hk. rewrite (Hmen a m Hm) in Hk. lia.
  - unfold total_received, total_proposals.
    by rewrite !sum_list_all_zero.
Qed.

(** The run of [match] under the scan order [g], from the engine and the
    store the driver builds. *)
Lemma match_valid_more :
  ∃ sm n s',
    construct ms ws empty_heap
    = Ok (driver_globals ms ws, sm) (fresh_heap ms ws) ∧
    Stable_Marriages_match g (sm, fresh_heap ms ws) = (n, Ok None s') ∧
    Inv_more ms ws s' ∧ Stable_Marriages.freeMen s'.1 ≤ 0 ∧
    total_proposals s'.2 = n.
Proof.
  destruct (construct_equal ms ws (valid_length _ _ Hvalid))
    as (d0 & Hconstruct & Hdom).
  pose proof (Inv_more_init d0 Hdom) as HI0.
  destruct (match_loop_Inv_more _ _ 0%nat HI0 (Nat.lt_succ_diag_r _))
    as (s' & k & Hloop & HI' & Hfm & Htot).
  eexists _, k, s'. split_and!; [done| |done|done|].
  - unfold Stable_Marriages_match. by rewrite Hloop.
  - rewrite Htot. unfold total_proposals at 1.
    rewrite sum_list_all_zero; [done|].
    intros a m Hm. simpl in Hm. rewrite list_lookup_fmap in Hm.
    destruct (ms !! a) as [[i p]|]; [|done]. by injection Hm as <-.
Qed.
End more.

Lemma driver_scan_order ms ws : scan_order ms ws (driver_globals ms ws).
Proof. split; [done|]. intros a. simpl. rewrite elem_of_seq. lia. Qed.

Section outcome.
Context (ms ws : list (Z * list Z)).
Hypothesis Hvalid : valid_input ms ws.

Lemma final_optimal s d' p pp r r' :
  Inv_more ms ws s → Stable_Marriages.freeMen s.1 ≤ 0 →
  bijection ms ws d' → stable ms ws d' →
  (p, pp) ∈ ms →
  matched (Stable_Marriages_pairings s.1) p r → matched d' p r' →
  ¬ prefers pp r' r.
Proof.
  intros [HI Hopt _] Hdone Hbij Hstable Hp Hpr Hpr' (i & j & Hi & Hj & Hij).
  destruct (final_matched_inv ms ws s HI Hdone _ _ Hpr)
    as (a & m & b & w & k & Hm & Hmid & _ & _ & _ & Hk & Hlk).
  assert (pp = Man.pref_list m) as ->.
  { apply list_elem_of_lookup in Hp as [a0 Ha0].
    destruct (inv_man _ _ _ HI _ _ Hm) as (Hms & _). rewrite Hmid in Hms.
    assert (a0 = a) as -> by eauto using lookup_fst_unique, valid_mids.
    congruence. }
  pose proof (index_first _ _ _ _ Hj Hlk).
  destruct (Hopt d' Hbij Hstable a m i r' Hm) as [_ ?];
    [lia|by apply index_lookup|by rewrite Hmid|lia].
Qed.

(** Two mappings that are both bijections, stable and best for every
    proposer among the stable bijections are the same mapping. *)
Lemma optimal_unique d1 d2 :
  bijection ms ws d1 → bijection ms ws d2 →
  (∀ p pp r r', (p, pp) ∈ ms → matched d1 p r → matched d2 p r' →
                ¬ prefers pp r' r) →
  (∀ p pp r r', (p, pp) ∈ ms → matched d2 p r → matched d1 p r' →
                ¬ prefers pp r' r) →
  d1 = d2.
Proof.
  intros (Hdom1 & Hmen1 & _) (Hdom2 & Hmen2 & _) H12 H21.
  apply map_eq. intros p.
  destruct (decide (p ∈ ms.*1)) as [Hp|Hp].
  - destruct (Hmen1 p Hp) as (r1 & Hr1 & Hm1).
    destruct (Hmen2 p Hp) as (r2 & Hr2 & Hm2).
    destruct (elem_of_fst_lookup _ _ Hp) as (a & pp & Ha).
    assert ((p, pp) ∈ ms) as Hin by (apply list_elem_of_lookup; eauto).
    pose proof (valid_men_prefs _ _ Hvalid _ _ Hin) as Hperm.
    destruct (index_is_Some pp r1) as [i1 Hi1]; [by rewrite Hperm|].
    destruct (index_is_Some pp r2) as [i2 Hi2]; [by rewrite Hperm|].
    assert (i1 = i2) as ->.
    { destruct (decide (i1 < i2)%nat).
      - destruct (H21 p pp r2 r1 Hin Hm2 Hm1). by exists i1, i2.
      - destruct (decide (i2 < i1)%nat); [|lia].
        destruct (H12 p pp r1 r2 Hin Hm1 Hm2). by exists i2, i1. }
    assert (r1 = r2) as -> by eauto using index_inj.
    unfold matched in *. congruence.
  - destruct (d1 !! p) eqn:H1; [destruct Hp; apply Hdom1; eauto|].
    destruct (d2 !! p) eqn:H2; [destruct Hp; apply Hdom2; eauto|]. done.
Qed.

Lemma notebook_match_valid sm n s' :
  construct ms ws empty_heap
  = Ok (driver_globals ms ws, sm) (fresh_heap ms ws) →
  Stable_Marriages_match (driver_globals ms ws) (sm, fresh_heap ms ws)
  = (n, Ok None s') →
  notebook ms ws = Ok (n, None, Stable_Marriages_pairings s'.1) s'.2.
Proof.
  intros Hconstruct Hmatch. unfold notebook, notebook_cell.
  rewrite (bind_Ok _ _ _ _ _ Hconstruct). simpl.
  unfold run_match. by rewrite Hmatch.
Qed.
End outcome.

(** X10.  On valid input the mapping [match] leaves is the best stable
    matching for the proposers: in no stable bijection between the two
    groups does any proposer get a reviewer he ranks before the one the run
    gave him. *)
Theorem match_proposer_optimal ms ws :
  valid_input ms ws →
  ∃ rounds d h,
    notebook ms ws = Ok (rounds, None, d) h ∧
    ∀ d', bijection ms ws d' → stable ms ws d' →
    ∀ p pp r r',
      (p, pp) ∈ ms → matched d p r → matched d' p r' →
      ¬ prefers pp r' r ∧ (r' = r ∨ prefers pp r r').
Proof.
  intros Hvalid.
  destruct (match_valid_more ms ws (driver_globals ms ws) Hvalid
              (driver_scan_order ms ws))
    as (sm & n & s' & Hconstruct & Hmatch & HI & Hdone & _).
  exists n, (Stable_Marriages_pairings s'.1), s'.2.
  split; [by eapply notebook_match_valid|].
  intros d' Hbij Hstable p pp r r' Hp Hpr Hpr'.
  assert (¬ prefers pp r' r) as Hnot by by eapply final_optimal.
  split; [done|].
  pose proof (valid_men_prefs _ _ Hvalid _ _ Hp) as Hperm.
  destruct (final_bijection ms ws Hvalid s' (more_inv _ _ _ HI) Hdone)
    as (_ & Hmen & _).
  assert (p ∈ ms.*1) as Hpin.
  { apply list_elem_of_fmap. by exists (p, pp). }
  destruct (Hmen p Hpin) as (r0 & Hr0 & Hm0).
  assert (r0 = r) as -> by (unfold matched in *; congruence).
  destruct Hbij as (_ & Hmen' & _).
  destruct (Hmen' p Hpin) as (r0' & Hr0' & Hm0').
  assert (r0' = r') as -> by (unfold matched in *; congruence).
  destruct (index_is_Some pp r) as [i Hi]; [by rewrite Hperm|].
  destruct (index_is_Some pp r') as [i' Hi']; [by rewrite Hperm|].
  destruct (decide (i = i')) as [->|Hne].
  - left. eauto using index_inj.
  - right. exists i, i'. split_and!; [done..|].
    destruct (decide (i' < i)%nat); [|lia].
    destruct Hnot. by exists i', i.
Qed.

Lemma match_proposer_optimal_scenario :
  ∃ rounds d h,
    notebook scenario_men scenario_women = Ok (rounds, None, d) h ∧
    ∀ d', bijection scenario_men scenario_women d' →
          stable scenario_men scenario_women d' →
    ∀ p pp r r',
      (p, pp) ∈ scenario_men → matched d p r → matched d' p r' →
      ¬ prefers pp r' r ∧ (r' = r ∨ prefers pp r r').
Proof.
  exact (match_proposer_optimal scenario_men scenario_women scenario_valid).
Defined.

(** X11.  On valid input the mapping does not depend on the order in which
    the scan of [match] meets the free men: whatever list of the men the
    module-level [men] is bound to (any order, repetitions allowed), the
    run ends normally with the mapping the driver's run gives. *)
Theorem match_order_independent ms ws :
  valid_input ms ws →
  ∃ sm rounds d h,
    construct ms ws empty_heap
    = Ok (driver_globals ms ws, sm) (fresh_heap ms ws) ∧
    notebook ms ws = Ok (rounds, None, d) h ∧
    ∀ g, scan_order ms ws g →
         ∃ n s, Stable_Marriages_match g (sm, fresh_heap ms ws)
                = (n, Ok None s) ∧
                Stable_Marriages_pairings s.1 = d.
Proof.
  intros Hvalid.
  destruct (match_valid_more ms ws (driver_globals ms ws) Hvalid
              (driver_scan_order ms ws))
    as (sm & n & s' & Hconstruct & Hmatch & HI & Hdone & _).
  exists sm, n, (Stable_Marriages_pairings s'.1), s'.2.
  split_and!; [done|by eapply notebook_match_valid|].
  intros g Hg.
  destruct (match_valid_more ms ws g Hvalid Hg)
    as (sm2 & n2 & s2 & Hconstruct2 & Hmatch2 & HI2 & Hdone2 & _).
  assert (sm2 = sm) as -> by congruence.
  exists n2, s2. split; [done|].
  pose proof (final_bijection ms ws Hvalid s' (more_inv _ _ _ HI) Hdone).
  pose proof (final_bijection ms ws Hvalid s2 (more_inv _ _ _ HI2) Hdone2).
  pose proof (final_stable ms ws Hvalid s' (more_inv _ _ _ HI) Hdone).
  pose proof (final_stable ms ws Hvalid s2 (more_inv _ _ _ HI2) Hdone2).
  apply (optimal_unique ms ws Hvalid); try done.
  - intros p pp r r' Hp Hr Hr'.
    by apply (final_optimal ms ws Hvalid s2 (Stable_Marriages_pairings s'.1)
                p pp r r').
  - intros p pp r r' Hp Hr Hr'.
    by apply (final_optimal ms ws Hvalid s' (Stable_Marriages_pairings s2.1)
                p pp r r').
Qed.

(** The scenario with the module-level [men] bound in reverse order. *)
Lemma match_order_independent_scenario :
  ∃ sm rounds d h n s,
    construct scenario_men scenario_women empty_heap
    = Ok (driver_globals scenario_men scenario_women, sm)
        (fresh_heap scenario_men scenario_women) ∧
    notebook scenario_men scenario_women = Ok (rounds, None, d) h ∧
    Stable_Marriages_match (mk_globals [3; 2; 1; 0]%nat (seq 0 4))
      (sm, fresh_heap scenario_men scenario_women)
    = (n, Ok None s) ∧
    Stable_Marriages_pairings s.1 = d.
Proof.
  destruct (match_order_independent scenario_men scenario_women
              scenario_valid) as (sm & rounds & d & h & Hc & Hn & Hall).
  destruct (Hall (mk_globals [3; 2; 1; 0]%nat (seq 0 4)))
    as (n & s & Hm & Hd).
  - split; [reflexivity|]. intros a. simpl.
    rewrite !elem_of_cons, elem_of_nil. lia.
  - exists sm, rounds, d, h, n, s.
    exact (conj Hc (conj Hn (conj Hm Hd))).
Defined.

Lemma sum_list_at_least {A} (f : A → nat) (l : list A) :
  (∀ i x, l !! i = Some x → (1 ≤ f x)%nat) →
  (length l ≤ sum_list (f <$> l))%nat.
Proof.
  induction l as [|x l IH]; intros H; csimpl; [lia|].
  pose proof (H 0%nat x eq_refl). specialize (IH (λ i, H (S i))). lia.
Qed.

(** X12.  The objects after the run on valid input.  Nobody is free; the
    partner references are mutual; a man's partner is the woman his entry
    of the mapping names, she is the last woman he proposed to, and what is
    left of his list is what comes after her; a woman's [partner_rank] is
    her partner's position in her list.  The counters agree: the number of
    rounds is the sum of the men's [proposals_made] and the sum of the
    women's [proposals_received], and it is at least the size of a
    group. *)
Theorem match_final_objects ms ws :
  valid_input ms ws →
  ∃ rounds d h,
    notebook ms ws = Ok (rounds, None, d) h ∧
    (∀ a m, men_objs h !! a = Some m →
       ms !! a = Some (Man.mid m, Man.pref_list m) ∧
       Man.is_free m = false ∧
       ∃ b w k,
         Man.partner m = Some b ∧ women_objs h !! b = Some w ∧
         Woman.partner w = Some a ∧
         matched d (Man.mid m) (Woman.wid w) ∧
         Man.proposals_made m = S k ∧
         Man.pref_list m !! k = Some (Woman.wid w) ∧
         Man.remaining_list m = drop (S k) (Man.pref_list m)) ∧
    (∀ b w, women_objs h !! b = Some w →
       ws !! b = Some (Woman.wid w, Woman.pref_list w) ∧
       Woman.is_free w = false ∧
       ∃ a m,
         Woman.partner w = Some a ∧ men_objs h !! a = Some m ∧
         Man.partner m = Some b ∧
         Woman.partner_rank w = index (Woman.pref_list w) (Man.mid m)) ∧
    length (men_objs h) = length ms ∧
    length (women_objs h) = length ws ∧
    rounds = total_proposals h ∧
    rounds = total_received h ∧
    (length ms ≤ rounds)%nat.
Proof.
  intros Hvalid.
  destruct (match_valid_more ms ws (driver_globals ms ws) Hvalid
              (driver_scan_order ms ws))
    as (sm & n & s' & Hconstruct & Hmatch & [HI Hopt Hrec] & Hdone & Htot).
  exists n, (Stable_Marriages_pairings s'.1), s'.2.
  split; [by eapply notebook_match_valid|].
  split_and!.
  - intros a m Hm.
    destruct (inv_man _ _ _ HI _ _ Hm) as (Hms & Hrem & _).
    destruct (final_man_matched ms ws s' HI Hdone a m Hm)
      as (b & w & k & Hw & Hwp & Hp & Hk & Hlk & Hmatched).
    split_and!; [done|by eapply final_man_engaged|].
    exists b, w, k. split_and!; try done. by rewrite <-Hk.
  - intros b w Hw. split_and!.
    + apply (inv_woman _ _ _ HI _ _ Hw).
    + by eapply final_woman_engaged.
    + destruct (inv_woman_engaged _ _ _ HI _ _ Hw)
        as (a & m & r & ? & ? & ? & ? & ? & ?);
        [by eapply final_woman_engaged|].
      exists a, m. split_and!; try done. congruence.
  - apply (inv_men_len _ _ _ HI).
  - apply (inv_women_len _ _ _ HI).
  - done.
  - congruence.
  - rewrite <-Htot, <-(inv_men_len _ _ _ HI). unfold total_proposals.
    apply sum_list_at_least. intros a m Hm.
    destruct (final_man_matched ms ws s' HI Hdone a m Hm)
      as (_ & _ & k & _ & _ & _ & Hk & _). lia.
Qed.

Lemma match_final_objects_scenario :
  ∃ rounds d h,
    notebook scenario_men scenario_women = Ok (rounds, None, d) h ∧
    length (men_objs h) = 4%nat ∧ length (women_objs h) = 4%nat ∧
    rounds = total_proposals h ∧ rounds = total_received h ∧
    (4 ≤ rounds)%nat.
Proof.
  destruct (match_final_objects scenario_men scenario_women scenario_valid)
    as (rounds & d & h & Hrun & _ & _ & Hm & Hw & Hp & Hr & Hle).
  exists rounds, d, h.
  exact (conj Hrun (conj Hm (conj Hw (conj Hp (conj Hr Hle))))).
Defined.

(** ** Between two rounds *)

Lemma match_body_no_free g self h :
  find_free_man (men g) h = Ok None h →
  match_body g (self, h) = Ok Break (self, h).
Proof.
  intros Hfind. unfold match_body.
  by rewrite (bind_Ok _ _ (self, h) None (self, h))
    by (unfold lift; simpl; by rewrite Hfind).
Qed.

Lemma iterate_body_Inv ms ws k : ∀ s s',
  valid_input ms ws → Inv ms ws s →
  iterate_body k (driver_globals ms ws) s = Some s' →
  Inv ms ws s' ∧ total_proposals s'.2 = (total_proposals s.2 + k)%nat.
Proof.
  induction k as [|k IH]; intros s s' Hvalid HI; simpl.
  - intros [= <-]. split; [done|lia].
  - destruct (decide (0 < Stable_Marriages.freeMen s.1)) as [Hpos|Hdone].
    + destruct (Inv_step ms ws Hvalid s HI Hpos) as (s1 & -> & HI1 & Htot).
      intros Hrest. destruct (IH _ _ Hvalid HI1 Hrest) as [? ?].
      split; [done|lia].
    + destruct s as [self h]. simpl in *.
      rewrite match_body_no_free; [done|].
      destruct (find_free_man_spec (seq 0 (length ms)) h)
        as (r & Hr & Hspec).
      { intros a Ha%elem_of_seq. apply lookup_lt_is_Some_2.
        pose proof (inv_men_len _ _ _ HI) as Hlen. simpl in Hlen. lia. }
      destruct r as [a|]; [|done].
      destruct Hspec as (_ & m & Hm & Hfree).
      assert (Man.is_free m = false); [|congruence].
      eapply (final_man_engaged ms ws (self, h) HI); [simpl; lia|done].
Qed.

(** X13.  After any number of rounds on valid input the engine and the
    objects are consistent.  [freeMen] is the number of free men; a free man
    has no partner; an engaged man and his partner refer to each other, and
    his entry of the mapping names her; an engaged woman's [partner_rank] is
    her partner's position in her list; every woman a man has proposed to
    is engaged to someone she ranks at least as high as him; and the number
    of rounds is the sum of the men's [proposals_made]. *)
Theorem rounds_keep_engagements ms ws k g s :
  valid_input ms ws →
  state_after ms ws k = Some (g, s) →
  Stable_Marriages.freeMen s.1 = Z.of_nat (free_man_count s.2) ∧
  (∀ a m, men_objs s.2 !! a = Some m → Man.is_free m = true →
          Man.partner m = None) ∧
  (∀ a m, men_objs s.2 !! a = Some m → Man.is_free m = false →
          ∃ b w, Man.partner m = Some b ∧ women_objs s.2 !! b = Some w ∧
                 Woman.partner w = Some a ∧ Woman.is_free w = false ∧
                 matched (Stable_Marriages_pairings s.1)
                   (Man.mid m) (Woman.wid w)) ∧
  (∀ b w, women_objs s.2 !! b = Some w → Woman.is_free w = false →
          ∃ a m, Woman.partner w = Some a ∧ men_objs s.2 !! a = Some m ∧
                 Man.partner m = Some b ∧ Man.is_free m = false ∧
                 Woman.partner_rank w
                 = index (Woman.pref_list w) (Man.mid m)) ∧
  (∀ a m j x, men_objs s.2 !! a = Some m →
              (j < Man.proposals_made m)%nat →
              Man.pref_list m !! j = Some x →
              ∃ b w pr r,
                women_objs s.2 !! b = Some w ∧ Woman.wid w = x ∧
                Woman.is_free w = false ∧
                Woman.partner_rank w = Some pr ∧
                index (Woman.pref_list w) (Man.mid m) = Some r ∧
                (pr ≤ r)%nat) ∧
  total_proposals s.2 = k.
Proof.
  intros Hvalid. unfold state_after.
  destruct (construct_equal ms ws (valid_length _ _ Hvalid))
    as (d0 & -> & Hdom). simpl.
  destruct (iterate_body k _ _) as [s0|] eqn:Hiter; [|done].
  intros [= <- <-].
  pose proof (Inv_init ms ws d0 (valid_length _ _ Hvalid) Hdom) as HI0.
  destruct (iterate_body_Inv ms ws k _ _ Hvalid HI0 Hiter) as [HI Htot].
  split_and!.
  - apply (inv_free_men _ _ _ HI).
  - apply (inv_man_free _ _ _ HI).
  - intros a m Hm Hnf.
    destruct (inv_man_engaged _ _ _ HI _ _ Hm Hnf)
      as (b & w & j & ? & ? & ? & ? & ? & ? & Hst).
    exists b, w. split_and!; try done.
    unfold matched, Stable_Marriages_pairings. by rewrite lookup_fmap, Hst.
  - intros b w Hw Hnf.
    destruct (inv_woman_engaged _ _ _ HI _ _ Hw Hnf)
      as (a & m & r & ? & ? & ? & ? & ? & ?).
    exists a, m. split_and!; try done. congruence.
  - apply (inv_proposed _ _ _ HI).
  - rewrite Htot. unfold total_proposals. simpl.
    rewrite sum_list_all_zero; [done|].
    intros a m Hm. rewrite list_lookup_fmap in Hm.
    destruct (ms !! a) as [[i p]|]; [|done]. by injection Hm as <-.
Qed.

Lemma cell_valid : valid_input cell_men scenario_women.
Proof.
  split.
  - done.
  - by apply (bool_decide_unpack _).
  - by apply (bool_decide_unpack _).
  - intros i p Hin. unfold cell_men in Hin.
    repeat (apply elem_of_cons in Hin as [[= -> ->]|Hin]);
      [by apply (bool_decide_unpack _)..|].
    by apply elem_of_nil in Hin.
  - intros i p Hin. unfold scenario_women in Hin.
    repeat (apply elem_of_cons in Hin as [[= -> ->]|Hin]);
      [by apply (bool_decide_unpack _)..|].
    by apply elem_of_nil in Hin.
Qed.

(** The code cell after its five first rounds. *)
Lemma rounds_keep_engagements_cell :
  Stable_Marriages.freeMen (cell_state 5).1
  = Z.of_nat (free_man_count (cell_state 5).2) ∧
  total_proposals (cell_state 5).2 = 5%nat.
Proof.
  destruct (rounds_keep_engagements cell_men scenario_women 5 cell_globals
              (cell_state 5) cell_valid)
    as (Hfree & _ & _ & _ & _ & Htotal); [vm_compute; reflexivity|].
  exact (conj Hfree Htotal).
Defined.

(** X14.  On valid input the mapping is the worst stable matching for the
    reviewers: in no stable bijection does a reviewer get a proposer she
    ranks after the one the run gave her. *)
Theorem match_reviewer_pessimal ms ws :
  valid_input ms ws →
  ∃ rounds d h,
    notebook ms ws = Ok (rounds, None, d) h ∧
    ∀ d', bijection ms ws d' → stable ms ws d' →
    ∀ r rp p p',
      (r, rp) ∈ ws → matched d p r → matched d' p' r →
      ¬ prefers rp p p'.
Proof.
  intros Hvalid.
  destruct (match_valid_more ms ws (driver_globals ms ws) Hvalid
              (driver_scan_order ms ws))
    as (sm & n & s' & Hconstruct & Hmatch & HI & Hdone & _).
  exists n, (Stable_Marriages_pairings s'.1), s'.2.
  split; [by eapply notebook_match_valid|].
  intros d' Hbij Hstable r rp p p' Hr Hpr Hp'r Hprefers.
  destruct (final_bijection ms ws Hvalid s' (more_inv _ _ _ HI) Hdone)
    as (Hdom & _ & _).
  assert (p ∈ ms.*1) as Hpin by (apply Hdom; unfold matched in Hpr; eauto).
  destruct (elem_of_fst_lookup _ _ Hpin) as (a & pp & Ha).
  assert ((p, pp) ∈ ms) as Hp by (apply list_elem_of_lookup; eauto).
  pose proof Hbij as (_ & Hmen' & Hwomen').
  destruct (Hmen' p Hpin) as (r2 & Hr2 & Hpr2).
  assert (r2 ≠ r) as Hne.
  { intros ->. destruct (Hwomen' r) as (p0 & _ & _ & Huniq).
    { apply list_elem_of_fmap. by exists (r, rp). }
    assert (p = p') as -> by (rewrite (Huniq _ Hpr2), (Huniq _ Hp'r); done).
    destruct Hprefers as (i & j & Hi & Hj & Hij).
    assert (i = j) by congruence. lia. }
  pose proof (final_optimal ms ws Hvalid s' d' p pp r r2 HI Hdone Hbij
                Hstable Hp Hpr Hpr2) as Hnot.
  pose proof (valid_men_prefs _ _ Hvalid _ _ Hp) as Hperm.
  destruct (index_is_Some pp r) as [i Hi].
  { rewrite Hperm. apply list_elem_of_fmap. by exists (r, rp). }
  destruct (index_is_Some pp r2) as [i2 Hi2]; [by rewrite Hperm|].
  assert (i < i2)%nat as Hlt.
  { destruct (decide (i2 < i)%nat) as [Hlt|]; [destruct Hnot; by exists i2, i|].
    destruct (decide (i = i2)) as [->|]; [|lia].
    destruct Hne. eauto using index_inj. }
  apply (Hstable p pp r rp r2 p'); try done.
  - unfold matched in *. congruence.
  - split; [by exists i, i2|done].
Qed.

Lemma match_reviewer_pessimal_scenario :
  ∃ rounds d h,
    notebook scenario_men scenario_women = Ok (rounds, None, d) h ∧
    ∀ d', bijection scenario_men scenario_women d' →
          stable scenario_men scenario_women d' →
    ∀ r rp p p',
      (r, rp) ∈ scenario_women → matched d p r → matched d' p' r →
      ¬ prefers rp p p'.
Proof.
  exact (match_reviewer_pessimal scenario_men scenario_women scenario_valid).
Defined.

(** X15.  The guard of a round is [proposals_made < applicants]; neither
    the remaining list nor [max_proposals] is consulted.  A selected free
    man who has made [applicants] proposals makes [match] return the
    message even when ids are left on his list, and nothing is written. *)
Theorem proposals_capped_by_applicants fuel g rounds self h a m :
  0 < Stable_Marriages.freeMen self →
  find_free_man (men g) h = Ok (Some a) h →
  men_objs h !! a = Some m →
  (Stable_Marriages.applicants self ≤ Man.proposals_made m)%nat →
  match_loop (S fuel) g rounds (self, h)
  = Some (rounds, Ok (Some "ran out of women to propose to") (self, h)).
Proof.
  intros Hpos Hfind Hm Hle.
  simpl. destruct (Z.ltb_spec 0 (Stable_Marriages.freeMen self)); [|lia].
  unfold match_body.
  rewrite (bind_Ok _ _ (self, h) (Some a) (self, h))
    by (unfold lift; simpl; by rewrite Hfind).
  run_store.
  by destruct (Nat.ltb_spec (Man.proposals_made m)
                 (Stable_Marriages.applicants self)); [lia|].
Qed.

(** Man 1 of [long_men] after three rounds: woman 1, who is free, is still
    on his list. *)
Lemma proposals_capped_long_men :
  Man.remaining_list <$> men_objs (heap_after long_men two_women 3) !! 1%nat
  = Some [1] ∧
  match_loop 1 (driver_globals long_men two_women) 3
    (engine_after long_men two_women 3, heap_after long_men two_women 3)
  = Some (3%nat,
          Ok (Some "ran out of women to propose to")
            (engine_after long_men two_women 3,
             heap_after long_men two_women 3)).
Proof.
  split; [vm_compute; reflexivity|].
  apply (proposals_capped_by_applicants 0
           (driver_globals long_men two_women) 3
           (engine_after long_men two_women 3)
           (heap_after long_men two_women 3) 1
           (Man.mk 1 [0; 0; 1] [1] None None true 2 3)).
  - vm_compute. reflexivity.
  - vm_compute. reflexivity.
  - vm_compute. reflexivity.
  - vm_compute. lia.
Defined.
